(** * Lettabot Matrix adapter: E2EE verification and decrypt-retry pipeline

    A shallow embedding of
    - [src/matrix/verification.ts] (class [MatrixVerificationHandler]),
    - the Matrix adapter ([MatrixAdapter]: timeline handler, decrypt-retry
      sweep, key-backup restore, proactive verification), and
    - the text message handler ([handleTextMessage]),
    followed by the properties of the specification that concern them.

    The matrix-js-sdk objects the code talks to (verification requests,
    verifiers, timeline events, the crypto module) are external.  They are
    modelled as a store of mutable objects plus a stream of inputs: every
    promise the code awaits and every event or timer it subscribes to becomes
    an input that the environment may deliver at any later point.  The code
    between two suspension points runs atomically, as it does on the
    JavaScript event loop. *)

From Stdlib Require Import ZArith Lia Ascii.
From stdpp Require Import strings functions.
From stdpp Require Import base tactics option list.

Local Open Scope Z_scope.
Local Open Scope string_scope.
Local Open Scope list_scope.

(** ** JavaScript [Map<string, V>]

    A JS [Map] iterates in insertion order; [set] on an existing key keeps
    the key's position, [delete] followed by [set] moves it to the end. *)
Module JsMap.
Abbreviation t V := (list (string * V)) (only parsing).

Section defs.
Context {V : Type}.

Definition empty : t V := [].

Fixpoint get (k : string) (m : t V) : option V :=
  match m with
  | [] => None
  | (k', v) :: m' => if decide (k = k') then Some v else get k m'
  end.

Fixpoint set (k : string) (v : V) (m : t V) : t V :=
  match m with
  | [] => [(k, v)]
  | (k', v') :: m' =>
      if decide (k = k') then (k, v) :: m' else (k', v') :: set k v m'
  end.

Fixpoint delete (k : string) (m : t V) : t V :=
  match m with
  | [] => []
  | (k', v') :: m' =>
      if decide (k = k') then delete k m' else (k', v') :: delete k m'
  end.

Definition size (m : t V) : nat := length m.

Definition keys (m : t V) : list string := m.*1.

Definition values (m : t V) : list V := m.*2.

(** Number of entries stored under key [k]. *)
Definition count (k : string) (m : t V) : nat :=
  length (filter (λ kv, kv.1 = k) m).
End defs.
End JsMap.

(** ** JavaScript helpers *)

(** [x || d] on an optional string: [undefined] and the empty string are
    falsy. *)
Definition js_or (o : option string) (d : string) : string :=
  match o with
  | Some s => if decide (s = "") then d else s
  | None => d
  end.

(** Removal of one registered callback ([emitter.off(name, f)],
    [clearTimeout]-like removal of one pending entry). *)
Fixpoint remove_first {A} `{EqDecision A} (x : A) (l : list A) : list A :=
  match l with
  | [] => []
  | y :: l' => if decide (x = y) then l' else y :: remove_first x l'
  end.

(** ** src/matrix/verification.ts *)
Module Verification.

(** [sdk.Crypto.VerificationPhase] *)
Inductive VerificationPhase :=
  Unsent | Requested | Ready | Started | Cancelled | Done.

#[global] Instance VerificationPhase_eq_dec : EqDecision VerificationPhase.
Proof. solve_decision. Defined.

(** The part of an [sdk.Crypto.VerificationRequest] object the handler reads.
    Requests and verifiers are SDK objects; they are referred to by their
    identity (a number) and live in the store [requests] of the state. *)
Record VerificationRequest := mkRequest {
  otherUserId : string;
  otherDeviceId : option string;
  phase : VerificationPhase;
  verifier : option nat;
  cancellationCode : option string
}.

(** [interface ActiveVerification]; [request] and [sasCallbacks] are
    references to SDK objects ([sasCallbacks] is the callbacks object of the
    verifier with that identity). *)
Record ActiveVerification := mkActive {
  userId : string;
  deviceId : string;
  stored_verifier : option nat;
  request : nat;
  sasCallbacks : option nat
}.

(** Closures registered with [request.on("change", ...)]. *)
Inductive ChangeListener :=
| OnChange (key : string)          (* [onChange] of acceptAndStartSAS *)
| OnPhaseChange (key : string)     (* the listener of attachVerifierListeners *)
| OnReadyOrStarted (key : string). (* [onReadyOrStarted] of requestVerification *)

#[global] Instance ChangeListener_eq_dec : EqDecision ChangeListener.
Proof. solve_decision. Defined.

(** Callbacks handed to [setTimeout]. *)
Inductive TimerAction :=
| ReadyPoll (r : nat) (key : string)   (* 1000 ms poll of acceptAndStartSAS *)
| SettleDelay (r : nat) (key : string) (* 500 ms pause of startSASVerification *)
| AutoConfirm (key : string).          (* 5000 ms auto-confirm *)

#[global] Instance TimerAction_eq_dec : EqDecision TimerAction.
Proof. solve_decision. Defined.

(** Suspended [await]s on SDK promises. *)
Inductive Await :=
| AwaitAccept (r : nat) (key : string)
| AwaitDeviceInfo (r : nat) (key : string)
| AwaitStart (r : nat) (key : string)
| AwaitVerify (v : nat)
| AwaitConfirm (v : nat)
| AwaitRequestDevice (u d : string).

#[global] Instance Await_eq_dec : EqDecision Await.
Proof. solve_decision. Defined.

(** Calls into the SDK and into the handler's callbacks, in the order they
    are made.  [OnShowSas] and [CallConfirm] carry the session key of the
    closure that made the call and the verifier whose SAS is concerned. *)
Inductive Effect :=
| CallAccept (r : nat)
| CallGetUserDeviceInfo (u : string)
| CallStartVerification (r : nat)
| CallVerify (v : nat)
| CallConfirm (key : string) (v : nat)
| CallRequestDeviceVerification (u d : string)
| OnShowSas (key : string) (v : nat) (emojis : list string)
| OnComplete
| OnCancel (reason : string)
| OnError (err : string)
| RequestVerificationRejected (err : string).

#[global] Instance Effect_eq_dec : EqDecision Effect.
Proof. solve_decision. Defined.

Record State := mkState {
  activeVerifications : JsMap.t ActiveVerification;
  requests : nat → VerificationRequest;          (* SDK request objects *)
  changeListeners : list (nat * ChangeListener);  (* request.on("change") *)
  showSasListeners : list (nat * string);         (* verifier.on("show_sas") *)
  cancelListeners : list (nat * string);          (* verifier.on("cancel") *)
  timers : list (Z * TimerAction);                (* pending setTimeout *)
  awaits : list Await;                            (* pending SDK promises *)
  now : Z;                                        (* clock, in ms *)
  crypto : bool;                                  (* client.getCrypto() non-null *)
  log : list (Z * Effect)
}.

Definition unknownRequest : VerificationRequest :=
  mkRequest "" None Unsent None None.

Definition init (crypto : bool) : State :=
  mkState JsMap.empty (λ _, unknownRequest) [] [] [] [] [] 0 crypto [].

(** *** State updates *)

Definition set_active (f : JsMap.t ActiveVerification → JsMap.t ActiveVerification)
    (s : State) : State :=
  mkState (f (activeVerifications s)) (requests s) (changeListeners s)
    (showSasListeners s) (cancelListeners s) (timers s) (awaits s) (now s)
    (crypto s) (log s).

Definition set_request (r : nat) (req : VerificationRequest) (s : State) : State :=
  mkState (activeVerifications s) (<[r := req]> (requests s)) (changeListeners s)
    (showSasListeners s) (cancelListeners s) (timers s) (awaits s) (now s)
    (crypto s) (log s).

Definition set_changeListeners
    (f : list (nat * ChangeListener) → list (nat * ChangeListener))
    (s : State) : State :=
  mkState (activeVerifications s) (requests s) (f (changeListeners s))
    (showSasListeners s) (cancelListeners s) (timers s) (awaits s) (now s)
    (crypto s) (log s).

Definition add_verifierListeners (v : nat) (key : string) (s : State) : State :=
  mkState (activeVerifications s) (requests s) (changeListeners s)
    (showSasListeners s ++ [(v, key)]) (cancelListeners s ++ [(v, key)])
    (timers s) (awaits s) (now s) (crypto s) (log s).

Definition set_timers (f : list (Z * TimerAction) → list (Z * TimerAction))
    (s : State) : State :=
  mkState (activeVerifications s) (requests s) (changeListeners s)
    (showSasListeners s) (cancelListeners s) (f (timers s)) (awaits s) (now s)
    (crypto s) (log s).

Definition set_awaits (f : list Await → list Await) (s : State) : State :=
  mkState (activeVerifications s) (requests s) (changeListeners s)
    (showSasListeners s) (cancelListeners s) (timers s) (f (awaits s)) (now s)
    (crypto s) (log s).

Definition set_now (t : Z) (s : State) : State :=
  mkState (activeVerifications s) (requests s) (changeListeners s)
    (showSasListeners s) (cancelListeners s) (timers s) (awaits s) t
    (crypto s) (log s).

(** An SDK call or callback invocation, stamped with the current time. *)
Definition emit (e : Effect) (s : State) : State :=
  mkState (activeVerifications s) (requests s) (changeListeners s)
    (showSasListeners s) (cancelListeners s) (timers s) (awaits s) (now s)
    (crypto s) (log s ++ [(now s, e)]).

(** [setTimeout(a, delay)] *)
Definition setTimeout (a : TimerAction) (delay : Z) (s : State) : State :=
  set_timers (λ ts, ts ++ [(now s + delay, a)]) s.

Definition suspend (a : Await) : State → State :=
  set_awaits (λ l, l ++ [a]).

(** [request.on("change", l)] and [request.off("change", l)] *)
Definition on_change (r : nat) (l : ChangeListener) : State → State :=
  set_changeListeners (λ ls, ls ++ [(r, l)]).

Definition off_change (r : nat) (l : ChangeListener) : State → State :=
  set_changeListeners (remove_first (r, l)).

(** *** The handler *)

(** [`${otherUserId}|${otherDeviceId}`] *)
Definition session_key (u d : string) : string := u +:+ "|" +:+ d.

Definition is_terminal (p : VerificationPhase) : bool :=
  match p with Cancelled | Done => true | _ => false end.

(** [attachVerifierListeners(verifier, request, key)]: registers the
    show_sas and cancel listeners on the verifier and a change listener on
    the request. *)
Definition attachVerifierListeners (v r : nat) (key : string) (s : State) : State :=
  on_change r (OnPhaseChange key) (add_verifierListeners v key s).

(** [startSASVerification], from "Check if verifier already exists" up to
    the [await] on [request.startVerification("m.sas.v1")]. *)
Definition startSASVerification_start (r : nat) (key : string) (s : State) : State :=
  match verifier (requests s r) with
  | Some v => attachVerifierListeners v r key s
  | None => suspend (AwaitStart r key) (emit (CallStartVerification r) s)
  end.

(** [startSASVerification(request, key)] up to its first suspension. *)
Definition startSASVerification (r : nat) (key : string) (s : State) : State :=
  if crypto s && bool_decide (otherUserId (requests s r) ≠ "") then
    suspend (AwaitDeviceInfo r key)
      (emit (CallGetUserDeviceInfo (otherUserId (requests s r))) s)
  else startSASVerification_start r key s.

(** [acceptAndStartSAS(request, key)] up to [await request.accept()]. *)
Definition acceptAndStartSAS (r : nat) (key : string) (s : State) : State :=
  suspend (AwaitAccept r key) (emit (CallAccept r) s).

(** [acceptAndStartSAS] after [request.accept()] resolved. *)
Definition acceptAndStartSAS_accepted (r : nat) (key : string) (s : State) : State :=
  if decide (phase (requests s r) = Ready) then startSASVerification r key s
  else setTimeout (ReadyPoll r key) 1000 (on_change r (OnChange key) s).

(** The entry stored by [handleVerificationRequest]. *)
Definition new_entry (r : nat) (req : VerificationRequest) : ActiveVerification :=
  mkActive (otherUserId req) (js_or (otherDeviceId req) "unknown") None r None.

(** [handleVerificationRequest], from "Store the request immediately". *)
Definition handleVerificationRequest_store (r : nat) (key : string) (s : State) : State :=
  let req := requests s r in
  let s := set_active (JsMap.set key (new_entry r req)) s in
  match phase req with
  | Requested => acceptAndStartSAS r key s
  | Ready => startSASVerification r key s
  | Started =>
      match verifier req with
      | Some v => attachVerifierListeners v r key s
      | None => s
      end
  | _ => s
  end.

(** [handleVerificationRequest(request)] *)
Definition handleVerificationRequest (r : nat) (s : State) : State :=
  let req := requests s r in
  let key := session_key (otherUserId req) (js_or (otherDeviceId req) "unknown") in
  match JsMap.get key (activeVerifications s) with
  | Some existing =>
      if is_terminal (phase (requests s (request existing))) then
        handleVerificationRequest_store r key (set_active (JsMap.delete key) s)
      else if decide (phase req = Requested) then
        handleVerificationRequest_store r key (set_active (JsMap.delete key) s)
      else s
  | None => handleVerificationRequest_store r key s
  end.

(** [startSASVerification] after [request.startVerification] settled with a
    verifier. *)
Definition startSASVerification_started (v r : nat) (key : string) (s : State) : State :=
  let s :=
    match JsMap.get key (activeVerifications s) with
    | Some stored =>
        set_active (JsMap.set key
          (mkActive (userId stored) (deviceId stored) (Some v) (request stored)
             (sasCallbacks stored))) s
    | None => s
    end in
  suspend (AwaitVerify v) (emit (CallVerify v) (attachVerifierListeners v r key s)).

(** [confirmVerification(key)] up to [await stored.sasCallbacks.confirm()]. *)
Definition confirmVerification (key : string) (s : State) : State :=
  match JsMap.get key (activeVerifications s) with
  | Some stored =>
      match sasCallbacks stored with
      | Some v => suspend (AwaitConfirm v) (emit (CallConfirm key v) s)
      | None => s
      end
  | None => s
  end.

(** [`${e[0]} ${e[1]}`] *)
Definition format_emoji (e : string * string) : string := e.1 +:+ " " +:+ e.2.

(** The show_sas listener of [attachVerifierListeners], a closure over the
    verifier [v] and [key].  [payload] tells whether the event carried a
    truthy argument; [emoji] is [verifier.getShowSasCallbacks()?.sas?.emoji]. *)
Definition show_sas_listener (payload : bool)
    (emoji : option (list (string * string))) (v : nat) (key : string)
    (s : State) : State :=
  if negb payload then s
  else match emoji with
  | None => s
  | Some es =>
      let s :=
        match JsMap.get key (activeVerifications s) with
        | Some stored =>
            set_active (JsMap.set key
              (mkActive (userId stored) (deviceId stored) (stored_verifier stored)
                 (request stored) (Some v))) s
        | None => s
        end in
      setTimeout (AutoConfirm key) 5000
        (emit (OnShowSas key v (format_emoji <$> es)) s)
  end.

(** The cancel listener; [errMessage] is [Some err.message] when the
    argument is an [Error]. *)
Definition cancel_listener (errMessage : option string) (key : string)
    (s : State) : State :=
  emit (OnCancel (default "Verification cancelled" errMessage))
    (set_active (JsMap.delete key) s).

(** The three kinds of change listener, run on a change of request [r]. *)
Definition change_listener (r : nat) (l : ChangeListener) (s : State) : State :=
  let req := requests s r in
  match l with
  | OnChange key =>
      match phase req with
      | Ready => startSASVerification r key (off_change r (OnChange key) s)
      | Done => off_change r (OnChange key) s
      | _ => s
      end
  | OnPhaseChange key =>
      match phase req with
      | Done => emit OnComplete (set_active (JsMap.delete key) s)
      | Cancelled =>
          emit (OnCancel (js_or (cancellationCode req) "Unknown"))
            (set_active (JsMap.delete key) s)
      | _ => s
      end
  | OnReadyOrStarted key =>
      match phase req with
      | Ready => off_change r (OnReadyOrStarted key) (startSASVerification r key s)
      | Started =>
          match verifier req with
          | Some v =>
              off_change r (OnReadyOrStarted key) (attachVerifierListeners v r key s)
          | None => s
          end
      | _ => s
      end
  end.

(** An emitter calls the listeners registered at the time of the emit, in
    registration order. *)
Definition emit_change (r : nat) (s : State) : State :=
  foldl (λ s rl, if decide (rl.1 = r) then change_listener r rl.2 s else s)
    s (changeListeners s).

Definition emit_show_sas (v : nat) (payload : bool)
    (emoji : option (list (string * string))) (s : State) : State :=
  foldl (λ s vk, if decide (vk.1 = v) then show_sas_listener payload emoji v vk.2 s else s)
    s (showSasListeners s).

Definition emit_cancel (v : nat) (errMessage : option string) (s : State) : State :=
  foldl (λ s vk, if decide (vk.1 = v) then cancel_listener errMessage vk.2 s else s)
    s (cancelListeners s).

(** A timer callback. *)
Definition timer_callback (a : TimerAction) (s : State) : State :=
  match a with
  | ReadyPoll r key =>
      if decide (phase (requests s r) = Ready) then
        startSASVerification r key (off_change r (OnChange key) s)
      else s
  | SettleDelay r key => startSASVerification_start r key s
  | AutoConfirm key => confirmVerification key s
  end.

(** [requestVerification(userId, deviceId)] up to
    [await crypto.requestDeviceVerification]. *)
Definition requestVerification (u d : string) (s : State) : State :=
  if crypto s then
    suspend (AwaitRequestDevice u d) (emit (CallRequestDeviceVerification u d) s)
  else emit (RequestVerificationRejected "Crypto not initialized") s.

(** [requestVerification] after the SDK returned request [r]. *)
Definition requestVerification_requested (u d : string) (r : nat) (s : State) : State :=
  let key := session_key u d in
  on_change r (OnReadyOrStarted key)
    (set_active (JsMap.set key (mkActive u d None r None)) s).

(** [dispose()] *)
Definition dispose (s : State) : State := set_active (λ _, JsMap.empty) s.

(** *** Inputs

    What the environment can do: let time pass, mutate a request object
    (emitting "change" or not), deliver a verification request, settle a
    promise the handler awaits, run a due timer, emit show_sas or cancel
    on a verifier, and call the handler's public methods.  A promise
    settles with [None] (resolved) or [Some err] (rejected). *)
Inductive Input :=
| Advance (dt : Z)
| SdkSetRequest (r : nat) (req : VerificationRequest) (emitChange : bool)
| VerificationRequestReceived (r : nat)
| AcceptSettled (r : nat) (key : string) (err : option string)
| DeviceInfoSettled (r : nat) (key : string) (err : option string)
| StartVerificationSettled (r : nat) (key : string) (res : string + option nat)
| VerifySettled (v : nat) (err : option string)
| ConfirmSettled (v : nat) (err : option string)
| RequestDeviceVerificationSettled (u d : string) (res : string + nat)
| TimerFires (due : Z) (a : TimerAction)
| ShowSas (v : nat) (payload : bool) (emoji : option (list (string * string)))
| VerifierCancel (v : nat) (errMessage : option string)
| RequestVerification (u d : string)
| Dispose.

(** Resuming a suspended [await]: only a pending promise can settle. *)
Definition settle (a : Await) (k : State → State) (s : State) : State :=
  if decide (a ∈ awaits s) then k (set_awaits (remove_first a) s) else s.

(** Every [await] of acceptAndStartSAS, startSASVerification and
    confirmVerification sits in a [try] whose [catch] calls
    [callbacks.onError]. *)
Definition or_onError (err : option string) (k : State → State) (s : State) : State :=
  match err with
  | Some e => emit (OnError e) s
  | None => k s
  end.

Definition step (i : Input) (s : State) : State :=
  match i with
  | Advance dt => if decide (0 ≤ dt)%Z then set_now (now s + dt) s else s
  | SdkSetRequest r req emitChange =>
      let s := set_request r req s in
      if emitChange then emit_change r s else s
  | VerificationRequestReceived r => handleVerificationRequest r s
  | AcceptSettled r key err =>
      settle (AwaitAccept r key) (or_onError err (acceptAndStartSAS_accepted r key)) s
  | DeviceInfoSettled r key err =>
      settle (AwaitDeviceInfo r key)
        (or_onError err (setTimeout (SettleDelay r key) 500)) s
  | StartVerificationSettled r key res =>
      settle (AwaitStart r key)
        (match res with
         | inl e => emit (OnError e)
         | inr None => emit (OnError "startVerification returned undefined")
         | inr (Some v) => startSASVerification_started v r key
         end) s
  | VerifySettled v err => settle (AwaitVerify v) (or_onError err id) s
  | ConfirmSettled v err => settle (AwaitConfirm v) (or_onError err id) s
  | RequestDeviceVerificationSettled u d res =>
      settle (AwaitRequestDevice u d)
        (match res with
         | inl e => emit (RequestVerificationRejected e)
         | inr r => requestVerification_requested u d r
         end) s
  | TimerFires due a =>
      if decide ((due, a) ∈ timers s ∧ (due ≤ now s)%Z) then
        timer_callback a (set_timers (remove_first (due, a)) s)
      else s
  | ShowSas v payload emoji => emit_show_sas v payload emoji s
  | VerifierCancel v errMessage => emit_cancel v errMessage s
  | RequestVerification u d => requestVerification u d s
  | Dispose => dispose s
  end.

Definition run (inputs : list Input) (s : State) : State :=
  foldl (flip step) s inputs.

(** Effects of one kind in a log. *)
Definition effects (s : State) : list Effect := (log s).*2.

(** [getVerificationRequests(userId)]: the requests of the entries whose
    key starts with [`${userId}|`], in the order of the map. *)
Definition getVerificationRequests (userId : string) (s : State) : list nat :=
  request <$>
    (filter (λ kv, String.prefix (userId +:+ "|") kv.1 = true)
       (activeVerifications s)).*2.

(** An element of the [unknown[]] argument of [formatEmojis]: an array of
    (stringified) items, or something that is not an array. *)
Inductive EmojiItem := NotAnArray | ItemArray (items : list string).

(** The [map] callback of [formatEmojis]. *)
Definition formatEmojiItem (e : EmojiItem) : string :=
  match e with
  | ItemArray (e0 :: e1 :: _) => e0 +:+ " " +:+ e1
  | _ => ""
  end.

(** [formatEmojis(emojis)]; [None] stands for an argument that is not an
    array. *)
Definition formatEmojis (emojis : option (list EmojiItem)) : string :=
  match emojis with
  | None => ""
  | Some l =>
      String.concat " | " (filter (λ x, x ≠ "") (formatEmojiItem <$> l))
  end.

End Verification.

(** ** String helpers of the adapter *)

(** Strings hold the UTF-8 encoding of the JavaScript string.

    White space and line terminators, as [String.prototype.trim] strips
    them: U+0009 to U+000D and U+0020 (one byte), U+00A0 (two bytes),
    U+1680, U+2000 to U+200A, U+2028, U+2029, U+202F, U+205F, U+3000 and
    U+FEFF (three bytes). *)
Definition is_space (c : Ascii.ascii) : bool :=
  let n := Ascii.nat_of_ascii c in
  ((9 <=? n)%nat && (n <=? 13)%nat) || (n =? 32)%nat.

Definition is_space2 (c1 c2 : Ascii.ascii) : bool :=
  (Ascii.nat_of_ascii c1 =? 194)%nat && (Ascii.nat_of_ascii c2 =? 160)%nat.

Definition is_space3 (c1 c2 c3 : Ascii.ascii) : bool :=
  let n1 := Ascii.nat_of_ascii c1 in
  let n2 := Ascii.nat_of_ascii c2 in
  let n3 := Ascii.nat_of_ascii c3 in
  ((n1 =? 225) && (n2 =? 154) && (n3 =? 128))%nat
  || ((n1 =? 226) && (n2 =? 128)
      && (((128 <=? n3) && (n3 <=? 138)) || (n3 =? 168) || (n3 =? 169)
          || (n3 =? 175)))%nat
  || ((n1 =? 226) && (n2 =? 129) && (n3 =? 159))%nat
  || ((n1 =? 227) && (n2 =? 128) && (n3 =? 128))%nat
  || ((n1 =? 239) && (n2 =? 187) && (n3 =? 191))%nat.

Fixpoint trim_left (s : string) : string :=
  match s with
  | String c1 s1 =>
      if is_space c1 then trim_left s1
      else match s1 with
      | String c2 s2 =>
          if is_space2 c1 c2 then trim_left s2
          else match s2 with
          | String c3 s3 => if is_space3 c1 c2 c3 then trim_left s3 else s
          | EmptyString => s
          end
      | EmptyString => s
      end
  | EmptyString => EmptyString
  end.

(** The text up to the last character that is not white space: nothing
    when only white space is left. *)
Fixpoint trim_right (s : string) : string :=
  match s with
  | String c s' =>
      match trim_left s with
      | EmptyString => EmptyString
      | _ => String c (trim_right s')
      end
  | EmptyString => EmptyString
  end.

Definition trim (s : string) : string := trim_right (trim_left s).

(** [s.startsWith("/")] *)
Definition starts_with_slash (s : string) : bool :=
  match s with
  | String "/"%char _ => true
  | _ => false
  end.

(** [s.slice(1)], for a string that starts with an ASCII character. *)
Definition slice1 (s : string) : string :=
  match s with
  | String _ s' => s'
  | EmptyString => EmptyString
  end.

(** The text before the first colon, when there is a colon. *)
Fixpoint before_colon (s : string) : option string :=
  match s with
  | EmptyString => None
  | String ":"%char _ => Some EmptyString
  | String c s' => String c <$> before_colon s'
  end.

(** A JS value used as a condition: [undefined], [null] and the empty
    string are falsy. *)
Definition truthy (o : option string) : option string :=
  match o with
  | Some s => if decide (s = "") then None else Some s
  | None => None
  end.

Definition nl : string := String (Ascii.ascii_of_nat 10) EmptyString.

(** U+00A0, the no-break space. *)
Definition nbsp : string :=
  String (Ascii.ascii_of_nat 194) (String (Ascii.ascii_of_nat 160) EmptyString).

(** ** The Matrix adapter and the text message handler *)
Module Adapter.

(** The fields of an event content object the adapter reads. *)
Record Content := mkContent {
  msgtype : option string;
  body : option string;
  sender_key : option string;
  session_id : option string
}.

(** An [sdk.MatrixEvent].  Events are SDK objects: the adapter holds
    references to them and the SDK fills in the clear event (type and
    content) when it manages to decrypt.  The accessors follow the SDK:
    [getType] and [getContent] give the type and the content of the clear
    event once there is one, those of the wire event otherwise. *)
Record MatrixEvent := mkEvent {
  getId : option string;
  getWireType : string;
  getSender : option string;
  getRoomId : option string;
  getTs : Z;
  clearEvent : option (string * Content);
  wireContent : Content
}.

Definition getType (e : MatrixEvent) : string :=
  match clearEvent e with
  | Some (clearType, _) => clearType
  | None => getWireType e
  end.

Definition getClearContent (e : MatrixEvent) : option Content :=
  snd <$> clearEvent e.

Definition getContent (e : MatrixEvent) : Content :=
  default (wireContent e) (getClearContent e).

Record Room := mkRoom {
  roomId : string;
  name : string;
  joinedMembers : nat
}.

Record Client := mkClient {
  getUserId : option string;
  getDeviceId : option string;
  rooms : list Room;
  getCrypto : bool
}.

(** [client.getRoom(id)] *)
Definition getRoom (c : Client) (id : option string) : option Room :=
  match id with
  | Some id => List.find (λ r, bool_decide (roomId r = id)) (rooms c)
  | None => None
  end.

(** ["open" | "allowlist" | "pairing"] *)
Inductive DmPolicy := PolicyOpen | PolicyAllowlist | PolicyPairing.

Inductive Access := Allowed | Blocked | NeedsPairing.

Record Config := mkConfig {
  selfChatMode : bool;
  dmPolicy : DmPolicy;
  allowedUsers : list string;
  recoveryKey : option string;
  userDeviceId : option string
}.

(** [InboundMessage] as built by the handlers. *)
Record InboundMessage := mkInbound {
  channel : string;
  chatId : string;
  userId : string;
  userName : string;
  userHandle : string;
  messageId : option string;
  text : string;
  timestamp : Z;
  isGroup : bool;
  groupName : option string
}.

(** What the adapter does to the outside, in order. *)
Inductive Effect :=
| SendMessage (chatId text : string)
| OnCommand (cmd : string)
| UpsertPairingRequest (sender : string)
| OnMessage (msg : InboundMessage)
| HandleMessageEvent (event : nat) (room : string)
| HandleAudioMessage (event : nat)
| HandleImageMessage (event : nat)
| HandleReactionEvent (event : nat)
| RequestRoomKey (room session : string)
| LogError (err : string)
| DroppedPending (eventId : string)
| StoreSessionBackupPrivateKey
| CheckKeyBackupAndEnable
| RestoreKeyBackup
| RetryPendingDecryptions
| Sleep (ms : Z)
| FetchUserDeviceInfo
| DeviceVerificationStatus (device : string)
| RequestDeviceVerification (user device : string).

(** *** Effects and exceptions

    An asynchronous function yields the effects it performed and either its
    result or the error it threw (the reason its promise rejected). *)
Definition M (A : Type) : Type := list Effect * (string + A).

Definition ret {A} (a : A) : M A := ([], inr a).

Definition throw {A} (err : string) : M A := ([], inl err).

Definition tell (e : Effect) : M unit := ([e], inr tt).

Definition bind {A B} (m : M A) (k : A → M B) : M B :=
  match m with
  | (tr, inl err) => (tr, inl err)
  | (tr, inr a) => let '(tr', r) := k a in (tr ++ tr', r)
  end.

(** [try { m } catch (err) { h err }] *)
Definition try_catch {A} (m : M A) (h : string → M A) : M A :=
  match m with
  | (tr, inl err) => let '(tr', r) := h err in (tr ++ tr', r)
  | (tr, inr a) => (tr, inr a)
  end.

#[global] Instance M_ret : MRet M := @ret.
#[global] Instance M_bind : MBind M := λ A B k m, bind m k.


Definition rejected {A} (m : M A) : Prop := ∃ err, m.2 = inl err.

(** The adapter instance. *)
Record State := mkState {
  client : option Client;
  verificationHandler : bool;
  initialSyncDone : bool;
  pendingEncryptedEvents : JsMap.t nat;  (* event id ↦ event object *)
  events : nat → MatrixEvent;            (* the SDK's event objects *)
  decryptedObservers : list nat          (* event.once("Event.decrypted") *)
}.

Definition set_pending (p : JsMap.t nat) (s : State) : State :=
  mkState (client s) (verificationHandler s) (initialSyncDone s) p (events s)
    (decryptedObservers s).

Definition set_event (o : nat) (e : MatrixEvent) (s : State) : State :=
  mkState (client s) (verificationHandler s) (initialSyncDone s)
    (pendingEncryptedEvents s) (<[o := e]> (events s)) (decryptedObservers s).

Definition set_observers (f : list nat → list nat) (s : State) : State :=
  mkState (client s) (verificationHandler s) (initialSyncDone s)
    (pendingEncryptedEvents s) (events s) (f (decryptedObservers s)).

Definition set_initialSyncDone (b : bool) (s : State) : State :=
  mkState (client s) (verificationHandler s) b
    (pendingEncryptedEvents s) (events s) (decryptedObservers s).

(** The collaborators outside the core: the pairing store, the agent's
    callbacks, the transport's send, the audio, image and reaction handlers,
    and the SDK's crypto calls.  A call that can fail returns [inl err] (or
    [Some err]) for a rejection. *)
Record Env := mkEnv {
  isUserAllowed : string → list string → bool;
  upsertPairingRequest : string → option string * bool;
  onCommand : option (string → string + option string);
  sendFails : string → string → option string;
  onMessage : option (InboundMessage → option string);
  audioHandler : MatrixEvent → Room → string + option InboundMessage;
  imageHandler : MatrixEvent → Room → option string;
  (* handleReactionEvent: the messages it forwards, then its failure *)
  reactionHandler : MatrixEvent → list InboundMessage * option string;
  (* key backup *)
  decodeRecoveryKeyFails : option string;
  checkKeyBackupAndEnable : string + bool;
  restoreKeyBackup : string + Z;
  (* devices: the n-th answer of getUserDeviceInfo (the user's device ids,
     if any), the verification status of a device ([None] for null), and
     whether a verification request to a device fails *)
  getUserDeviceInfo : nat → string + option (list string);
  getDeviceVerificationStatus : string → string + option bool;
  requestDeviceVerificationFails : string → option string
}.

Section handlers.
Context (cfg : Config) (env : Env).

(** [this.sendMessage({ chatId, text })] *)
Definition sendMessage (chatId text : string) : M unit :=
  tell (SendMessage chatId text) ;;
  match sendFails env chatId text with
  | Some err => throw err
  | None => ret tt
  end.

(** [await this.onMessage(msg)], for a defined callback *)
Definition callOnMessage (msg : InboundMessage) : M unit :=
  match onMessage env with
  | Some f =>
      tell (OnMessage msg) ;;
      match f msg with
      | Some err => throw err
      | None => ret tt
      end
  | None => ret tt
  end.

(** [extractDisplayName]: the match of [/^@([^:]+):/]. *)
Definition extractDisplayName (userId : string) : string :=
  match userId with
  | String "@"%char rest =>
      match before_colon rest with
      | Some EmptyString => userId
      | Some n => n
      | None => userId
      end
  | _ => userId
  end.

(** [isDirectMessage] *)
Definition isDirectMessage (room : Room) : bool :=
  bool_decide (joinedMembers room = 2%nat).

(** [checkAccess] *)
Definition checkAccess (userId : string) : Access :=
  match dmPolicy cfg with
  | PolicyOpen => Allowed
  | policy =>
      if isUserAllowed env userId (allowedUsers cfg) then Allowed
      else match policy with
           | PolicyAllowlist => Blocked
           | _ => NeedsPairing
           end
  end.

(** [handleCommand] *)
Definition handleCommand (command : string) : M (option string) :=
  match onCommand env with
  | None => ret None
  | Some f =>
      let cmd := trim (slice1 command) in
      tell (OnCommand cmd) ;;
      match f cmd with
      | inl err => throw err
      | inr r => ret r
      end
  end.

Definition pairingMessage (code : string) : string :=
  "Hi! This bot requires pairing." +:+ nl +:+ nl +:+
  "Your code: *" +:+ code +:+ "*" +:+ nl +:+ nl +:+
  "Ask the owner to run:" +:+ nl +:+
  "`lettabot pairing approve matrix " +:+ code +:+ "`" +:+ nl +:+ nl +:+
  "This code expires in 1 hour.".

(** [handleTextMessage(ctx)] *)
Definition handleTextMessage (room : Room) (event : MatrixEvent)
    (ourUserId : string) : M (option InboundMessage) :=
  match truthy (getSender event), truthy (body (getContent event)) with
  | Some sender, Some body =>
      (* Skip our own messages *)
      if decide (sender = ourUserId) then ret None
      (* Check self-chat mode *)
      else if negb (selfChatMode cfg) && bool_decide (sender = ourUserId)
      then ret None
      else
        handled ←
          (if starts_with_slash body then
             result ← handleCommand body;
             match truthy result with
             | Some reply => sendMessage (roomId room) reply ;; ret true
             | None => ret false
             end
           else ret false);
        if handled : bool then ret None
        else match checkAccess sender with
        | Blocked =>
            sendMessage (roomId room)
              "Sorry, you're not authorized to use this bot." ;;
            ret None
        | NeedsPairing =>
            tell (UpsertPairingRequest sender) ;;
            let '(code, created) := upsertPairingRequest env sender in
            match truthy code with
            | None =>
                sendMessage (roomId room)
                  "Too many pending pairing requests. Please try again later." ;;
                ret None
            | Some code =>
                (if created : bool
                 then sendMessage (roomId room) (pairingMessage code)
                 else ret tt) ;;
                ret None
            end
        | Allowed =>
            let isDm := isDirectMessage room in
            ret (Some
              (mkInbound "matrix" (roomId room) sender
                 (extractDisplayName sender) sender (truthy (getId event))
                 body (getTs event) (negb isDm)
                 (if isDm then None else Some (name room))))
        end
  | _, _ => ret None
  end.

(** [MatrixAdapter.handleAudioMessage] *)
Definition handleAudioMessage (s : State) (o : nat) (room : Room) : M unit :=
  match client s with
  | None => ret tt
  | Some c =>
      match truthy (getUserId c) with
      | None => ret tt
      | Some _ =>
          tell (HandleAudioMessage o) ;;
          match audioHandler env (events s o) room with
          | inl err => throw err
          | inr (Some msg) => callOnMessage msg
          | inr None => ret tt
          end
      end
  end.

(** [MatrixAdapter.handleImageMessage] *)
Definition handleImageMessage (s : State) (o : nat) (room : Room) : M unit :=
  match client s with
  | None => ret tt
  | Some c =>
      match truthy (getUserId c) with
      | None => ret tt
      | Some _ =>
          tell (HandleImageMessage o) ;;
          match imageHandler env (events s o) room with
          | Some err => throw err
          | None => ret tt
          end
      end
  end.

(** [handleMessageEvent(event, room)]: the message-processing entry
    point.  [this.client!] throws when the client is gone. *)
Definition handleMessageEvent (s : State) (o : nat) (room : Room) : M unit :=
  let event := events s o in
  tell (HandleMessageEvent o (roomId room)) ;;
  let content := default (getContent event) (getClearContent event) in
  match client s with
  | None => throw "TypeError: Cannot read properties of null"
  | Some c =>
      match truthy (getUserId c) with
      | None => ret tt
      | Some ourUserId =>
          if bool_decide (msgtype content = Some "m.text")
             || bool_decide (msgtype content = Some "m.notice")
          then
            result ← handleTextMessage room event ourUserId;
            match result with
            | Some msg => callOnMessage msg
            | None => ret tt
            end
          else if bool_decide (msgtype content = Some "m.audio")
          then handleAudioMessage s o room
          else if bool_decide (msgtype content = Some "m.image")
          then handleImageMessage s o room
          else ret tt
      end
  end.

(** *** Decrypt-retry sweep *)

(** One turn of the retry loop over the snapshot: [pending] is the live
    map being refilled. *)
Definition retryOne (s : State) (c : Client)
    (acc : JsMap.t nat * list Effect) (kv : string * nat)
    : JsMap.t nat * list Effect :=
  let '(pending, tr) := acc in
  let '(eventId, o) := kv in
  let event := events s o in
  match getClearContent event with
  | Some _ =>
      match getRoom c (getRoomId event) with
      | Some room =>
          match handleMessageEvent s o room with
          | (tr', inr _) => (pending, tr ++ tr')
          | (tr', inl err) =>
              (JsMap.set eventId o pending, tr ++ tr' ++ [LogError err])
          end
      | None => (pending, tr)
      end
  | None => (JsMap.set eventId o pending, tr)
  end.

(** Lines "const eventsToRetry = new Map(...)" to the end of the first
    loop: the live map starts empty. *)
Definition retryLoop (s : State) (c : Client) : JsMap.t nat * list Effect :=
  foldl (retryOne s c) (JsMap.empty, []) (pendingEncryptedEvents s).

Definition maxAge : Z := 5 * 60 * 1000.

Definition too_old (now : Z) (s : State) (o : nat) : bool :=
  bool_decide (now - getTs (events s o) > maxAge)%Z.

(** One turn of the clean-up loop. *)
Definition cleanupOne (now : Z) (s : State)
    (acc : JsMap.t nat * list Effect) (kv : string * nat)
    : JsMap.t nat * list Effect :=
  let '(pending, tr) := acc in
  let '(eventId, o) := kv in
  if too_old now s o
  then (JsMap.delete eventId pending, tr ++ [DroppedPending eventId])
  else (pending, tr).

Definition cleanup (now : Z) (s : State) (pending : JsMap.t nat)
    : JsMap.t nat * list Effect :=
  foldl (cleanupOne now s) (pending, []) pending.

(** [retryPendingDecryptions()], with [now] the value of [Date.now()]. *)
Definition retryPendingDecryptions (now : Z) (s : State) : State * list Effect :=
  match client s with
  | None => (s, [])
  | Some c =>
      if bool_decide (JsMap.size (pendingEncryptedEvents s) = 0%nat)
      then (s, [])
      else
        let '(p1, tr1) := retryLoop s c in
        let '(p2, tr2) := cleanup now s p1 in
        (set_pending p2 s, tr1 ++ tr2)
  end.

(** *** Timeline handler *)

(** [event.getSender() === this.client?.getUserId()]: a missing sender is
    [undefined], a missing user id is [null], a missing client makes the
    right-hand side [undefined]. *)
Definition sender_is_own (s : State) (event : MatrixEvent) : bool :=
  match client s with
  | Some c =>
      match getSender event, getUserId c with
      | Some a, Some b => bool_decide (a = b)
      | _, _ => false
      end
  | None => bool_decide (getSender event = None)
  end.

(** [requestRoomKey(event)]; a failure of the SDK call is swallowed by
    the function's own [catch]. *)
Definition requestRoomKey (s : State) (event : MatrixEvent) : M unit :=
  match client s with
  | None => ret tt
  | Some _ =>
      let content := getContent event in
      match truthy (sender_key content), truthy (session_id content),
            truthy (getRoomId event) with
      | Some _, Some session, Some room => tell (RequestRoomKey room session)
      | _, _, _ => ret tt
      end
  end.

(** [handleReactionEvent(...)], an external handler that may forward
    messages to [onMessage]. *)
Definition handleReactionEvent (s : State) (o : nat) : M unit :=
  tell (HandleReactionEvent o) ;;
  let '(msgs, err) := reactionHandler env (events s o) in
  (match onMessage env with
   | Some _ => (OnMessage <$> msgs, inr tt)
   | None => ret tt
   end) ;;
  match err with
  | Some e => throw e
  | None => ret tt
  end.

(** The body of the [try] block of the timeline handler. *)
Definition dispatchEvent (now : Z) (eventType : string) (o : nat)
    (room : Room) (s : State) : State * M unit :=
  if bool_decide (eventType = "m.key.verification.request") then (s, ret tt)
  else if bool_decide (eventType = "m.room_key")
          || bool_decide (eventType = "m.forwarded_room_key") then
    let '(s', tr) := retryPendingDecryptions now s in
    (s', (RetryPendingDecryptions :: tr, inr tt))
  else if bool_decide (eventType = "m.room.message") then
    (s, handleMessageEvent s o room)
  else if bool_decide (eventType = "m.reaction") then
    (s, handleReactionEvent s o)
  else (s, ret tt).

Definition logError (err : string) : M unit := tell (LogError err).

(** The listener of [RoomEvent.Timeline]. *)
Definition timelineHandler (now : Z) (o : nat) (room : option Room)
    (toStartOfTimeline : bool) (s : State) : State * M unit :=
  let event := events s o in
  let eventType := getType event in
  if bool_decide (eventType ≠ "m.room.encrypted")
     && (toStartOfTimeline || negb (initialSyncDone s))
  then (s, ret tt)
  else if sender_is_own s event then (s, ret tt)
  else match room with
  | None => (s, ret tt)
  | Some room =>
      let dispatch eventType :=
        let '(s', m) := dispatchEvent now eventType o room s in
        (s', try_catch m logError) in
      if bool_decide (eventType = "m.room.encrypted") then
        match getClearContent event with
        | Some _ => dispatch "m.room.message"
        | None =>
            (set_observers (λ l, l ++ [o]) s,
             try_catch (requestRoomKey s event) logError)
        end
      else dispatch eventType
  end.

(** The one-shot listener of ["Event.decrypted"] registered by the
    timeline handler. *)
Definition decryptedObserver (o : nat) (s : State) : M unit :=
  let decryptedEvent := events s o in
  match getClearContent decryptedEvent with
  | Some _ =>
      match client s ≫= (λ c, getRoom c (getRoomId decryptedEvent)) with
      | Some decryptedRoom => handleMessageEvent s o decryptedRoom
      | None => ret tt
      end
  | None => ret tt
  end.

(** *** Key-backup restore *)

(** [restoreKeysFromBackup()]: every failure is caught inside, so the
    function yields its effects only.  A failure of
    [storeSessionBackupPrivateKey] is swallowed by an empty [catch]. *)
Definition restoreKeysFromBackup (now : Z) (s : State) : State * list Effect :=
  match client s, truthy (recoveryKey cfg) with
  | Some c, Some _ =>
      if negb (getCrypto c) then (s, [])
      else match decodeRecoveryKeyFails env with
      | Some err => (s, [LogError err])
      | None =>
          let '(s', tr) :=
            match checkKeyBackupAndEnable env with
            | inl err => (s, [CheckKeyBackupAndEnable; LogError err])
            | inr false => (s, [CheckKeyBackupAndEnable])
            | inr true =>
                match restoreKeyBackup env with
                | inl err =>
                    (s, [CheckKeyBackupAndEnable; RestoreKeyBackup; LogError err])
                | inr imported =>
                    if bool_decide (imported > 0)%Z then
                      let '(s', tr) := retryPendingDecryptions now s in
                      (s', [CheckKeyBackupAndEnable; RestoreKeyBackup;
                            RetryPendingDecryptions] ++ tr)
                    else (s, [CheckKeyBackupAndEnable; RestoreKeyBackup])
                end
            end in
          (s', [StoreSessionBackupPrivateKey] ++ tr ++ [Sleep 2000])
      end
  | _, _ => (s, [])
  end.

(** *** Proactive verification *)

Definition maxRetries : nat := 5.

(** The [while (retryCount < maxRetries)] loop: the device list, or
    [None] when every attempt found no device. *)
Fixpoint fetchDeviceList (attemptsLeft retryCount : nat)
    : M (option (list string)) :=
  match attemptsLeft with
  | O => ret None
  | S attemptsLeft =>
      tell FetchUserDeviceInfo ;;
      match getUserDeviceInfo env retryCount with
      | inl err => throw err
      | inr (Some (d :: ds)) => ret (Some (d :: ds))
      | inr _ =>
          tell (Sleep 3000) ;; fetchDeviceList attemptsLeft (S retryCount)
      end
  end.

(** [this.requestDeviceVerification(userId, deviceId)] *)
Definition requestDeviceVerification (userId deviceId : string) : M unit :=
  tell (RequestDeviceVerification userId deviceId) ;;
  match requestDeviceVerificationFails env deviceId with
  | Some err => throw err
  | None => ret tt
  end.

(** One turn of the loop over the user's devices. *)
Definition verifyDevice (userId : string) (ownDeviceId : option string)
    (deviceId : string) : M unit :=
  if bool_decide (Some deviceId = ownDeviceId) then ret tt
  else
    tell (DeviceVerificationStatus deviceId) ;;
    match getDeviceVerificationStatus env deviceId with
    | inl err => throw err
    | inr (Some true) => ret tt
    | inr _ => try_catch (requestDeviceVerification userId deviceId) logError
    end.

Fixpoint verifyDevices (userId : string) (ownDeviceId : option string)
    (devices : list string) : M unit :=
  match devices with
  | [] => ret tt
  | d :: devices =>
      verifyDevice userId ownDeviceId d ;;
      verifyDevices userId ownDeviceId devices
  end.

(** The configured [userDeviceId], trimmed, when it is not blank. *)
Definition configuredDevice : option string :=
  truthy (userDeviceId cfg) ≫= (λ d, truthy (Some (trim d))).

(** [initiateProactiveVerification], from the discovery loop to the end of
    the outer [try]. *)
Definition discoverAndVerify (userId : string) (ownDeviceId : option string)
    : M unit :=
  userDevices ← fetchDeviceList maxRetries 0;
  match userDevices with
  | None => ret tt
  | Some devices => verifyDevices userId ownDeviceId devices
  end.

(** [initiateProactiveVerification()] *)
Definition initiateProactiveVerification (s : State) : M unit :=
  match client s with
  | None => ret tt
  | Some c =>
      if negb (verificationHandler s) || negb (getCrypto c) then ret tt
      else match truthy (getUserId c) with
      | None => ret tt
      | Some userId =>
          let ownDeviceId := getDeviceId c in
          try_catch
            (done ←
               match configuredDevice with
               | Some targetDeviceId =>
                   if bool_decide (Some targetDeviceId = ownDeviceId)
                   then ret true
                   else
                     try_catch
                       (requestDeviceVerification userId targetDeviceId ;;
                        ret true)
                       (λ err, logError err ;; ret false)
               | None => ret false
               end;
             if done : bool then ret tt
             else discoverAndVerify userId ownDeviceId)
            logError
      end
  end.

(** *** The adapter as a reactive system

    Inputs: the SDK creates or rewrites an event object; the first sync
    completes; a timeline event is delivered; the SDK decrypts an event
    late (it stores the clear content and emits "Event.decrypted"); the
    crypto layer reports updated room keys; the post-sync setup restores
    the key backup.  A run records the effects and the rejections no
    handler caught. *)
Inductive Input :=
| SdkSetEvent (o : nat) (e : MatrixEvent)
| SyncPrepared
| TimelineEvent (now : Z) (o : nat) (room : option Room)
    (toStartOfTimeline : bool)
| EventDecrypted (o : nat) (clearType : string) (c : Content)
| RoomKeysUpdated (now : Z)
| RestoreKeysFromBackup (now : Z).

Record Run := mkRun {
  state : State;
  effects : list Effect;
  unhandled : list string
}.

(** A handler called by an emitter: nobody awaits the promise it
    returns, so a rejection is left unhandled. *)
Definition call_handler (r : State * M unit) (t : Run) : Run :=
  let '(s, (tr, res)) := r in
  mkRun s (effects t ++ tr)
    (unhandled t ++ match res with inl err => [err] | inr _ => [] end).

(** The event once the SDK has decrypted it. *)
Definition with_clear (clearType : string) (c : Content) (e : MatrixEvent)
    : MatrixEvent :=
  mkEvent (getId e) (getWireType e) (getSender e) (getRoomId e) (getTs e)
    (Some (clearType, c)) (wireContent e).

Definition step (i : Input) (t : Run) : Run :=
  let s := state t in
  match i with
  | SdkSetEvent o e => mkRun (set_event o e s) (effects t) (unhandled t)
  | SyncPrepared => mkRun (set_initialSyncDone true s) (effects t) (unhandled t)
  | TimelineEvent now o room toStartOfTimeline =>
      call_handler (timelineHandler now o room toStartOfTimeline s) t
  | EventDecrypted o clearType c =>
      let s1 := set_event o (with_clear clearType c (events s o)) s in
      let s2 := set_observers (filter (λ o', o' ≠ o)) s1 in
      foldl (λ t _, call_handler (state t, decryptedObserver o (state t)) t)
        (mkRun s2 (effects t) (unhandled t))
        (filter (λ o', o' = o) (decryptedObservers s))
  | RoomKeysUpdated now =>
      let '(s', tr) := retryPendingDecryptions now s in
      mkRun s' (effects t ++ RetryPendingDecryptions :: tr) (unhandled t)
  | RestoreKeysFromBackup now =>
      let '(s', tr) := restoreKeysFromBackup now s in
      mkRun s' (effects t ++ tr) (unhandled t)
  end.

Definition run (inputs : list Input) (s : State) : Run :=
  foldl (flip step) (mkRun s [] []) inputs.
End handlers.

(** The events that were handed to [handleMessageEvent]. *)
Definition dispatched (tr : list Effect) : list nat :=
  omap (λ e, match e with HandleMessageEvent o _ => Some o | _ => None end) tr.

(** The messages passed to [onMessage]. *)
Definition delivered (tr : list Effect) : list InboundMessage :=
  omap (λ e, match e with OnMessage m => Some m | _ => None end) tr.


(** The devices a verification request was sent to. *)
Definition requested (tr : list Effect) : list string :=
  omap (λ e, match e with RequestDeviceVerification _ d => Some d | _ => None end) tr.

End Adapter.

(** ** Asynchronous functions over any effect type

    The adapter's [M], for the handlers that have effects of their own. *)
Module Async.
Section defs.
Context {E : Type}.

Definition T (A : Type) : Type := list E * (string + A).

Definition ret {A} (a : A) : T A := ([], inr a).

Definition throw {A} (err : string) : T A := ([], inl err).

Definition tell (e : E) : T unit := ([e], inr tt).

Definition bind {A B} (m : T A) (k : A → T B) : T B :=
  match m with
  | (tr, inl err) => (tr, inl err)
  | (tr, inr a) => let '(tr', r) := k a in (tr ++ tr', r)
  end.

(** [try { m } catch (err) { h err }] *)
Definition try_catch {A} (m : T A) (h : string → T A) : T A :=
  match m with
  | (tr, inl err) => let '(tr', r) := h err in (tr ++ tr', r)
  | (tr, inr a) => (tr, inr a)
  end.
End defs.

#[export] Instance T_ret {E} : MRet (@T E) := @ret E.
#[export] Instance T_bind {E} : MBind (@T E) := λ A B k m, bind m k.
End Async.

(** ** src/matrix/handlers/invite.ts and the membership listener *)
Module Invite.
Import Adapter Async.

Inductive Effect :=
| JoinRoom (roomId : string)
| LogError (err : string).

Section defs.
(** [client.joinRoom(roomId)]: its failure, if it fails. *)
Context (joinRoomFails : string → option string).

(** [handleInvite] *)
Definition handleInvite (roomId sender : string) (dmPolicy : DmPolicy)
    (allowedUsers : list string) (autoAccept : bool) : Async.T unit :=
  if negb autoAccept then Async.ret tt
  else if match dmPolicy with
          | PolicyAllowlist => negb (bool_decide (sender ∈ allowedUsers))
          | _ => false
          end
  then Async.ret tt
  else
    Async.try_catch
      (Async.tell (JoinRoom roomId) ;;
       match joinRoomFails roomId with
       | Some err => Async.throw err
       | None => Async.ret tt
       end)
      (λ err, Async.tell (LogError err)).

(** [handleMembershipEvent(ctx)]: [membership] is [member.membership],
    [sender] is [event.getSender()], [roomId] is [member.roomId]. *)
Definition handleMembershipEvent (membership : string) (sender : option string)
    (roomId : string) (dmPolicy : DmPolicy) (allowedUsers : list string)
    (autoAccept : bool) : Async.T unit :=
  match truthy sender with
  | None => Async.ret tt
  | Some sender =>
      if bool_decide (membership = "invite")
      then handleInvite roomId sender dmPolicy allowedUsers autoAccept
      else Async.ret tt
  end.

(** The listener of [RoomMemberEvent.Membership] that [setupEventHandlers]
    registers; [autoJoinRooms] is the configuration flag. *)
Definition membershipListener (cfg : Config) (autoJoinRooms : bool) (s : State)
    (membership : string) (sender : option string) (roomId : string)
    : Async.T unit :=
  if negb (initialSyncDone s) then Async.ret tt
  else if autoJoinRooms then
    Async.try_catch
      (handleMembershipEvent membership sender roomId (dmPolicy cfg)
         (allowedUsers cfg) true)
      (λ err, Async.tell (LogError err))
  else Async.ret tt.
End defs.

(** The rooms joined. *)
Definition joined (tr : list Effect) : list string :=
  omap (λ e, match e with JoinRoom r => Some r | _ => None end) tr.

End Invite.

(** ** [MatrixAdapter.autoTrustDevices] *)
Module Trust.
Import Adapter Async.

Inductive Effect :=
| FetchUserDeviceInfo
| DeviceVerificationStatus (device : string)
| SetDeviceVerified (user device : string)
| LogError (err : string).

Section defs.
(** The SDK's crypto calls: the answer of [getUserDeviceInfo] (the user's
    device ids, if the user is in the answer), the verification status of a
    device ([None] for null), and the failure of [setDeviceVerified], if it
    fails. *)
Context (userDeviceInfo : string + option (list string))
        (deviceVerificationStatus : string → string + option bool)
        (setDeviceVerifiedFails : string → option string).

(** One turn of the loop over the devices. *)
Definition trustDevice (userId : string) (ownDeviceId : option string)
    (deviceId : string) : Async.T unit :=
  if bool_decide (Some deviceId = ownDeviceId) then Async.ret tt
  else
    Async.tell (DeviceVerificationStatus deviceId) ;;
    match deviceVerificationStatus deviceId with
    | inl err => Async.throw err
    | inr (Some true) => Async.ret tt
    | inr _ =>
        Async.tell (SetDeviceVerified userId deviceId) ;;
        match setDeviceVerifiedFails deviceId with
        | Some err => Async.throw err
        | None => Async.ret tt
        end
    end.

Fixpoint trustDevices (userId : string) (ownDeviceId : option string)
    (devices : list string) : Async.T unit :=
  match devices with
  | [] => Async.ret tt
  | d :: devices =>
      trustDevice userId ownDeviceId d ;;
      trustDevices userId ownDeviceId devices
  end.

(** [autoTrustDevices()] *)
Definition autoTrustDevices (s : State) : Async.T unit :=
  match client s with
  | None => Async.ret tt
  | Some c =>
      if negb (getCrypto c) then Async.ret tt
      else match truthy (getUserId c) with
      | None => Async.ret tt
      | Some userId =>
          Async.try_catch
            (Async.tell FetchUserDeviceInfo ;;
             match userDeviceInfo with
             | inl err => Async.throw err
             | inr None => Async.ret tt
             | inr (Some devices) =>
                 trustDevices userId (getDeviceId c) devices
             end)
            (λ err, Async.tell (LogError err))
      end
  end.
End defs.

(** The devices marked as verified. *)
Definition marked (tr : list Effect) : list string :=
  omap (λ e, match e with SetDeviceVerified _ d => Some d | _ => None end) tr.

End Trust.

(** ** Pending images of the adapter and the image format *)
Module Images.

(** An entry of [pendingImages]; the image data is a byte buffer. *)
Record PendingImage := mkImage {
  eventId : string;
  roomId : string;
  imageData : list Z;
  format : string;
  timestamp : Z
}.

(** The [storePendingImage] callback the adapter hands to the image
    handler; [now] is the value of [Date.now()]. *)
Definition storePendingImage (now : Z) (eventId roomId : string)
    (imageData : list Z) (format : string) (m : JsMap.t PendingImage)
    : JsMap.t PendingImage :=
  JsMap.set eventId (mkImage eventId roomId imageData format now) m.

(** The first entry, in iteration order, whose room is [chatId]. *)
Definition first_of_room (chatId : string) (m : JsMap.t PendingImage)
    : option (string * PendingImage) :=
  List.find (λ kv, bool_decide (roomId kv.2 = chatId)) m.

(** [getPendingImage(chatId)]: the result and the map afterwards. *)
Definition getPendingImage (chatId : string) (m : JsMap.t PendingImage)
    : option (list Z * string) * JsMap.t PendingImage :=
  match first_of_room chatId m with
  | Some (key, img) => (Some (imageData img, format img), JsMap.delete key m)
  | None => (None, m)
  end.

(** [data[i] === b] on a buffer: an index past the end reads
    [undefined]. *)
Definition byte_is (data : list Z) (i : nat) (b : Z) : bool :=
  bool_decide (data !! i = Some b).

(** [detectImageFormat(data)] *)
Definition detectImageFormat (data : list Z) : string :=
  if (length data <? 4)%nat then "unknown"
  else if byte_is data 0 0xff && byte_is data 1 0xd8 && byte_is data 2 0xff
  then "jpeg"
  else if byte_is data 0 0x89 && byte_is data 1 0x50 && byte_is data 2 0x4e
          && byte_is data 3 0x47
  then "png"
  else if byte_is data 0 0x47 && byte_is data 1 0x49 && byte_is data 2 0x46
          && byte_is data 3 0x38
  then "gif"
  else if byte_is data 0 0x52 && byte_is data 1 0x49 && byte_is data 2 0x46
          && byte_is data 3 0x46
  then "webp"
  else "unknown".

End Images.

(** ** Media: download, speech-to-text, the audio and image handlers *)
Module Media.
Import Adapter Async.

Inductive Effect :=
| SendTyping (roomId : string) (typing : bool)
| AddReaction (roomId eventId emoji : string)
| Fetch (url : string)
| DownloadMedia (mxcUrl : string)
| Transcribe
| SendMessage (roomId text : string)
| StorePendingImage (eventId roomId : string) (imageData : list Z)
    (format : string)
| LogError (err : string).

(** The outcome of [fetch(url)] followed by reading the body: the promise
    rejects, the response is not [ok], or the body is read. *)
Inductive FetchResult :=
| Rejects (err : string)
| NotOk (status : Z)
| Ok (data : list Z).

(** [s.slice(n)] *)
Fixpoint string_drop (n : nat) (s : string) : string :=
  match n, s with
  | S n, String _ s' => string_drop n s'
  | _, _ => s
  end.

(** [s.slice(0, i)] and [s.slice(i + 1)] for [i = s.indexOf("/")], when
    there is a slash. *)
Fixpoint split_slash (s : string) : option (string * string) :=
  match s with
  | EmptyString => None
  | String "/"%char s' => Some (EmptyString, s')
  | String c s' => prod_map (String c) id <$> split_slash s'
  end.

(** [s.includes(sub)] *)
Fixpoint includes (sub s : string) : bool :=
  String.prefix sub s ||
  match s with
  | String _ s' => includes sub s'
  | EmptyString => false
  end.

Section download.
Context (fetch : string → FetchResult).

(** The loop [for (const url of [authUrl, fallbackUrl])] and the [throw]
    after it. *)
Fixpoint tryUrls (urls : list string) (fallbackUrl : string)
    : Async.T (list Z) :=
  match urls with
  | [] => Async.throw "Failed to download media from both endpoints"
  | url :: urls =>
      Async.tell (Fetch url) ;;
      match fetch url with
      | Ok data => Async.ret data
      | NotOk _ => tryUrls urls fallbackUrl
      | Rejects err =>
          if decide (url = fallbackUrl) then Async.throw err
          else tryUrls urls fallbackUrl
      end
  end.

Definition authUrl (homeserver serverName mediaId : string) : string :=
  homeserver +:+ "/_matrix/client/v1/media/download/" +:+ serverName +:+ "/"
  +:+ mediaId.

Definition fallbackUrl (homeserver serverName mediaId : string) : string :=
  homeserver +:+ "/_matrix/media/v3/download/" +:+ serverName +:+ "/"
  +:+ mediaId.

(** [downloadMatrixMedia(client, mxcUrl)], for a client with base URL
    [homeserver]. *)
Definition downloadMatrixMedia (homeserver mxcUrl : string) : Async.T (list Z) :=
  if negb (String.prefix "mxc://" mxcUrl)
  then Async.throw ("Invalid MXC URL: " +:+ mxcUrl)
  else match split_slash (string_drop 6 mxcUrl) with
  | None => Async.throw ("Malformed MXC URL: " +:+ mxcUrl)
  | Some (serverName, mediaId) =>
      tryUrls [authUrl homeserver serverName mediaId;
               fallbackUrl homeserver serverName mediaId]
        (fallbackUrl homeserver serverName mediaId)
  end.
End download.

(** The fields of a media event's content the handlers read: [file.url]
    and [url]. *)
Record MediaContent := mkMedia {
  file_url : option string;
  url : option string
}.

(** The collaborators of the handlers: the typing notification, the
    reaction, [downloadAndDecryptMedia], the speech-to-text service (its
    failure, or the [text] field of its answer), the transport's send, the
    room's member names and canonical alias. *)
Record MediaEnv := mkMediaEnv {
  typingFails : string → bool → option string;
  reactionFails : string → option string;
  download : string → string + list Z;
  stt : list Z → string + option string;
  sendFails : string → string → option string;
  memberName : string → option string;
  canonicalAlias : option string
}.

(** The message of the audio handler: an [InboundMessage] with the voice
    flag. *)
Record VoiceMessage := mkVoice {
  message : InboundMessage;
  isVoiceInput : bool
}.

Definition dquote : string := String (Ascii.ascii_of_nat 34) EmptyString.

(** The white heavy check mark, U+2705, in UTF-8. *)
Definition check_mark : string :=
  String (Ascii.ascii_of_nat 226)
    (String (Ascii.ascii_of_nat 156) (String (Ascii.ascii_of_nat 133) EmptyString)).

(** [isTranscriptionFailed] *)
Definition isTranscriptionFailed (text : string) : bool :=
  String.prefix "[" text && includes "Error" text.

(** [extractAudioInfo(content).mxcUrl] and [extractImageInfo(content).mxcUrl] *)
Definition mxcUrl (content : MediaContent) : option string :=
  match truthy (file_url content) with
  | Some u => Some u
  | None => truthy (url content)
  end.

Definition maxImageBytes : Z := 10 * 1024 * 1024.

Section handlers.
Context (env : MediaEnv).

(** [transcribeAudio(audioData, config)]: it catches every failure. *)
Definition transcribeAudio (audioData : list Z) : string :=
  match stt env audioData with
  | inl err => "[STT Error] " +:+ err
  | inr text => js_or (trim <$> text) ""
  end.

Definition sendTyping (roomId : string) (typing : bool) : Async.T unit :=
  Async.tell (SendTyping roomId typing) ;;
  match typingFails env roomId typing with
  | Some err => Async.throw err
  | None => Async.ret tt
  end.

Definition sendMessage (roomId text : string) : Async.T unit :=
  Async.tell (SendMessage roomId text) ;;
  match sendFails env roomId text with
  | Some err => Async.throw err
  | None => Async.ret tt
  end.

Definition addReaction (roomId eventId emoji : string) : Async.T unit :=
  Async.tell (AddReaction roomId eventId emoji) ;;
  match reactionFails env eventId with
  | Some err => Async.throw err
  | None => Async.ret tt
  end.

Definition downloadAndDecryptMedia (mxc : string) : Async.T (list Z) :=
  Async.tell (DownloadMedia mxc) ;;
  match download env mxc with
  | inl err => Async.throw err
  | inr data => Async.ret data
  end.

(** The message the audio handler builds. *)
Definition voiceMessage (room : Room) (event : MatrixEvent) (sender : string)
    (transcription : string) : VoiceMessage :=
  let isDm := isDirectMessage room in
  let roomName :=
    js_or (Some (name room)) (js_or (canonicalAlias env) (roomId room)) in
  mkVoice
    (mkInbound "matrix" (roomId room) sender
       (js_or (memberName env sender) sender) sender (truthy (getId event))
       ("[VOICE] " +:+ dquote +:+ transcription +:+ dquote) (getTs event)
       (negb isDm) (if isDm then None else Some roomName))
    true.

(** [handleAudioMessage(ctx)] of [handlers/audio.ts] *)
Definition handleAudioMessage (room : Room) (event : MatrixEvent)
    (content : MediaContent) (transcriptionEnabled : bool)
    : Async.T (option VoiceMessage) :=
  match truthy (getSender event), truthy (Some (roomId room)) with
  | Some sender, Some roomId =>
      sendTyping roomId true ;;
      Async.try_catch
        (match mxcUrl content with
         | None => Async.throw "No audio URL found"
         | Some mxc =>
             audioData ← downloadAndDecryptMedia mxc;
             if negb transcriptionEnabled then
               sendTyping roomId false ;;
               sendMessage roomId "Audio received (transcription disabled)" ;;
               Async.ret None
             else
               Async.tell Transcribe ;;
               let transcription := transcribeAudio audioData in
               if bool_decide (transcription = "")
                  || isTranscriptionFailed transcription
               then
                 sendTyping roomId false ;;
                 sendMessage roomId "No speech detected in audio" ;;
                 Async.ret None
               else
                 sendTyping roomId false ;;
                 Async.ret (Some (voiceMessage room event sender transcription))
         end)
        (λ err,
           Async.tell (LogError err) ;;
           sendTyping roomId false ;;
           sendMessage roomId ("Failed to process audio: " +:+ err) ;;
           Async.ret None)
  | _, _ => Async.ret None
  end.

(** [handleImageMessage(ctx)] of the image handler *)
Definition handleImageMessage (room : Room) (event : MatrixEvent)
    (content : MediaContent) : Async.T (option InboundMessage) :=
  match truthy (getSender event), truthy (Some (roomId room)),
        truthy (getId event) with
  | Some sender, Some roomId, Some eventId =>
      sendTyping roomId true ;;
      Async.try_catch
        (match mxcUrl content with
         | None => Async.throw "No image URL found"
         | Some mxc =>
             addReaction roomId eventId check_mark ;;
             imageData ← downloadAndDecryptMedia mxc;
             let format := Images.detectImageFormat imageData in
             if (maxImageBytes <? Z.of_nat (length imageData))%Z
             then Async.throw "Image too large (max 10MB)"
             else
               sendTyping roomId false ;;
               Async.tell (StorePendingImage eventId roomId imageData format) ;;
               Async.ret None
         end)
        (λ err,
           Async.tell (LogError err) ;;
           sendTyping roomId false ;;
           sendMessage roomId ("Failed to process image: " +:+ err) ;;
           Async.ret None)
  | _, _, _ => Async.ret None
  end.
End handlers.

(** The typing notifications sent, in order. *)
Definition typings (tr : list Effect) : list bool :=
  omap (λ e, match e with SendTyping _ b => Some b | _ => None end) tr.

(** The images stored as pending. *)
Definition stored (tr : list Effect) : list (list Z * string) :=
  omap (λ e, match e with
             | StorePendingImage _ _ data format => Some (data, format)
             | _ => None
             end) tr.

(** The URLs fetched, in order. *)
Definition fetched (tr : list Effect) : list string :=
  omap (λ e, match e with Fetch u => Some u | _ => None end) tr.

End Media.

(** ** src/matrix/queue.ts *)
Module Queue.
Section defs.
Context {Item : Type}.

(** What the queue does to the outside: the log lines of [enqueue], the
    call of the processor, the error it logs. *)
Inductive Effect :=
| Enqueued (item : Item)
| Dropped (item : Item)
| Process (processor : nat) (item : Item)
| LogError (err : string).

Record State := mkState {
  queue : list Item;
  maxSize : Z;
  processor : option nat;
  intervalId : bool;          (* the interval timer exists *)
  processing : bool;
  log : list Effect
}.

(** [new MessageQueue({ maxSize })] *)
Definition init (maxSize : Z) : State := mkState [] maxSize None false false [].

(** [enqueue(item)]: the value returned and the state afterwards. *)
Definition enqueue (item : Item) (s : State) : bool * State :=
  if (maxSize s <=? Z.of_nat (length (queue s)))%Z
  then (false,
        mkState (queue s) (maxSize s) (processor s) (intervalId s)
          (processing s) (log s ++ [Dropped item]))
  else (true,
        mkState (queue s ++ [item]) (maxSize s) (processor s) (intervalId s)
          (processing s) (log s ++ [Enqueued item])).

(** [startProcessing(processor)] *)
Definition startProcessing (p : nat) (s : State) : State :=
  if intervalId s then s
  else mkState (queue s) (maxSize s) (Some p) true (processing s) (log s).

(** [stopProcessing()] *)
Definition stopProcessing (s : State) : State :=
  mkState (queue s) (maxSize s) None false (processing s) (log s).

(** [processNext()] up to [await this.processor(item)]. *)
Definition processNext (s : State) : State :=
  match processing s, queue s, processor s with
  | false, item :: rest, Some p =>
      mkState rest (maxSize s) (processor s) (intervalId s) true
        (log s ++ [Process p item])
  | _, _, _ => s
  end.

(** [processNext()] after the processor's promise settled. *)
Definition processNext_settled (err : option string) (s : State) : State :=
  mkState (queue s) (maxSize s) (processor s) (intervalId s) false
    (log s ++ match err with Some e => [LogError e] | None => [] end).

(** [clear()] *)
Definition clear (s : State) : State :=
  mkState [] (maxSize s) (processor s) (intervalId s) (processing s) (log s).

Definition getSize (s : State) : nat := length (queue s).

Definition isFull (s : State) : bool :=
  (maxSize s <=? Z.of_nat (length (queue s)))%Z.

Definition isEmpty (s : State) : bool := bool_decide (length (queue s) = 0%nat).

(** The callers and the environment: the interval timer fires only while
    it exists, and the processor's promise settles only while
    [processNext] awaits it. *)
Inductive Input :=
| Enqueue (item : Item)
| StartProcessing (p : nat)
| StopProcessing
| IntervalFires
| ProcessorSettled (err : option string)
| Clear.

Definition step (i : Input) (s : State) : State :=
  match i with
  | Enqueue item => (enqueue item s).2
  | StartProcessing p => startProcessing p s
  | StopProcessing => stopProcessing s
  | IntervalFires => if intervalId s then processNext s else s
  | ProcessorSettled err => if processing s then processNext_settled err s else s
  | Clear => clear s
  end.

Definition run (inputs : list Input) (s : State) : State :=
  foldl (flip step) s inputs.

(** The items accepted, and the items handed to the processor, in order. *)
Definition enqueued (l : list Effect) : list Item :=
  omap (λ e, match e with Enqueued item => Some item | _ => None end) l.

Definition processed (l : list Effect) : list Item :=
  omap (λ e, match e with Process _ item => Some item | _ => None end) l.

Definition is_clear (i : Input) : Prop :=
  match i with
  | Clear => True
  | _ => False
  end.

(** The settlements among the inputs. *)
Definition settlements (inputs : list Input) : nat :=
  length (omap (λ i, match i with ProcessorSettled _ => Some tt | _ => None end)
            inputs).

(** What ties the log to the queue after [n] settlements: the processed
    items and the queued ones make up the accepted ones, and one more call
    than settlements was made exactly while a call is in flight. *)
Definition queue_inv (n : nat) (s : State) : Prop :=
  processed (log s) ++ queue s = enqueued (log s) ∧
  (length (processed (log s)) = n + (if processing s then 1 else 0))%nat.
End defs.
Arguments Effect : clear implicits.
Arguments State : clear implicits.
Arguments Input : clear implicits.
End Queue.

(** ** The session manager ([MatrixSessionManager]) *)
Module Session.

(** [interface MatrixSession] *)
Record MatrixSession := mkSession {
  userId : string;
  deviceId : string;
  accessToken : string;
  homeserver : string;
  timestamp : string
}.

(** The files the manager touches, all in the directory of the session
    file: the session file, [`${sessionFile}.tmp`] and
    [`${baseName}.backup.${i}`]. *)
Inductive Path :=
| SessionFile
| TempFile
| Backup (i : Z).

#[global] Instance Path_eq_dec : EqDecision Path.
Proof. solve_decision. Defined.

(** What a file holds: the JSON text of a session, or something
    [JSON.parse] does not turn into one. *)
Inductive Content :=
| Json (session : MatrixSession)
| Garbage.

(** A file system that does not fail. *)
Abbreviation FS := (Path → option Content) (only parsing).

Definition no_files : FS := λ _, None.

Definition existsSync (p : Path) (fs : FS) : bool := bool_decide (is_Some (fs p)).

Definition unlinkSync (p : Path) (fs : FS) : FS := <[p := None]> fs.

Definition writeFileSync (p : Path) (c : Content) (fs : FS) : FS :=
  <[p := Some c]> fs.

(** [renameSync(a, b)] for an existing [a]: [b] is replaced. *)
Definition renameSync (a b : Path) (fs : FS) : FS :=
  <[a := None]> (<[b := fs a]> fs).

Section manager.
(** [this.backupCount] *)
Context (backupCount : Z).

(** [loadSession()] *)
Definition loadSession (fs : FS) : option MatrixSession :=
  match fs SessionFile with
  | Some (Json session) =>
      if bool_decide (userId session = "") || bool_decide (accessToken session = "")
      then None
      else Some session
  | _ => None
  end.

(** The loop [for (let i = this.backupCount - 1; i >= 1; i--)], with [n]
    turns left: it handles [i = n] first. *)
Fixpoint shiftBackups (n : nat) (fs : FS) : FS :=
  match n with
  | O => fs
  | S m =>
      let i := Z.of_nat n in
      shiftBackups m
        (if existsSync (Backup i) fs
         then renameSync (Backup i) (Backup (i + 1)) fs
         else fs)
  end.

(** [rotateBackups()] *)
Definition rotateBackups (fs : FS) : FS :=
  let fs :=
    if existsSync (Backup backupCount) fs
    then unlinkSync (Backup backupCount) fs
    else fs in
  let fs := shiftBackups (Z.to_nat (backupCount - 1)) fs in
  renameSync SessionFile (Backup 1) fs.

(** [saveSession(session)] *)
Definition saveSession (session : MatrixSession) (fs : FS) : FS :=
  let fs := if existsSync SessionFile fs then rotateBackups fs else fs in
  renameSync TempFile SessionFile (writeFileSync TempFile (Json session) fs).

(** [restoreFromBackup()] *)
Definition restoreFromBackup (fs : FS) : option MatrixSession :=
  match fs (Backup 1) with
  | Some (Json session) => Some session
  | _ => None
  end.

(** The loop [for (let i = 1; i <= this.backupCount; i++)] of
    [clearSession], with [n] turns left, the next one for [i]. *)
Fixpoint clearBackups (n : nat) (i : Z) (fs : FS) : FS :=
  match n with
  | O => fs
  | S m =>
      clearBackups m (i + 1)
        (if existsSync (Backup i) fs then unlinkSync (Backup i) fs else fs)
  end.

(** [clearSession()] *)
Definition clearSession (fs : FS) : FS :=
  let fs :=
    if existsSync SessionFile fs then unlinkSync SessionFile fs else fs in
  clearBackups (Z.to_nat backupCount) 1 fs.

(** [hasSession()] *)
Definition hasSession (fs : FS) : bool := existsSync SessionFile fs.

(** The calls that change the files. *)
Inductive Input :=
| SaveSession (session : MatrixSession)
| ClearSession.

Definition step (i : Input) (fs : FS) : FS :=
  match i with
  | SaveSession session => saveSession session fs
  | ClearSession => clearSession fs
  end.

Definition run (inputs : list Input) (fs : FS) : FS := foldl (flip step) fs inputs.
End manager.

(** A session [loadSession] accepts. *)
Definition valid (session : MatrixSession) : Prop :=
  userId session ≠ "" ∧ accessToken session ≠ "".

(** The manager's files are the session file and backups 1 to
    [backupCount]. *)
Definition tidy (backupCount : Z) (fs : FS) : Prop :=
  fs TempFile = None ∧ ∀ i, fs (Backup i) ≠ None → (1 ≤ i ≤ backupCount)%Z.

End Session.

(** ** Vocabulary of the properties *)
Module VerificationSpec.
Import Verification.

(** The sessions of the active map that belong to a (peer user, peer
    device) pair. *)
Definition sessions_for (u d : string) (s : State) : list ActiveVerification :=
  filter (λ a, userId a = u ∧ deviceId a = d) (JsMap.values (activeVerifications s)).

(** A session is active while its request is in a non-terminal phase. *)
Definition non_terminal (s : State) (a : ActiveVerification) : Prop :=
  is_terminal (phase (requests s (request a))) = false.

#[global] Instance non_terminal_dec s a : Decision (non_terminal s a).
Proof. unfold non_terminal. apply _. Defined.

(** The map is keyed by the pair of each entry, one entry per key. *)
Definition wf_map (m : JsMap.t ActiveVerification) : Prop :=
  NoDup (JsMap.keys m) ∧
  ∀ k a, (k, a) ∈ m → k = session_key (userId a) (deviceId a).

Definition wf (s : State) : Prop := wf_map (activeVerifications s).

(** The key under which [handleVerificationRequest] files request [r]. *)
Definition request_key (s : State) (r : nat) : string :=
  session_key (otherUserId (requests s r))
    (js_or (otherDeviceId (requests s r)) "unknown").




(** The calls of [request.startVerification] in a log. *)
Definition is_start (e : Effect) : bool :=
  match e with CallStartVerification _ => true | _ => false end.

Definition sas_initiations (l : list (Z * Effect)) : list (Z * Effect) :=
  filter (λ te, is_start te.2) l.

(** The auto-confirm property as the specification words it: the confirm of
    a session (the session whose SAS callbacks belong to verifier [v]) is
    called at most once, and never earlier than 5 s after that session's
    SAS values were surfaced. *)
Definition auto_confirm_once_after_delay (l : list (Z * Effect)) : Prop :=
  ∀ key v,
    (length (filter (λ te, te.2 = CallConfirm key v) l) ≤ 1)%nat ∧
    ∀ t t' es,
      (t, CallConfirm key v) ∈ l → (t', OnShowSas key v es) ∈ l →
      (t' + 5000 ≤ t)%Z.



End VerificationSpec.

(** ** Scenarios *)
Module Scenarios.
Import Verification.

Definition alice (p : VerificationPhase) (v : option nat) : VerificationRequest :=
  mkRequest "@alice:example.org" (Some "D1") p v None.

Definition alice_key : string := "@alice:example.org|D1".

(** A request is accepted while still in phase Requested and is cancelled
    by the peer before the accept resolves (no listener is registered yet),
    so its entry stays behind in a terminal phase; then the peer sends a
    new request for the same device. *)
Definition stale_then_new : list Input :=
  [ SdkSetRequest 1 (alice Requested None) false;
    VerificationRequestReceived 1;
    SdkSetRequest 1 (alice Cancelled None) true;
    SdkSetRequest 2 (alice Requested None) false ].

(** The accept resolves before the request is Ready.  The change event
    reports Ready 900 ms later; the 1000 ms poll then still finds the
    request in phase Ready.  Each of the two runs of startSASVerification
    fetches the device keys, pauses 500 ms and finds no verifier yet. *)
Definition ready_seen_twice : list Input :=
  [ SdkSetRequest 0 (alice Requested None) false;
    VerificationRequestReceived 0;
    AcceptSettled 0 alice_key None;
    Advance 900;
    SdkSetRequest 0 (alice Ready None) true;
    Advance 50;
    DeviceInfoSettled 0 alice_key None;
    Advance 50;
    TimerFires 1000 (ReadyPoll 0 alice_key);
    Advance 50;
    DeviceInfoSettled 0 alice_key None;
    Advance 400;
    TimerFires 1450 (SettleDelay 0 alice_key);
    Advance 100;
    TimerFires 1550 (SettleDelay 0 alice_key) ].

(** The same race with the poll first: the poll finds Ready at 1000 ms and
    the change event arrives afterwards. *)
Definition ready_poll_first : list Input :=
  [ SdkSetRequest 0 (alice Requested None) false;
    VerificationRequestReceived 0;
    AcceptSettled 0 alice_key None;
    SdkSetRequest 0 (alice Ready None) false;
    Advance 1000;
    TimerFires 1000 (ReadyPoll 0 alice_key);
    SdkSetRequest 0 (alice Ready None) true;
    DeviceInfoSettled 0 alice_key None;
    Advance 500;
    TimerFires 1500 (SettleDelay 0 alice_key) ].

(** A verification shows its SAS and is cancelled one second later; the
    peer starts a new verification with the same device, whose SAS is shown
    at 3000 ms, before the first session's auto-confirm timer is due. *)
Definition cancel_and_retry : list Input :=
  [ SdkSetRequest 1 (alice Started (Some 11%nat)) false;
    VerificationRequestReceived 1;
    ShowSas 11 true (Some [("D", "Dog")]);
    Advance 1000;
    VerifierCancel 11 None;
    Advance 1000;
    SdkSetRequest 2 (alice Started (Some 12%nat)) false;
    VerificationRequestReceived 2;
    Advance 1000;
    ShowSas 12 true (Some [("C", "Cat")]);
    Advance 2000;
    TimerFires 5000 (AutoConfirm alice_key);
    Advance 3000;
    TimerFires 8000 (AutoConfirm alice_key) ].


End Scenarios.

Module AdapterSpec.
Import Adapter.

(** An asynchronous function that hands nothing to message processing. *)
Definition quiet {A} (m : M A) : Prop := dispatched m.1 = [].

(** The event objects the pending map refers to. *)
Definition refs (s : State) : list nat := JsMap.values (pendingEncryptedEvents s).

(** Event [o] is not referred to by the pending map and has not been
    handed to message processing. *)
Definition untouched (o : nat) (t : Run) : Prop :=
  (o ∉ refs (state t)) ∧ (o ∉ dispatched (effects t)).

(** The keys of the entries older than the retention window. *)
Definition drops (now : Z) (s : State) (l : JsMap.t nat) : list string :=
  (filter (λ kv, too_old now s kv.2) l).*1.

(** Inputs that hand event [o] to processing outside the retry sweep: a
    (re-)delivery of [o] on the timeline, and the firing of the one-shot
    "Event.decrypted" observer of [o]. *)
Definition delivers (o : nat) (i : Input) : Prop :=
  match i with
  | TimelineEvent _ o' _ _ => o' = o
  | EventDecrypted o' _ _ => o' = o
  | _ => False
  end.







End AdapterSpec.

(** ** Scenarios of the adapter *)
Module AdapterScenarios.
Import Adapter.

Definition room1 : Room := mkRoom "!room:example.org" "Lounge" 2.

Definition bot : Client :=
  mkClient (Some "@bot:example.org") (Some "BOTDEVICE") [room1] true.

Definition cfg0 : Config :=
  mkConfig true PolicyOpen [] (Some "EsTc 5rr1 4Jhp") None.

(** Collaborators that never fail; [onMessage] is defined. *)
Definition env0 : Env :=
  mkEnv (λ _ _, true) (λ _, (None, false)) None (λ _ _, None)
    (Some (λ _, None)) (λ _ _, inr None) (λ _ _, None) (λ _, ([], None))
    None (inr true) (inr 12%Z) (λ _, inr None) (λ _, inr None) (λ _, None).

(** The agent's [onMessage] callback rejects. *)
Definition env_agent_down : Env :=
  mkEnv (λ _ _, true) (λ _, (None, false)) None (λ _ _, None)
    (Some (λ _, Some "agent unavailable")) (λ _ _, inr None) (λ _ _, None)
    (λ _, ([], None))
    None (inr true) (inr 12%Z) (λ _, inr None) (λ _, inr None) (λ _, None).

Definition envelope : Content := mkContent None None (Some "curve") (Some "sess1").

Definition hello : Content := mkContent (Some "m.text") (Some "hello") None None.

(** An encrypted event from Alice, not yet decrypted, sent at time [ts]. *)
Definition encrypted (id : string) (room : string) (ts : Z) : MatrixEvent :=
  mkEvent (Some id) "m.room.encrypted" (Some "@alice:example.org") (Some room)
    ts None envelope.

Definition blank : MatrixEvent :=
  mkEvent None "" None None 0 None (mkContent None None None None).

Definition start : State := mkState (Some bot) true true JsMap.empty (λ _, blank) [].








(** The device list is empty on attempts 1 to 4 and holds two devices and
    the bot's own on attempt 5. *)
Definition env_fifth_attempt : Env :=
  mkEnv (λ _ _, true) (λ _, (None, false)) None (λ _ _, None)
    (Some (λ _, None)) (λ _ _, inr None) (λ _ _, None) (λ _, ([], None))
    None (inr true) (inr 12%Z)
    (λ n, if decide (n = 4%nat) then inr (Some ["PHONE"; "BOTDEVICE"; "LAPTOP"])
          else inr (Some []))
    (λ _, inr (Some false)) (λ _, None).


(** Alice's encrypted message arrives before its key; the key arrives
    later, the SDK decrypts the event and emits "Event.decrypted". *)
Definition key_after_message : list Input :=
  [ SdkSetEvent 1 (encrypted "$E1" "!room:example.org" 0);
    TimelineEvent 1000 1 (Some room1) false;
    EventDecrypted 1 "m.room.message" hello ].

(** The same message, already decrypted when it reaches the timeline. *)
Definition key_before_message : list Input :=
  [ SdkSetEvent 1
      (with_clear "m.room.message" hello
         (encrypted "$E1" "!room:example.org" 0));
    TimelineEvent 1000 1 (Some room1) false ].

End AdapterScenarios.

(** ** Vocabulary of the further properties *)
Module VerificationExtraSpec.
Import Verification.

(** The session keys of the phase listeners that [attachVerifierListeners]
    registered on request [r], one per registration. *)
Definition phase_listener_keys (r : nat) (s : State) : list string :=
  omap (λ rl : nat * ChangeListener,
          match rl.2 with
          | OnPhaseChange key => if decide (rl.1 = r) then Some key else None
          | _ => None
          end) (changeListeners s).

(** The session keys of the cancel listeners registered on verifier [v]. *)
Definition cancel_listener_keys (v : nat) (s : State) : list string :=
  omap (λ vk : nat * string, if decide (vk.1 = v) then Some vk.2 else None)
    (cancelListeners s).

(** What the phase listener reports for a terminal phase. *)
Definition terminal_report (req : VerificationRequest) : Effect :=
  match phase req with
  | Done => OnComplete
  | _ => OnCancel (js_or (cancellationCode req) "Unknown")
  end.

(** An emoji pair as an element of the argument of [formatEmojis]. *)
Definition pair_item (e : string * string) : EmojiItem := ItemArray [e.1; e.2].

(** An element [formatEmojis] skips: not an array, or fewer than two
    items. *)
Definition malformed (e : EmojiItem) : Prop :=
  match e with
  | ItemArray (_ :: _ :: _) => False
  | _ => True
  end.

End VerificationExtraSpec.

Module AdapterExtraSpec.
Import Adapter.

(** Every effect of an asynchronous function satisfies [P]. *)
Definition only (P : Effect → Prop) {A} (m : M A) : Prop := Forall P m.1.

Definition not_delivery (e : Effect) : Prop :=
  match e with
  | OnMessage _ => False
  | _ => True
  end.

(** The reply of the command callback to a slash command, when there is a
    callback and it gives a non-empty reply. *)
Definition command_reply (env : Env) (body : string) : option string :=
  match onCommand env with
  | Some f =>
      match f (trim (slice1 body)) with
      | inr r => truthy r
      | inl _ => None
      end
  | None => None
  end.

(** [s] holds the character [c]. *)
Fixpoint contains_char (c : Ascii.ascii) (s : string) : bool :=
  match s with
  | EmptyString => false
  | String c' s' => bool_decide (c' = c) || contains_char c s'
  end.

(** The number of "Event.decrypted" observers registered on event [o]. *)
Definition registrations (o : nat) (s : State) : nat :=
  length (filter (λ o', o' = o) (decryptedObservers s)).

(** The room the observer of [o] looks up. *)
Definition observer_room (s : State) (o : nat) : option Room :=
  client s ≫= (λ c, getRoom c (getRoomId (events s o))).

Definition is_decrypted_input (i : Input) : Prop :=
  match i with
  | EventDecrypted _ _ _ => True
  | _ => False
  end.

#[global] Instance delivers_dec o i : Decision (AdapterSpec.delivers o i).
Proof. destruct i; simpl; apply _. Defined.

(** A verification request, if the effect is one, does not go to device
    [own]. *)
Definition not_own_request (own : option string) (e : Effect) : Prop :=
  match e with
  | RequestDeviceVerification _ d => Some d ≠ own
  | _ => True
  end.

Definition not_fetch (e : Effect) : Prop :=
  match e with
  | FetchUserDeviceInfo => False
  | _ => True
  end.

(** The number of [getUserDeviceInfo] calls. *)
Definition fetches (tr : list Effect) : nat :=
  length (omap (λ e, match e with FetchUserDeviceInfo => Some tt | _ => None end) tr).

End AdapterExtraSpec.

Module VerificationFetchSpec.
Import Verification.

(** The device keys of some user were fetched at least 500 ms before
    [bound]. *)
Definition fetched_before (s : State) (bound : Z) : Prop :=
  ∃ t u, (t, CallGetUserDeviceInfo u) ∈ log s ∧ (t + 500 ≤ bound)%Z.

(** The SDK's request objects name the other user. *)
Definition named_request (i : Input) : Prop :=
  match i with
  | SdkSetRequest _ req _ => otherUserId req ≠ ""
  | _ => True
  end.

(** What ties the SAS starts of a state to the device-key fetches: the
    client has crypto, ready requests name their user, nothing in the log
    is stamped later than now, a pending fetch is in the log, a pending
    settle pause and a SAS start come at least 500 ms after a fetch. *)
Definition fetch_inv (s : State) : Prop :=
  crypto s = true ∧
  (∀ r, phase (requests s r) = Ready → otherUserId (requests s r) ≠ "") ∧
  (∀ t e, (t, e) ∈ log s → (t ≤ now s)%Z) ∧
  (∀ r key, AwaitDeviceInfo r key ∈ awaits s → fetched_before s (now s + 500)) ∧
  (∀ due r key, (due, SettleDelay r key) ∈ timers s → fetched_before s due) ∧
  (∀ t r, (t, CallStartVerification r) ∈ log s → fetched_before s t).

End VerificationFetchSpec.

Module HandlersSpec.
Import Adapter.

(** The membership listener accepts an invitation: the first sync is over,
    auto-join is on, the event is an invitation with a sender, and under
    the allow-list policy the sender is on the list. *)
Definition accepts (cfg : Config) (autoJoinRooms : bool) (s : State)
    (membership : string) (sender : option string) : Prop :=
  initialSyncDone s = true ∧ autoJoinRooms = true ∧ membership = "invite" ∧
  ∃ u, truthy sender = Some u ∧
       (dmPolicy cfg = PolicyAllowlist → u ∈ allowedUsers cfg).

(** The devices of a list that auto-trust marks: not the bot's own device,
    not already verified. *)
Definition to_mark (status : string → string + option bool)
    (ownDeviceId : option string) (devices : list string) : list string :=
  filter (λ d, Some d ≠ ownDeviceId ∧ status d ≠ inr (Some true)) devices.

Definition no_error (e : Trust.Effect) : Prop :=
  match e with
  | Trust.LogError _ => False
  | _ => True
  end.

Definition formats : list string := ["unknown"; "jpeg"; "png"; "gif"; "webp"].

(** The adapter's collaborators with the audio handler of
    [handlers/audio.ts] plugged in, as [MatrixAdapter.handleAudioMessage]
    does; [media] gives the media fields of an event's content. *)
Definition with_audio (env : Env) (menv : Media.MediaEnv)
    (media : MatrixEvent → Media.MediaContent) (transcriptionEnabled : bool)
    : Env :=
  mkEnv (isUserAllowed env) (upsertPairingRequest env) (onCommand env)
    (sendFails env) (onMessage env)
    (λ e room,
       match (Media.handleAudioMessage menv room e (media e)
                transcriptionEnabled).2 with
       | inl err => inl err
       | inr r => inr (Media.message <$> r)
       end)
    (imageHandler env) (reactionHandler env) (decodeRecoveryKeyFails env)
    (checkKeyBackupAndEnable env) (restoreKeyBackup env) (getUserDeviceInfo env)
    (getDeviceVerificationStatus env) (requestDeviceVerificationFails env).

(** The typing notification never fails. *)
Definition typing_ok (menv : Media.MediaEnv) : Prop :=
  ∀ r b, Media.typingFails menv r b = None.

(** The typing indicator is off at the end, if it was touched at all. *)
Definition typing_cleared (tr : list Media.Effect) : Prop :=
  Media.typings tr = [] ∨ last (Media.typings tr) = Some false.

(** The first four bytes of a RIFF container (WebP, but also WAV and
    AVI). *)
Definition riff : list Z := [0x52; 0x49; 0x46; 0x46].

End HandlersSpec.

Module AdapterExtraScenarios.
Import Adapter AdapterScenarios.

(** Only Alice is on the allow list; the pairing store knows nobody else. *)
Definition cfg_allowlist : Config :=
  mkConfig true PolicyAllowlist ["@alice:example.org"] None None.

(** The command callback answers every command; the allow list is checked
    by membership. *)
Definition env_commands : Env :=
  mkEnv (λ u l, bool_decide (u ∈ l)) (λ _, (None, false))
    (Some (λ cmd, inr (Some ("ran " +:+ cmd)))) (λ _ _, None)
    (Some (λ _, None)) (λ _ _, inr None) (λ _ _, None) (λ _, ([], None))
    None (inr true) (inr 12%Z) (λ _, inr None) (λ _, inr None) (λ _, None).

Definition text_event (sender text : string) : MatrixEvent :=
  mkEvent (Some "$T1") "m.room.message" (Some sender) (Some "!room:example.org")
    0 None (mkContent (Some "m.text") (Some text) None None).

Definition hello_from_alice : State :=
  set_event 4 (text_event "@alice:example.org" "hello") start.

End AdapterExtraScenarios.

Module HandlersScenarios.
Import Adapter AdapterScenarios AdapterExtraScenarios.

(** The pairing policy with an empty allow list. *)
Definition cfg_pairing : Config := mkConfig true PolicyPairing [] None None.

(** The bot's account has three devices; the phone is verified. *)
Definition three_devices : string + option (list string) :=
  inr (Some ["PHONE"; "BOTDEVICE"; "LAPTOP"]).

Definition phone_verified (d : string) : string + option bool :=
  if decide (d = "PHONE") then inr (Some true) else inr None.

(** Two pending images in two rooms. *)
Definition cat : Images.PendingImage :=
  Images.mkImage "$I1" "!a:example.org" [0xff; 0xd8; 0xff; 0xe0] "jpeg" 10.

Definition dog : Images.PendingImage :=
  Images.mkImage "$I2" "!b:example.org" [0x89; 0x50; 0x4e; 0x47] "png" 20.

(** The first twelve bytes of a WAV file. *)
Definition wav_header : list Z :=
  HandlersSpec.riff ++ [0x24; 0x08; 0x00; 0x00; 0x57; 0x41; 0x56; 0x45].

(** A voice message of Mallory, who is not on the allow list. *)
Definition voice_event : MatrixEvent :=
  mkEvent (Some "$V1") "m.room.message" (Some "@mallory:example.org")
    (Some "!room:example.org") 0 None
    (mkContent (Some "m.audio") (Some "voice.ogg") None None).

Definition voice_media (_ : MatrixEvent) : Media.MediaContent :=
  Media.mkMedia None (Some "mxc://example.org/abc").

Definition voice_state : State := set_event 5 voice_event start.

(** Collaborators of the media handlers that never fail; the
    speech-to-text service hears "open the door". *)
Definition menv0 : Media.MediaEnv :=
  Media.mkMediaEnv (λ _ _, None) (λ _, None) (λ _, inr [1; 2; 3])
    (λ _, inr (Some (" open the door" +:+ nbsp))) (λ _ _, None) (λ _, None)
    None.

(** The speech-to-text service is down. *)
Definition menv_stt_down : Media.MediaEnv :=
  Media.mkMediaEnv (λ _ _, None) (λ _, None) (λ _, inr [1; 2; 3])
    (λ _, inl "STT API error: 500") (λ _ _, None) (λ _, None) None.

(** An image event of Alice. *)
Definition image_event : MatrixEvent :=
  mkEvent (Some "$I1") "m.room.message" (Some "@alice:example.org")
    (Some "!room:example.org") 0 None
    (mkContent (Some "m.image") (Some "cat.jpg") None None).

Definition menv_jpeg : Media.MediaEnv :=
  Media.mkMediaEnv (λ _ _, None) (λ _, None) (λ _, inr [0xff; 0xd8; 0xff; 0xe0])
    (λ _, inr None) (λ _ _, None) (λ _, None) None.

(** The v1 endpoint answers 404, the v3 endpoint has the file. *)
Definition fetch_v3_only (url : string) : Media.FetchResult :=
  if decide (url = "https://hs/_matrix/media/v3/download/example.org/abc")
  then Media.Ok [1; 2; 3] else Media.NotOk 404.

(** A queue of size two that gets three items before the interval fires,
    and whose processor then fails. *)
Definition burst : list (Queue.Input string) :=
  [ Queue.StartProcessing 1; Queue.Enqueue "a"; Queue.Enqueue "b";
    Queue.Enqueue "c"; Queue.IntervalFires; Queue.IntervalFires;
    Queue.ProcessorSettled (Some "boom"); Queue.IntervalFires ].

(** Two sessions of the bot. *)
Definition session1 : Session.MatrixSession :=
  Session.mkSession "@bot:example.org" "BOTDEVICE" "token1" "https://hs" "t1".

Definition session2 : Session.MatrixSession :=
  Session.mkSession "@bot:example.org" "BOTDEVICE" "token2" "https://hs" "t2".

End HandlersScenarios.

(** * Properties *)

(** ** JavaScript maps *)
Section JsMap_facts.
Context {V : Type}.
Implicit Types (m : JsMap.t V) (k : string) (v : V).

Lemma get_set_eq m k v : JsMap.get k (JsMap.set k v m) = Some v.
Proof.
  induction m as [|[k' v'] m IH]; simpl.
  - by rewrite decide_True.
  - destruct (decide (k = k')) as [->|Hne]; simpl.
    + by rewrite decide_True.
    + by rewrite decide_False.
Qed.

Lemma get_set_ne m k k' v :
  k ≠ k' → JsMap.get k' (JsMap.set k v m) = JsMap.get k' m.
Proof.
  intros Hne. induction m as [|[k0 v0] m IH]; simpl.
  - by rewrite decide_False.
  - destruct (decide (k = k0)) as [->|]; simpl.
    + by rewrite !decide_False.
    + by rewrite IH.
Qed.

Lemma get_delete_eq m k : JsMap.get k (JsMap.delete k m) = None.
Proof.
  induction m as [|[k' v'] m IH]; simpl; [done|].
  destruct (decide (k = k')); simpl; [done|]. by rewrite decide_False.
Qed.

Lemma get_delete_ne m k k' :
  k ≠ k' → JsMap.get k' (JsMap.delete k m) = JsMap.get k' m.
Proof.
  intros Hne. induction m as [|[k0 v0] m IH]; simpl; [done|].
  destruct (decide (k = k0)) as [->|]; simpl.
  - by rewrite decide_False.
  - by rewrite IH.
Qed.

Lemma elem_of_keys_set m k v k' :
  k' ∈ JsMap.keys (JsMap.set k v m) ↔ k' = k ∨ k' ∈ JsMap.keys m.
Proof.
  unfold JsMap.keys. induction m as [|[k0 v0] m IH]; simpl.
  - rewrite list_elem_of_singleton, elem_of_nil. tauto.
  - destruct (decide (k = k0)) as [->|Hne]; simpl; rewrite !elem_of_cons.
    + tauto.
    + rewrite IH. tauto.
Qed.

Lemma elem_of_set m k v kv :
  kv ∈ JsMap.set k v m → kv = (k, v) ∨ kv ∈ m.
Proof.
  induction m as [|[k0 v0] m IH]; simpl.
  - rewrite list_elem_of_singleton. auto.
  - destruct (decide (k = k0)) as [->|Hne]; rewrite !elem_of_cons.
    + tauto.
    + intros [?|?]; [tauto|]. destruct IH; auto.
Qed.

Lemma elem_of_delete m k kv :
  kv ∈ JsMap.delete k m ↔ kv ∈ m ∧ kv.1 ≠ k.
Proof.
  induction m as [|[k0 v0] m IH]; simpl.
  - rewrite elem_of_nil. tauto.
  - destruct (decide (k = k0)) as [->|Hne]; rewrite ?elem_of_cons, IH.
    + split; [tauto|]. intros [[->|?] ?]; [done|tauto].
    + split; [intros [->|?]; [split; [by left|by simpl; auto]|tauto]|tauto].
Qed.

Lemma NoDup_keys_set m k v :
  NoDup (JsMap.keys m) → NoDup (JsMap.keys (JsMap.set k v m)).
Proof.
  unfold JsMap.keys.
  induction m as [|[k0 v0] m IH]; simpl; intros Hnd.
  - apply NoDup_singleton.
  - apply list.NoDup_cons in Hnd as [Hk0 Hnd].
    destruct (decide (k = k0)) as [->|Hne]; simpl; apply list.NoDup_cons.
    + done.
    + split; [|by apply IH].
      intros Hin. apply (elem_of_keys_set m k v k0) in Hin as [?|?]; auto.
Qed.

Lemma NoDup_keys_delete m k :
  NoDup (JsMap.keys m) → NoDup (JsMap.keys (JsMap.delete k m)).
Proof.
  unfold JsMap.keys.
  induction m as [|[k0 v0] m IH]; simpl; intros Hnd; [done|].
  apply list.NoDup_cons in Hnd as [Hk0 Hnd].
  destruct (decide (k = k0)) as [->|Hne]; simpl; [by apply IH|].
  apply list.NoDup_cons. split; [|by apply IH].
  rewrite list_elem_of_fmap. intros ([k1 v1] & -> & Hin).
  apply elem_of_delete in Hin as [Hin _].
  apply Hk0, list_elem_of_fmap. by exists (k1, v1).
Qed.

Lemma get_Some_elem_of m k v : JsMap.get k m = Some v → (k, v) ∈ m.
Proof.
  induction m as [|[k0 v0] m IH]; simpl; [done|].
  destruct (decide (k = k0)) as [->|Hne].
  - intros [= ->]. by left.
  - intros ?. right. auto.
Qed.

Lemma get_None_not_key m k : JsMap.get k m = None ↔ k ∉ JsMap.keys m.
Proof.
  unfold JsMap.keys. induction m as [|[k0 v0] m IH]; simpl.
  - rewrite elem_of_nil. tauto.
  - rewrite not_elem_of_cons. destruct (decide (k = k0)); [|tauto].
    split; [done|tauto].
Qed.

Lemma elem_of_get m k v :
  NoDup (JsMap.keys m) → (k, v) ∈ m → JsMap.get k m = Some v.
Proof.
  unfold JsMap.keys.
  induction m as [|[k0 v0] m IH]; simpl; intros Hnd Hin.
  - by apply elem_of_nil in Hin.
  - apply list.NoDup_cons in Hnd as [Hk0 Hnd].
    apply elem_of_cons in Hin as [[= -> ->]|Hin].
    + by rewrite decide_True.
    + rewrite decide_False; [by apply IH|].
      intros ->. apply Hk0, list_elem_of_fmap. by exists (k0, v).
Qed.

Lemma filter_key_nil m k :
  k ∉ JsMap.keys m → filter (λ kv : string * V, kv.1 = k) m = [].
Proof.
  unfold JsMap.keys. induction m as [|[k0 v0] m IH]; [done|].
  rewrite fmap_cons, not_elem_of_cons, filter_cons. simpl.
  intros [Hne Hk]. rewrite decide_False by done. auto.
Qed.

(** A key of a well-formed map names at most one entry. *)
Lemma count_le_1 m k : NoDup (JsMap.keys m) → (JsMap.count k m ≤ 1)%nat.
Proof.
  unfold JsMap.keys, JsMap.count.
  induction m as [|[k0 v0] m IH]; [simpl; lia|].
  rewrite fmap_cons, list.NoDup_cons, filter_cons. simpl. intros [Hk0 Hnd].
  destruct (decide (k0 = k)) as [->|Hne]; [|by apply IH].
  rewrite filter_key_nil by done. simpl. lia.
Qed.

Lemma count_get m k v :
  NoDup (JsMap.keys m) → JsMap.get k m = Some v → JsMap.count k m = 1%nat.
Proof.
  unfold JsMap.keys, JsMap.count.
  induction m as [|[k0 v0] m IH]; [done|].
  rewrite fmap_cons, list.NoDup_cons, filter_cons. simpl. intros [Hk0 Hnd].
  destruct (decide (k = k0)) as [->|Hne].
  - intros _. rewrite decide_True by done.
    rewrite filter_key_nil by done. done.
  - intros Hget. rewrite decide_False by done. by apply IH.
Qed.

Lemma size_set_delete m k v v0 :
  NoDup (JsMap.keys m) → JsMap.get k m = Some v0 →
  JsMap.size (JsMap.set k v (JsMap.delete k m)) = JsMap.size m.
Proof.
  unfold JsMap.size, JsMap.keys.
  induction m as [|[k1 v1] m IH]; simpl; intros Hnd; [done|].
  apply list.NoDup_cons in Hnd as [Hk1 Hnd].
  destruct (decide (k = k1)) as [->|Hne].
  - intros _. clear IH.
    assert (JsMap.delete k1 m = m) as ->.
    { clear Hnd. induction m as [|[k2 v2] m IH]; simpl; [done|].
      simpl in Hk1. apply not_elem_of_cons in Hk1 as [? ?].
      rewrite decide_False by done. f_equal. auto. }
    assert (JsMap.set k1 v m = m ++ [(k1, v)]) as ->.
    { clear Hnd. induction m as [|[k2 v2] m IH]; simpl; [done|].
      simpl in Hk1. apply not_elem_of_cons in Hk1 as [? ?].
      rewrite decide_False by done. f_equal. auto. }
    rewrite length_app. simpl. lia.
  - intros Hget. simpl. rewrite decide_False by done. simpl. f_equal. auto.
Qed.
End JsMap_facts.


(** ** The verification handler: one session per peer device *)
Section Verification_sessions.
Import Verification VerificationSpec.
Implicit Types (s : State) (m : JsMap.t ActiveVerification).

Lemma wf_map_set m k a :
  wf_map m → k = session_key (userId a) (deviceId a) → wf_map (JsMap.set k a m).
Proof.
  intros [Hnd Hkey] ->. split; [by apply NoDup_keys_set|].
  intros k a' [[= -> ->]|Hin]%elem_of_set; auto.
Qed.

Lemma wf_map_delete m k : wf_map m → wf_map (JsMap.delete k m).
Proof.
  intros [Hnd Hkey]. split; [by apply NoDup_keys_delete|].
  intros k' a' [Hin _]%elem_of_delete. auto.
Qed.

Lemma wf_map_empty : wf_map JsMap.empty.
Proof. split; [constructor|]. intros k a Hin. by apply elem_of_nil in Hin. Qed.

Lemma wf_map_get m k a :
  wf_map m → JsMap.get k m = Some a → k = session_key (userId a) (deviceId a).
Proof. intros [_ Hkey] Hget. by apply Hkey, get_Some_elem_of. Qed.

(** Functions that leave the session map alone. *)
Definition keeps_sessions (f : State → State) : Prop :=
  ∀ s, activeVerifications (f s) = activeVerifications s.

Ltac keeps :=
  intros s;
  repeat first
    [ reflexivity
    | progress unfold acceptAndStartSAS_accepted, acceptAndStartSAS,
        startSASVerification, startSASVerification_start,
        attachVerifierListeners, confirmVerification, requestVerification,
        setTimeout, suspend, on_change, off_change, emit, set_timers,
        set_awaits, set_changeListeners, add_verifierListeners, set_now,
        set_request
    | case_match ].

Lemma keeps_acceptAndStartSAS r key : keeps_sessions (acceptAndStartSAS r key).
Proof. keeps. Qed.

Lemma keeps_startSASVerification r key :
  keeps_sessions (startSASVerification r key).
Proof. keeps. Qed.

Lemma keeps_startSASVerification_start r key :
  keeps_sessions (startSASVerification_start r key).
Proof. keeps. Qed.

Lemma keeps_attachVerifierListeners v r key :
  keeps_sessions (attachVerifierListeners v r key).
Proof. keeps. Qed.

Lemma keeps_acceptAndStartSAS_accepted r key :
  keeps_sessions (acceptAndStartSAS_accepted r key).
Proof. keeps. Qed.

Lemma keeps_confirmVerification key : keeps_sessions (confirmVerification key).
Proof. keeps. Qed.

Lemma keeps_requestVerification u d : keeps_sessions (requestVerification u d).
Proof. keeps. Qed.

(** The map after [handleVerificationRequest_store]. *)
Lemma sessions_store r key s :
  activeVerifications (handleVerificationRequest_store r key s)
  = JsMap.set key (new_entry r (requests s r)) (activeVerifications s).
Proof.
  unfold handleVerificationRequest_store.
  repeat case_match;
    rewrite ?keeps_acceptAndStartSAS, ?keeps_startSASVerification,
      ?keeps_attachVerifierListeners; reflexivity.
Qed.

Lemma wf_keeps f s : keeps_sessions f → wf s → wf (f s).
Proof. unfold wf. intros ->. done. Qed.

Lemma wf_set_active_set k a s :
  wf s → k = session_key (userId a) (deviceId a) →
  wf (set_active (JsMap.set k a) s).
Proof. unfold wf. simpl. apply wf_map_set. Qed.

Lemma wf_set_active_delete k s : wf s → wf (set_active (JsMap.delete k) s).
Proof. unfold wf. simpl. apply wf_map_delete. Qed.

Lemma wf_store r s :
  wf s → wf (handleVerificationRequest_store r (request_key s r) s).
Proof.
  unfold wf. rewrite sessions_store. intros Hwf. by apply wf_map_set.
Qed.

Lemma wf_handleVerificationRequest r s :
  wf s → wf (handleVerificationRequest r s).
Proof.
  intros Hwf. unfold handleVerificationRequest.
  repeat case_match; try done.
  - apply (wf_store r (set_active (JsMap.delete _) s)). by apply wf_set_active_delete.
  - apply (wf_store r (set_active (JsMap.delete _) s)). by apply wf_set_active_delete.
  - by apply (wf_store r s).
Qed.

Lemma wf_startSASVerification_started v r key s :
  wf s → wf (startSASVerification_started v r key s).
Proof.
  intros Hwf. unfold startSASVerification_started, wf.
  destruct (JsMap.get key (activeVerifications s)) as [stored|] eqn:Hget;
    simpl; [|done].
  apply wf_map_set; [done|]. simpl. by eapply wf_map_get.
Qed.

Lemma wf_show_sas_listener payload emoji v key s :
  wf s → wf (show_sas_listener payload emoji v key s).
Proof.
  intros Hwf. unfold show_sas_listener, wf.
  destruct payload, emoji; simpl; try done.
  destruct (JsMap.get key (activeVerifications s)) as [stored|] eqn:Hget; [|done].
  simpl. apply wf_map_set; [done|]. simpl. by eapply wf_map_get.
Qed.

Lemma wf_cancel_listener err key s : wf s → wf (cancel_listener err key s).
Proof. intros Hwf. unfold cancel_listener, wf. simpl. by apply wf_map_delete. Qed.

Lemma wf_change_listener r l s : wf s → wf (change_listener r l s).
Proof.
  intros Hwf. unfold change_listener.
  destruct l; repeat case_match; try done;
    try (by unfold wf; simpl; apply wf_map_delete);
    unfold wf, off_change, set_changeListeners; simpl;
    rewrite ?keeps_startSASVerification, ?keeps_attachVerifierListeners; done.
Qed.

Lemma wf_foldl {A} (f : State → A → State) (l : list A) s :
  (∀ s a, wf s → wf (f s a)) → wf s → wf (foldl f s l).
Proof. intros Hf. revert s. induction l; simpl; auto. Qed.

Lemma wf_timer_callback a s : wf s → wf (timer_callback a s).
Proof.
  intros Hwf. unfold timer_callback.
  destruct a; repeat case_match; try done.
  - unfold wf. by rewrite keeps_startSASVerification.
  - unfold wf. by rewrite keeps_startSASVerification_start.
  - unfold wf. by rewrite keeps_confirmVerification.
Qed.

Lemma wf_step i s : wf s → wf (step i s).
Proof.
  intros Hwf. destruct i; simpl.
  - case_match; done.
  - case_match; [|done].
    apply wf_foldl; [|done]. intros; case_match; auto using wf_change_listener.
  - by apply wf_handleVerificationRequest.
  - unfold settle. case_match; [|done]. destruct err; simpl; [done|].
    unfold wf. by rewrite keeps_acceptAndStartSAS_accepted.
  - unfold settle. case_match; [|done]. destruct err; done.
  - unfold settle. case_match; [|done]. destruct res as [|[]]; try done.
    by apply wf_startSASVerification_started.
  - unfold settle. case_match; [|done]. destruct err; done.
  - unfold settle. case_match; [|done]. destruct err; done.
  - unfold settle. case_match; [|done]. destruct res; [done|].
    unfold requestVerification_requested, wf. simpl. by apply wf_map_set.
  - case_match; [|done]. by apply wf_timer_callback.
  - apply wf_foldl; [|done]. intros; case_match; auto using wf_show_sas_listener.
  - apply wf_foldl; [|done]. intros; case_match; auto using wf_cancel_listener.
  - unfold wf. by rewrite keeps_requestVerification.
  - apply wf_map_empty.
Qed.

Lemma wf_run inputs s : wf s → wf (run inputs s).
Proof.
  unfold run. revert s. induction inputs; simpl; [done|].
  intros s Hwf. apply IHinputs. by apply wf_step.
Qed.

Lemma wf_reachable inputs crypto : wf (run inputs (init crypto)).
Proof. apply wf_run, wf_map_empty. Qed.

(** In a well-formed map the sessions of a pair sit under the pair's key. *)
Lemma sessions_for_count u d s :
  wf s →
  (length (sessions_for u d s)
   ≤ JsMap.count (session_key u d) (activeVerifications s))%nat.
Proof.
  unfold wf, sessions_for, JsMap.count, JsMap.values. intros [_ Hkey].
  induction (activeVerifications s) as [|[k a] m IH]; [done|].
  rewrite fmap_cons, !filter_cons. simpl.
  assert (∀ k a, (k, a) ∈ m → k = session_key (userId a) (deviceId a)) as Hm.
  { intros k' a' Hin. apply Hkey. by right. }
  specialize (IH Hm).
  destruct (decide (userId a = u ∧ deviceId a = d)) as [[<- <-]|Hne].
  - rewrite decide_True by (apply Hkey; by left). simpl. lia.
  - case_decide; simpl; lia.
Qed.

Lemma sessions_for_le_1 u d s : wf s → (length (sessions_for u d s) ≤ 1)%nat.
Proof.
  intros Hwf. etrans; [by apply sessions_for_count|].
  apply count_le_1, Hwf.
Qed.

(** The map after a request that supersedes the session stored under its
    key. *)
Lemma handleVerificationRequest_supersedes r old s :
  JsMap.get (request_key s r) (activeVerifications s) = Some old →
  is_terminal (phase (requests s (request old))) = true
    ∨ phase (requests s r) = Requested →
  activeVerifications (handleVerificationRequest r s)
  = JsMap.set (request_key s r) (new_entry r (requests s r))
      (JsMap.delete (request_key s r) (activeVerifications s)).
Proof.
  intros Hget Hcase. unfold handleVerificationRequest.
  fold (request_key s r). rewrite Hget.
  destruct (is_terminal (phase (requests s (request old)))) eqn:Hterm.
  - by rewrite sessions_store.
  - destruct Hcase as [|Hreq]; [done|]. rewrite decide_True by done.
    by rewrite sessions_store.
Qed.

(** C1. For every (peer user, peer device) pair the active-session map of
    any reachable state holds at most one session, hence at most one
    non-terminal session.  When [handleVerificationRequest] sees a request
    whose key already has a session and either that session's request is in
    a terminal phase (Cancelled or Done) or the new request is in phase
    Requested, the old entry is removed and exactly one new entry for the
    key is stored: the key then maps to the fresh entry for the new
    request, it names exactly one entry, the size of the map is unchanged
    and every other key keeps its entry. *)
Theorem one_session_per_device (inputs : list Input) (crypto : bool) :
  let s := run inputs (init crypto) in
  (∀ u d,
     (length (sessions_for u d s) ≤ 1)%nat ∧
     (length (filter (non_terminal s) (sessions_for u d s)) ≤ 1)%nat) ∧
  (∀ r old,
     JsMap.get (request_key s r) (activeVerifications s) = Some old →
     is_terminal (phase (requests s (request old))) = true
       ∨ phase (requests s r) = Requested →
     let s' := handleVerificationRequest r s in
     JsMap.get (request_key s r) (activeVerifications s')
       = Some (new_entry r (requests s r)) ∧
     JsMap.count (request_key s r) (activeVerifications s') = 1%nat ∧
     JsMap.size (activeVerifications s') = JsMap.size (activeVerifications s) ∧
     (∀ k, k ≠ request_key s r →
        JsMap.get k (activeVerifications s')
        = JsMap.get k (activeVerifications s)) ∧
     (∀ u d, (length (sessions_for u d s') ≤ 1)%nat)).
Proof.
  intros s. pose proof (wf_reachable inputs crypto) as Hwf. fold s in Hwf.
  split.
  - intros u d. pose proof (sessions_for_le_1 u d s Hwf) as Hle.
    split; [done|]. etrans; [apply length_filter|done].
  - intros r old Hget Hcase s'.
    pose proof (handleVerificationRequest_supersedes r old s Hget Hcase) as Heq.
    fold s' in Heq.
    assert (wf s') as Hwf' by by apply wf_handleVerificationRequest.
    assert (JsMap.get (request_key s r) (activeVerifications s')
            = Some (new_entry r (requests s r))) as Hnew.
    { rewrite Heq. apply get_set_eq. }
    split; [done|]. split; [|split; [|split]].
    + eapply count_get; [apply Hwf'|done].
    + rewrite Heq. eapply size_set_delete; [apply Hwf|done].
    + intros k Hk. rewrite Heq, get_set_ne, get_delete_ne by done. done.
    + intros u d. by apply sessions_for_le_1.
Qed.
End Verification_sessions.

Section Verification_scenarios.
Import Verification VerificationSpec Scenarios.

(** Witness for C1: the stale cancelled session of [stale_then_new] is
    superseded by the new request 2. *)
Lemma one_session_per_device_witness :
  let s := run stale_then_new (init true) in
  let s' := handleVerificationRequest 2 s in
  JsMap.get alice_key (activeVerifications s)
    = Some (mkActive "@alice:example.org" "D1" None 1 None) ∧
  JsMap.get alice_key (activeVerifications s')
    = Some (mkActive "@alice:example.org" "D1" None 2 None) ∧
  JsMap.count alice_key (activeVerifications s') = 1%nat.
Proof.
  intros s s'.
  destruct (one_session_per_device stale_then_new true) as [_ H].
  destruct (H 2%nat (mkActive "@alice:example.org" "D1" None 1 None))
    as (Hnew & Hcount & _).
  - reflexivity.
  - left. reflexivity.
  - split; [reflexivity|]. split; [exact Hnew|exact Hcount].
Defined.

(** C2 (the code diverges). In [ready_seen_twice] the Ready phase is seen
    first by the change listener and then, 100 ms later, by the 1000 ms
    poll, whose timer the change listener does not cancel.  The poll runs
    [startSASVerification] a second time: the device keys are fetched twice
    and [request.startVerification] is called twice, at 1450 ms and at
    1550 ms. *)
Theorem ready_change_then_poll_starts_sas_twice :
  effects (run ready_seen_twice (init true))
  = [ CallAccept 0;
      CallGetUserDeviceInfo "@alice:example.org";
      CallGetUserDeviceInfo "@alice:example.org";
      CallStartVerification 0;
      CallStartVerification 0 ] ∧
  sas_initiations (log (run ready_seen_twice (init true)))
  = [ (1450, CallStartVerification 0); (1550, CallStartVerification 0) ].
Proof. split; reflexivity. Qed.

(** In the other order the second observation is a no-op: the poll removes
    the change listener before it starts SAS. *)
Lemma ready_poll_then_change_starts_sas_once :
  sas_initiations (log (run ready_poll_first (init true)))
  = [ (1500, CallStartVerification 0) ].
Proof. reflexivity. Qed.
End Verification_scenarios.


(** ** The verification handler: auto-confirm *)
Section Verification_confirm.
Import Verification VerificationSpec.
Implicit Types (s : State).


Lemma elem_of_remove_first {A} `{EqDecision A} (x y : A) (l : list A) :
  y ∈ remove_first x l → y ∈ l.
Proof.
  induction l as [|z l IH]; simpl; [done|].
  case_decide; rewrite ?elem_of_cons; [auto|]. intros [?|?]; auto.
Qed.


























End Verification_confirm.

Section Verification_confirm_claims.
Import Verification VerificationSpec Scenarios.



(** C7 does not hold of the code.  The auto-confirm timer closes over the
    key of the device, not over the session, and cancelling a session does
    not clear it.  In [cancel_and_retry] a first session of Alice's device
    shows its SAS at 0 ms and is cancelled at 1000 ms; a second session of
    the same device shows its SAS at 3000 ms.  The timer of the cancelled
    session fires at 5000 ms and confirms the second session, 2 s after its
    SAS values were surfaced; the second session's own timer confirms it
    again at 8000 ms.  So the confirm of one session fires twice, and the
    first time before the 5-second delay has elapsed. *)
Lemma auto_confirm_twice_and_early :
  log (run cancel_and_retry (init true))
  = [ (0, OnShowSas alice_key 11 ["D Dog"]);
      (1000, OnCancel "Verification cancelled");
      (3000, OnShowSas alice_key 12 ["C Cat"]);
      (5000, CallConfirm alice_key 12);
      (8000, CallConfirm alice_key 12) ]%Z ∧
  ¬ auto_confirm_once_after_delay (log (run cancel_and_retry (init true))).
Proof.
  split; [reflexivity|]. intros Hclaim.
  destruct (Hclaim alice_key 12%nat) as [Honce _].
  vm_compute in Honce. lia.
Qed.
End Verification_confirm_claims.

(** ** The adapter: own messages, error containment, key-backup restore *)
Section Adapter_handlers.
Import Adapter AdapterSpec AdapterScenarios.
Context (cfg : Config) (env : Env).
Implicit Types (s : State) (e : MatrixEvent).

Lemma try_catch_logError_ok (m : M unit) : (try_catch m logError).2 = inr tt.
Proof. destruct m as [tr [err|[]]]; reflexivity. Qed.

(** The timeline handler proper never rejects: what can throw runs inside
    its [try] block. *)
Lemma timelineHandler_never_rejects now o room toStart s :
  (timelineHandler cfg env now o room toStart s).2.2 = inr tt.
Proof.
  unfold timelineHandler.
  repeat case_match; simpl; try reflexivity;
    try apply try_catch_logError_ok.
  all: destruct (dispatchEvent _ _ _ _ _ _ _) as [s' m]; simpl;
    apply try_catch_logError_ok.
Qed.

(** C10. A timeline event whose sender is the bot's own user id is never
    handed to message processing: the timeline handler returns at once,
    with no effect and no change of state, so [onMessage] is not called and
    the run delivers nothing new; and [handleTextMessage] on its own
    returns null, with no effect, for an event whose sender is [ourUserId]. *)
Theorem own_messages_never_processed
    now o room toStart s c u (run0 : Run) (room' : Room) (e : MatrixEvent) :
  client s = Some c →
  getUserId c = Some u →
  getSender (events s o) = Some u →
  state run0 = s →
  getSender e = Some u →
  timelineHandler cfg env now o room toStart s = (s, ret tt) ∧
  effects (step cfg env (TimelineEvent now o room toStart) run0) = effects run0 ∧
  delivered (effects (step cfg env (TimelineEvent now o room toStart) run0))
    = delivered (effects run0) ∧
  handleTextMessage cfg env room' e u = ret None.
Proof.
  intros Hc Hu Hsender Hrun He.
  assert (timelineHandler cfg env now o room toStart s = (s, ret tt)) as Htl.
  { unfold timelineHandler. case_match; [done|].
    unfold sender_is_own. rewrite Hc, Hsender, Hu.
    by rewrite bool_decide_eq_true_2. }
  assert (effects (step cfg env (TimelineEvent now o room toStart) run0)
          = effects run0) as Heff.
  { simpl. rewrite Hrun, Htl. simpl. by rewrite app_nil_r. }
  split; [done|]. split; [done|]. split; [by rewrite Heff|].
  unfold handleTextMessage. rewrite He. simpl.
  destruct (decide (u = "")); [done|].
  destruct (truthy (body (getContent e))); [|done].
  by rewrite decide_True.
Qed.


(** C6. When the restore of the key backup completes (client, crypto and
    recovery key present, the key decodes, the backup is found) and
    reports [imported] keys: with [imported > 0] the retry sweep is called
    right after the restore, whatever the pending map holds, and the
    adapter is left as the sweep leaves it; with no key imported the sweep
    is not called and the adapter is unchanged. *)
Theorem restore_triggers_sweep now s c key (imported : Z) :
  client s = Some c →
  getCrypto c = true →
  truthy (recoveryKey cfg) = Some key →
  decodeRecoveryKeyFails env = None →
  checkKeyBackupAndEnable env = inr true →
  restoreKeyBackup env = inr imported →
  ((imported > 0)%Z →
     restoreKeysFromBackup cfg env now s
     = ((retryPendingDecryptions cfg env now s).1,
        [StoreSessionBackupPrivateKey; CheckKeyBackupAndEnable;
         RestoreKeyBackup; RetryPendingDecryptions]
        ++ (retryPendingDecryptions cfg env now s).2 ++ [Sleep 2000])) ∧
  ((imported ≤ 0)%Z →
     restoreKeysFromBackup cfg env now s
     = (s, [StoreSessionBackupPrivateKey; CheckKeyBackupAndEnable;
            RestoreKeyBackup; Sleep 2000])) ∧
  ((imported > 0)%Z → pendingEncryptedEvents s = [] →
     restoreKeysFromBackup cfg env now s
     = (s, [StoreSessionBackupPrivateKey; CheckKeyBackupAndEnable;
            RestoreKeyBackup; RetryPendingDecryptions; Sleep 2000])).
Proof.
  intros Hc Hcrypto Hkey Hdecode Hcheck Hrestore.
  assert ((imported > 0)%Z →
     restoreKeysFromBackup cfg env now s
     = ((retryPendingDecryptions cfg env now s).1,
        [StoreSessionBackupPrivateKey; CheckKeyBackupAndEnable;
         RestoreKeyBackup; RetryPendingDecryptions]
        ++ (retryPendingDecryptions cfg env now s).2 ++ [Sleep 2000])) as Hpos.
  { intros Hpos. unfold restoreKeysFromBackup.
    rewrite Hc, Hkey, Hcrypto, Hdecode, Hcheck, Hrestore. simpl.
    rewrite bool_decide_eq_true_2 by done.
    by destruct (retryPendingDecryptions cfg env now s) as [s' tr]. }
  split; [done|]. split.
  - intros Hzero. unfold restoreKeysFromBackup.
    rewrite Hc, Hkey, Hcrypto, Hdecode, Hcheck, Hrestore. simpl.
    rewrite bool_decide_eq_false_2 by lia. done.
  - intros Hgt Hempty. rewrite Hpos by done.
    unfold retryPendingDecryptions. rewrite Hc, Hempty. done.
Qed.

End Adapter_handlers.

Section Adapter_handlers_witnesses.
Import Adapter AdapterSpec AdapterScenarios.

(** Witness for C10: the bot's own decrypted message on the timeline. *)
Lemma own_messages_never_processed_witness :
  let own :=
    mkEvent (Some "$own") "m.room.message" (Some "@bot:example.org")
      (Some "!room:example.org") 0 None hello in
  let s := set_event 7 own start in
  timelineHandler cfg0 env0 1000 7 (Some room1) false s = (s, ret tt) ∧
  handleTextMessage cfg0 env0 room1 own "@bot:example.org" = ret None.
Proof.
  intros own s.
  pose proof (own_messages_never_processed cfg0 env0 1000 7%nat (Some room1)
                false s bot "@bot:example.org" (mkRun s [] []) room1 own
                eq_refl eq_refl eq_refl eq_refl eq_refl)
    as (Htl & _ & _ & Htext).
  exact (conj Htl Htext).
Defined.

(** Witness for C6: the backup of [env0] restores 12 keys. *)
Lemma restore_triggers_sweep_witness :
  restoreKeysFromBackup cfg0 env0 1000 start
  = (start, [StoreSessionBackupPrivateKey; CheckKeyBackupAndEnable;
             RestoreKeyBackup; RetryPendingDecryptions; Sleep 2000]).
Proof.
  refine (proj2 (proj2 (restore_triggers_sweep cfg0 env0 1000 start bot
                          "EsTc 5rr1 4Jhp" 12 _ _ _ _ _ _)) _ _);
    first [reflexivity | lia].
Defined.
End Adapter_handlers_witnesses.

Section Adapter_error_containment.
Import Adapter AdapterSpec AdapterScenarios.

(** C9 (the code diverges). When processing a message fails (here the
    agent's [onMessage] rejects), the failure is caught and logged if the
    message was decrypted on arrival, but it escapes as an unhandled
    rejection if the message is processed by the "Event.decrypted"
    observer, which calls [handleMessageEvent] outside any [try]. *)
Theorem decrypted_observer_rejection_escapes :
  unhandled (run cfg0 env_agent_down key_after_message start)
    = ["agent unavailable"] ∧
  rejected (decryptedObserver cfg0 env_agent_down 1
              (state (run cfg0 env_agent_down key_after_message start))) ∧
  unhandled (run cfg0 env_agent_down key_before_message start) = [] ∧
  LogError "agent unavailable"
    ∈ effects (run cfg0 env_agent_down key_before_message start).
Proof.
  split; [reflexivity|]. split; [by eexists|]. split; [reflexivity|].
  vm_compute. apply list_elem_of_further, list_elem_of_further, list_elem_of_here.
Qed.
End Adapter_error_containment.

(** ** The adapter: proactive verification *)
Section Adapter_proactive.
Import Adapter AdapterSpec.
Context (cfg : Config) (env : Env).















End Adapter_proactive.

Section Adapter_proactive_scenarios.
Import Adapter AdapterSpec AdapterScenarios.


End Adapter_proactive_scenarios.

(** ** The adapter: decrypt-retry sweep *)
Section Adapter_sweep.
Import Adapter AdapterSpec.
Context (cfg : Config) (env : Env).
Implicit Types (s : State) (c : Client) (p : JsMap.t nat).

(** *** Clean-up *)

Lemma cleanup_from now s (l : JsMap.t nat) p tr :
  foldl (cleanupOne now s) (p, tr) l
  = (foldl (λ q kv, if too_old now s kv.2 then JsMap.delete kv.1 q else q) p l,
     tr ++ (DroppedPending <$> drops now s l)).
Proof.
  revert p tr. induction l as [|[k o] l IH]; intros p tr; cbn [foldl].
  - by rewrite app_nil_r.
  - unfold drops. rewrite filter_cons. unfold cleanupOne at 2. simpl.
    destruct (too_old now s o); simpl; rewrite IH; [|done].
    by rewrite <- app_assoc.
Qed.

Lemma elem_of_deletes now s (l : JsMap.t nat) p kv :
  kv ∈ foldl (λ q kv, if too_old now s kv.2 then JsMap.delete kv.1 q else q) p l
  ↔ kv ∈ p ∧ kv.1 ∉ drops now s l.
Proof.
  revert p. induction l as [|[k o] l IH]; intros p; cbn [foldl].
  - unfold drops. rewrite filter_nil. simpl. rewrite elem_of_nil. tauto.
  - rewrite IH. unfold drops. rewrite filter_cons. simpl.
    destruct (too_old now s o); simpl.
    + rewrite elem_of_delete, not_elem_of_cons. tauto.
    + tauto.
Qed.

Lemma cleanup_spec now s p :
  cleanup now s p
  = (foldl (λ q kv, if too_old now s kv.2 then JsMap.delete kv.1 q else q) p p,
     DroppedPending <$> drops now s p).
Proof. unfold cleanup. by rewrite cleanup_from. Qed.

(** After the clean-up no entry is older than the retention window. *)
Lemma cleanup_no_old now s p k o :
  (k, o) ∈ (cleanup now s p).1 → (k, o) ∈ p ∧ too_old now s o = false.
Proof.
  rewrite cleanup_spec. simpl. rewrite elem_of_deletes. simpl.
  intros [Hin Hk]. split; [done|].
  destruct (too_old now s o) eqn:Hold; [|done].
  exfalso. apply Hk. unfold drops. apply list_elem_of_fmap.
  exists (k, o). split; [done|]. apply list_elem_of_filter. simpl.
  by rewrite Hold.
Qed.

Lemma dispatched_drops l : dispatched (DroppedPending <$> l) = [].
Proof. by induction l. Qed.

(** *** What is handed to message processing *)

Lemma dispatched_app (a b : list Effect) :
  dispatched (a ++ b) = dispatched a ++ dispatched b.
Proof. apply omap_app. Qed.

Lemma dispatched_bind {A B} (m : M A) (k : A → M B) :
  dispatched (m ≫= k).1
  = dispatched m.1
    ++ match m.2 with inr a => dispatched (k a).1 | inl _ => [] end.
Proof.
  destruct m as [tr [err|a]]; simpl; [by rewrite app_nil_r|].
  unfold mbind, M_bind, bind. destruct (k a). simpl. apply dispatched_app.
Qed.

Lemma dispatched_try_catch_logError (m : M unit) :
  dispatched (try_catch m logError).1 = dispatched m.1.
Proof.
  destruct m as [tr [err|[]]]; simpl; [|done].
  by rewrite dispatched_app, app_nil_r.
Qed.

Lemma quiet_ret {A} (a : A) : quiet (ret a).
Proof. done. Qed.

Lemma quiet_throw {A} err : quiet (@throw A err).
Proof. done. Qed.

Lemma quiet_bind {A B} (m : M A) (k : A → M B) :
  quiet m → (∀ a, quiet (k a)) → quiet (m ≫= k).
Proof.
  unfold quiet. intros Hm Hk. rewrite dispatched_bind, Hm.
  destruct m.2; [done|apply Hk].
Qed.

Ltac quiet_tac :=
  repeat first
    [ apply quiet_ret
    | apply quiet_throw
    | apply quiet_bind; [|intros ?]
    | case_match
    | done ].

Lemma quiet_sendMessage chatId text : quiet (sendMessage env chatId text).
Proof. unfold sendMessage. quiet_tac. Qed.

Lemma quiet_callOnMessage msg : quiet (callOnMessage env msg).
Proof. unfold callOnMessage. quiet_tac. Qed.

Lemma quiet_handleCommand cmd : quiet (handleCommand env cmd).
Proof. unfold handleCommand. quiet_tac. Qed.

Lemma quiet_handleTextMessage room e u :
  quiet (handleTextMessage cfg env room e u).
Proof.
  unfold handleTextMessage.
  repeat first
    [ apply quiet_sendMessage | apply quiet_handleCommand
    | apply quiet_ret | apply quiet_throw
    | apply quiet_bind; [|intros ?]
    | case_match
    | done ].
Qed.

Lemma quiet_handleAudioMessage s o room :
  quiet (handleAudioMessage env s o room).
Proof.
  unfold handleAudioMessage.
  repeat first
    [ apply quiet_callOnMessage | apply quiet_ret | apply quiet_throw
    | apply quiet_bind; [|intros ?] | case_match | done ].
Qed.

Lemma quiet_handleImageMessage s o room :
  quiet (handleImageMessage env s o room).
Proof. unfold handleImageMessage. quiet_tac. Qed.

Lemma dispatched_handleMessageEvent s o room :
  dispatched (handleMessageEvent cfg env s o room).1 = [o].
Proof.
  unfold handleMessageEvent. rewrite dispatched_bind. simpl. f_equal.
  change (quiet
    (match client s with
     | Some c =>
         match truthy (getUserId c) with
         | Some ourUserId =>
             if bool_decide (msgtype (default (getContent (events s o))
                                        (getClearContent (events s o)))
                             = Some "m.text")
                || bool_decide (msgtype (default (getContent (events s o))
                                           (getClearContent (events s o)))
                                = Some "m.notice")
             then
               handleTextMessage cfg env room (events s o) ourUserId
               ≫= λ result,
                    match result with
                    | Some msg => callOnMessage env msg
                    | None => ret tt
                    end
             else if bool_decide (msgtype (default (getContent (events s o))
                                             (getClearContent (events s o)))
                                  = Some "m.audio")
             then handleAudioMessage env s o room
             else if bool_decide (msgtype (default (getContent (events s o))
                                             (getClearContent (events s o)))
                                  = Some "m.image")
             then handleImageMessage env s o room
             else ret tt
         | None => ret tt
         end
     | None => throw "TypeError: Cannot read properties of null"
     end)).
  repeat first
    [ apply quiet_handleTextMessage | apply quiet_callOnMessage
    | apply quiet_handleAudioMessage | apply quiet_handleImageMessage
    | apply quiet_ret | apply quiet_throw
    | apply quiet_bind; [|intros ?] | case_match | done ].
Qed.

(** *** The sweep only shrinks the pending map and only dispatches from it *)

Lemma values_set {V} (m : JsMap.t V) k v x :
  x ∈ JsMap.values (JsMap.set k v m) → x = v ∨ x ∈ JsMap.values m.
Proof.
  unfold JsMap.values. rewrite !list_elem_of_fmap.
  intros ([k' v'] & -> & [[= -> ->]|Hin]%elem_of_set); [by left|].
  right. by exists (k', v').
Qed.

Lemma retryOne_refs s c p tr kv :
  let r := retryOne cfg env s c (p, tr) kv in
  (∀ x, x ∈ JsMap.values r.1 → x ∈ JsMap.values p ∨ x = kv.2) ∧
  (∀ x, x ∈ dispatched r.2 → x ∈ dispatched tr ∨ x = kv.2).
Proof.
  destruct kv as [k o]. unfold retryOne. simpl.
  destruct (getClearContent (events s o)); simpl.
  - destruct (getRoom c (getRoomId (events s o))) as [room|]; simpl; [|auto].
    pose proof (dispatched_handleMessageEvent s o room) as Hd.
    destruct (handleMessageEvent cfg env s o room) as [tr' [err|[]]];
      simpl in *; split.
    + intros x [->|?]%values_set; auto.
    + intros x. rewrite !dispatched_app, Hd. simpl.
      rewrite elem_of_app, list_elem_of_singleton. tauto.
    + auto.
    + intros x. rewrite dispatched_app, Hd, elem_of_app, list_elem_of_singleton.
      tauto.
  - split; [|auto]. intros x [->|?]%values_set; auto.
Qed.

Lemma retryLoop_refs s c (l : JsMap.t nat) p tr :
  let r := foldl (retryOne cfg env s c) (p, tr) l in
  (∀ x, x ∈ JsMap.values r.1 → x ∈ JsMap.values p ∨ x ∈ JsMap.values l) ∧
  (∀ x, x ∈ dispatched r.2 → x ∈ dispatched tr ∨ x ∈ JsMap.values l).
Proof.
  revert p tr. induction l as [|kv l IH]; intros p tr; cbn [foldl].
  - simpl. auto.
  - destruct (retryOne cfg env s c (p, tr) kv) as [p' tr'] eqn:Hone.
    pose proof (retryOne_refs s c p tr kv) as [Hp Ht]. rewrite Hone in Hp, Ht.
    simpl in Hp, Ht. destruct (IH p' tr') as [IHp IHt].
    unfold JsMap.values in *. rewrite fmap_cons.
    split; intros x Hx; rewrite elem_of_cons.
    + destruct (IHp x Hx) as [Hx'|?]; [|tauto].
      destruct (Hp x Hx'); tauto.
    + destruct (IHt x Hx) as [Hx'|?]; [|tauto].
      destruct (Ht x Hx'); tauto.
Qed.

Lemma retryPendingDecryptions_refs now s :
  let r := retryPendingDecryptions cfg env now s in
  (∀ x, x ∈ refs r.1 → x ∈ refs s) ∧ (∀ x, x ∈ dispatched r.2 → x ∈ refs s).
Proof.
  unfold retryPendingDecryptions, refs.
  destruct (client s) as [c|]; [|split; [done|by intros x []%elem_of_nil]].
  destruct (bool_decide (JsMap.size (pendingEncryptedEvents s) = 0%nat));
    [split; [done|by intros x []%elem_of_nil]|].
  destruct (retryLoop cfg env s c) as [p1 tr1] eqn:Hloop.
  pose proof (retryLoop_refs s c (pendingEncryptedEvents s) JsMap.empty [])
    as [Hp Ht].
  unfold retryLoop in Hloop. rewrite Hloop in Hp, Ht. simpl in Hp, Ht.
  pose proof (cleanup_spec now s p1) as Hspec.
  pose proof (cleanup_no_old now s p1) as Hold.
  destruct (cleanup now s p1) as [p2 tr2]. simpl in *.
  injection Hspec as _ ->. split.
  - intros x Hx. unfold JsMap.values in Hx.
    apply list_elem_of_fmap in Hx as ([k o] & -> & Hin). simpl.
    destruct (Hp o) as [[]%elem_of_nil|]; [|done].
    unfold JsMap.values. apply list_elem_of_fmap. exists (k, o).
    split; [done|]. by apply Hold.
  - intros x. rewrite dispatched_app, dispatched_drops, app_nil_r.
    intros Hx. destruct (Ht x Hx) as [[]%elem_of_nil|]; done.
Qed.

Lemma quiet_handleReactionEvent s o : quiet (handleReactionEvent env s o).
Proof.
  unfold handleReactionEvent. destruct (reactionHandler env (events s o)) as [msgs err].
  apply quiet_bind; [done|]. intros _. apply quiet_bind.
  - destruct (onMessage env); [|done]. unfold quiet. simpl.
    induction msgs; [done|]. done.
  - intros _. by destruct err.
Qed.

Lemma quiet_requestRoomKey s e : quiet (requestRoomKey s e).
Proof. unfold requestRoomKey. repeat case_match; done. Qed.

Lemma dispatchEvent_refs now ty o room s :
  let r := dispatchEvent cfg env now ty o room s in
  (∀ x, x ∈ refs r.1 → x ∈ refs s) ∧
  (∀ x, x ∈ dispatched r.2.1 → x = o ∨ x ∈ refs s).
Proof.
  unfold dispatchEvent. repeat case_match; simpl; try (split; [done|]).
  all: try by intros x []%elem_of_nil.
  - subst. pose proof (retryPendingDecryptions_refs now s) as [Hp Ht].
    match goal with H : retryPendingDecryptions _ _ _ _ = _ |- _ =>
      rewrite H in Hp, Ht end. simpl in *. split; [done|].
    intros x Hx. right. by apply Ht.
  - rewrite dispatched_handleMessageEvent. intros x ->%list_elem_of_singleton.
    by left.
  - rewrite (quiet_handleReactionEvent s o). by intros x []%elem_of_nil.
Qed.

Lemma timelineHandler_refs now o room toStart s :
  let r := timelineHandler cfg env now o room toStart s in
  (∀ x, x ∈ refs r.1 → x ∈ refs s) ∧
  (∀ x, x ∈ dispatched r.2.1 → x = o ∨ x ∈ refs s).
Proof.
  unfold timelineHandler.
  repeat case_match; simpl; try (split; [done|by intros x []%elem_of_nil]).
  all: try match goal with
    | H : dispatchEvent _ _ ?now ?ty ?o ?room ?s = _ |- _ =>
        pose proof (dispatchEvent_refs now ty o room s) as [Hp Ht];
        rewrite H in Hp, Ht; simpl in Hp, Ht; split; [done|];
        by rewrite dispatched_try_catch_logError
    end.
  split; [done|]. rewrite dispatched_try_catch_logError.
  rewrite (quiet_requestRoomKey s _). by intros x []%elem_of_nil.
Qed.

Lemma decryptedObserver_dispatched o s x :
  x ∈ dispatched (decryptedObserver cfg env o s).1 → x = o.
Proof.
  unfold decryptedObserver. repeat case_match; simpl;
    try by intros []%elem_of_nil.
  rewrite dispatched_handleMessageEvent. by intros ->%list_elem_of_singleton.
Qed.

Lemma restoreKeysFromBackup_refs now s :
  let r := restoreKeysFromBackup cfg env now s in
  (∀ x, x ∈ refs r.1 → x ∈ refs s) ∧ (∀ x, x ∈ dispatched r.2 → x ∈ refs s).
Proof.
  unfold restoreKeysFromBackup.
  repeat case_match; simplify_eq/=;
    try (split; [done|by intros x []%elem_of_nil]).
  pose proof (retryPendingDecryptions_refs now s) as [Hp Ht].
  match goal with H : retryPendingDecryptions _ _ _ _ = _ |- _ =>
    rewrite H in Hp, Ht end. simpl in *. split; [done|].
  intros x. rewrite dispatched_app, elem_of_app.
  intros [?|[]%elem_of_nil]. auto.
Qed.

Lemma untouched_observers o o' (l : list nat) t :
  o' ≠ o → untouched o t →
  untouched o
    (foldl (λ t _, call_handler (state t, decryptedObserver cfg env o' (state t)) t)
       t l).
Proof.
  intros Hne. revert t. induction l as [|x l IH]; intros t Ht; cbn [foldl]; [done|].
  apply IH. destruct Ht as [Hr Hd]. unfold call_handler.
  pose proof (decryptedObserver_dispatched o' (state t) o) as Hobs.
  destruct (decryptedObserver cfg env o' (state t)) as [tr res]. simpl in *.
  split; [done|]. simpl. rewrite dispatched_app, elem_of_app.
  intros [?|Hin]; [done|]. apply Hobs in Hin. done.
Qed.

(** A step that does not deliver [o] leaves it untouched. *)
Lemma untouched_step o i t :
  ¬ delivers o i → untouched o t → untouched o (step cfg env i t).
Proof.
  intros Hi [Hr Hd]. unfold untouched.
  destruct i as [o' e| |now o' room toStart|o' ty c|now|now]; simpl in Hi.
  - done.
  - done.
  - pose proof (timelineHandler_refs now o' room toStart (state t)) as [Hp Ht].
    simpl. unfold call_handler.
    destruct (timelineHandler cfg env now o' room toStart (state t))
      as [s' [tr res]]. simpl in *. split; [by intros ?%Hp|].
    rewrite dispatched_app, elem_of_app. intros [?|Hin]; [done|].
    destruct (Ht o Hin); [|done]. by apply Hi.
  - apply untouched_observers; [done|]. by split.
  - pose proof (retryPendingDecryptions_refs now (state t)) as [Hp Ht].
    simpl.
    destruct (retryPendingDecryptions cfg env now (state t)) as [s' tr].
    simpl in *. split; [by intros ?%Hp|].
    rewrite dispatched_app, elem_of_app. intros [?|Hin]; [done|].
    by apply Ht in Hin.
  - pose proof (restoreKeysFromBackup_refs now (state t)) as [Hp Ht].
    simpl.
    destruct (restoreKeysFromBackup cfg env now (state t)) as [s' tr].
    simpl in *. split; [by intros ?%Hp|].
    rewrite dispatched_app, elem_of_app. intros [?|Hin]; [done|].
    by apply Ht in Hin.
Qed.

Lemma untouched_run o inputs s :
  Forall (λ i, ¬ delivers o i) inputs → o ∉ refs s →
  o ∉ dispatched (effects (run cfg env inputs s)).
Proof.
  intros Hin Hr. unfold run.
  assert (untouched o (mkRun s [] [])) as Ht.
  { split; [done|]. simpl. by intros ?%elem_of_nil. }
  revert Ht. generalize (mkRun s [] []). clear Hr.
  induction Hin as [|i inputs Hi _ IH]; intros t Ht; simpl; [apply Ht|].
  apply IH. by apply untouched_step.
Qed.

End Adapter_sweep.

Section Adapter_sweep_scenarios.
Import Adapter AdapterSpec AdapterScenarios.



End Adapter_sweep_scenarios.


(** * Further properties *)

(** ** The verification handler: teardown *)
Section Verification_teardown.
Import Verification VerificationSpec VerificationExtraSpec.
Implicit Types (s : State) (m : JsMap.t ActiveVerification).

Lemma get_deletes_elem m (keys : list string) key :
  key ∈ keys → JsMap.get key (foldl (λ m k, JsMap.delete k m) m keys) = None.
Proof.
  assert (∀ keys m, JsMap.get key m = None →
            JsMap.get key (foldl (λ m k, JsMap.delete k m) m keys) = None) as Hnone.
  { clear. intros keys. induction keys as [|k keys IH]; intros m Hm; [done|].
    cbn [foldl]. apply IH. destruct (decide (k = key)) as [->|Hne].
    - apply get_delete_eq.
    - by rewrite get_delete_ne. }
  revert m. induction keys as [|k keys IH]; intros m Hin.
  - by apply elem_of_nil in Hin.
  - cbn [foldl]. destruct (decide (k = key)) as [->|Hne].
    + apply Hnone, get_delete_eq.
    + apply IH. apply elem_of_cons in Hin as [?|?]; [congruence|done].
Qed.

Lemma get_deletes_not_elem m (keys : list string) key :
  key ∉ keys →
  JsMap.get key (foldl (λ m k, JsMap.delete k m) m keys) = JsMap.get key m.
Proof.
  revert m. induction keys as [|k keys IH]; intros m Hin; [done|].
  apply not_elem_of_cons in Hin as [Hne Hin]. cbn [foldl].
  rewrite IH by done. by rewrite get_delete_ne.
Qed.

(** The change listeners of [r] run on a terminal phase. *)
Lemma emit_change_terminal r req (l : list (nat * ChangeListener)) s0 :
  requests s0 r = req →
  is_terminal (phase req) = true →
  let s1 := foldl (λ s rl, if decide (rl.1 = r) then change_listener r rl.2 s else s)
              s0 l in
  let keys :=
    omap (λ rl : nat * ChangeListener,
            match rl.2 with
            | OnPhaseChange key => if decide (rl.1 = r) then Some key else None
            | _ => None
            end) l in
  activeVerifications s1
    = foldl (λ m k, JsMap.delete k m) (activeVerifications s0) keys ∧
  log s1 = log s0 ++ ((λ _, (now s0, terminal_report req)) <$> keys).
Proof.
  intros Hreq Hterm. revert s0 Hreq.
  induction l as [|[r' li] l IH]; intros s0 Hreq; cbn [foldl omap].
  - simpl. by rewrite app_nil_r.
  - simpl. destruct (decide (r' = r)) as [->|Hne].
    + assert (requests (change_listener r li s0) r = req
              ∧ now (change_listener r li s0) = now s0) as [Hreq' Hnow].
      { unfold change_listener. rewrite Hreq.
        destruct li, (phase req); try done. }
      destruct (IH _ Hreq') as [IHm IHl]. rewrite IHm, IHl, Hnow.
      unfold change_listener, terminal_report. rewrite Hreq.
      destruct li, (phase req); try done; simpl;
        by rewrite <- ?app_assoc.
    + destruct (IH _ Hreq) as [IHm IHl]. rewrite IHm, IHl.
      by destruct li.
Qed.

(** X1. When the SDK moves a request to a terminal phase (Done or
    Cancelled) and emits "change", every session key for which
    [attachVerifierListeners] registered a phase listener on that request
    is removed from the active-session map, the other keys keep their
    entries, and the outcome is reported once per registered listener:
    [onComplete] for Done, [onCancel] with the cancellation code (or
    "Unknown") for Cancelled. *)
Theorem terminal_phase_tears_down s r req :
  is_terminal (phase req) = true →
  let s' := step (SdkSetRequest r req true) s in
  (∀ key, key ∈ phase_listener_keys r s →
     JsMap.get key (activeVerifications s') = None) ∧
  (∀ key, key ∉ phase_listener_keys r s →
     JsMap.get key (activeVerifications s')
     = JsMap.get key (activeVerifications s)) ∧
  log s' = log s
           ++ ((λ _, (now s, terminal_report req)) <$> phase_listener_keys r s).
Proof.
  intros Hterm s'.
  destruct (emit_change_terminal r req (changeListeners s) (set_request r req s))
    as [Hm Hl]; [|done|].
  { simpl. apply fn_lookup_insert. }
  unfold s', step, emit_change.
  change (changeListeners (set_request r req s)) with (changeListeners s).
  rewrite Hm, Hl. fold (phase_listener_keys r s). simpl.
  split; [|split; [|done]].
  - intros key Hin. by apply get_deletes_elem.
  - intros key Hin. by apply get_deletes_not_elem.
Qed.

(** Witness for X1: a started verification is reported Done. *)
Lemma terminal_phase_tears_down_witness :
  let s := run [ SdkSetRequest 1 (Scenarios.alice Started (Some 11%nat)) false;
                 VerificationRequestReceived 1 ] (init true) in
  let s' := step (SdkSetRequest 1 (Scenarios.alice Done (Some 11%nat)) true) s in
  JsMap.get Scenarios.alice_key (activeVerifications s) ≠ None ∧
  JsMap.get Scenarios.alice_key (activeVerifications s') = None ∧
  log s' = [(0%Z, OnComplete)].
Proof.
  intros s s'.
  pose proof (terminal_phase_tears_down s 1%nat
                (Scenarios.alice Done (Some 11%nat)) eq_refl) as (Hgone & _ & Hlog).
  split; [done|]. split; [|exact Hlog].
  apply Hgone. apply list_elem_of_here.
Defined.

Lemma emit_cancel_spec v err (l : list (nat * string)) s0 :
  let s1 := foldl (λ s vk, if decide (vk.1 = v) then cancel_listener err vk.2 s else s)
              s0 l in
  let keys := omap (λ vk : nat * string, if decide (vk.1 = v) then Some vk.2 else None) l in
  activeVerifications s1
    = foldl (λ m k, JsMap.delete k m) (activeVerifications s0) keys ∧
  log s1 = log s0
           ++ ((λ _, (now s0, OnCancel (default "Verification cancelled" err)))
                 <$> keys).
Proof.
  revert s0. induction l as [|[v' key] l IH]; intros s0; cbn [foldl omap].
  - simpl. by rewrite app_nil_r.
  - simpl. destruct (decide (v' = v)) as [->|Hne].
    + destruct (IH (cancel_listener err key s0)) as [IHm IHl].
      rewrite IHm, IHl. simpl. by rewrite <- app_assoc.
    + destruct (IH s0) as [IHm IHl]. by rewrite IHm, IHl.
Qed.

(** X2. When a verifier emits "cancel", every session key with a cancel
    listener on that verifier is removed from the active-session map, the
    other keys keep their entries, and [onCancel] is called once per
    listener with the error's message, or "Verification cancelled" when the
    argument is not an [Error]. *)
Theorem verifier_cancel_tears_down s v err :
  let s' := step (VerifierCancel v err) s in
  (∀ key, key ∈ cancel_listener_keys v s →
     JsMap.get key (activeVerifications s') = None) ∧
  (∀ key, key ∉ cancel_listener_keys v s →
     JsMap.get key (activeVerifications s')
     = JsMap.get key (activeVerifications s)) ∧
  log s' = log s
           ++ ((λ _, (now s, OnCancel (default "Verification cancelled" err)))
                 <$> cancel_listener_keys v s).
Proof.
  intros s'. destruct (emit_cancel_spec v err (cancelListeners s) s) as [Hm Hl].
  unfold s', step, emit_cancel. rewrite Hm, Hl.
  fold (cancel_listener_keys v s).
  split; [|split; [|done]].
  - intros key Hin. by apply get_deletes_elem.
  - intros key Hin. by apply get_deletes_not_elem.
Qed.
End Verification_teardown.

(** ** The verification handler: bot-initiated requests and accessors *)
Section Verification_accessors.
Import Verification VerificationSpec VerificationExtraSpec.
Implicit Types (s : State).

(** X3. [requestVerification(userId, deviceId)]: without crypto the call
    rejects with "Crypto not initialized" and touches nothing else; with
    crypto it asks the SDK for a request and, once the SDK returns request
    [r], stores a fresh entry for [r] under the pair's key, replacing
    whatever session was stored there (no phase check, unlike incoming
    requests), leaves every other key alone and listens for the request's
    changes; if the SDK call fails the map is unchanged and the rejection is
    passed to the caller. *)
Theorem requestVerification_stores s u d :
  (crypto s = false →
     step (RequestVerification u d) s
     = emit (RequestVerificationRejected "Crypto not initialized") s) ∧
  (crypto s = true →
     let s1 := step (RequestVerification u d) s in
     log s1 = log s ++ [(now s, CallRequestDeviceVerification u d)] ∧
     activeVerifications s1 = activeVerifications s ∧
     (∀ r,
        let s2 := step (RequestDeviceVerificationSettled u d (inr r)) s1 in
        JsMap.get (session_key u d) (activeVerifications s2)
          = Some (mkActive u d None r None) ∧
        (∀ k, k ≠ session_key u d →
           JsMap.get k (activeVerifications s2)
           = JsMap.get k (activeVerifications s)) ∧
        (r, OnReadyOrStarted (session_key u d)) ∈ changeListeners s2 ∧
        log s2 = log s1) ∧
     (∀ err,
        let s2 := step (RequestDeviceVerificationSettled u d (inl err)) s1 in
        activeVerifications s2 = activeVerifications s ∧
        log s2 = log s1 ++ [(now s, RequestVerificationRejected err)])).
Proof.
  split.
  - intros Hc. simpl. unfold requestVerification. by rewrite Hc.
  - intros Hc s1.
    assert (s1 = suspend (AwaitRequestDevice u d)
                   (emit (CallRequestDeviceVerification u d) s)) as Hs1.
    { unfold s1. simpl. unfold requestVerification. by rewrite Hc. }
    assert (AwaitRequestDevice u d ∈ awaits s1) as Hawait.
    { rewrite Hs1. simpl. apply elem_of_app. right. apply list_elem_of_here. }
    split; [by rewrite Hs1|]. split; [by rewrite Hs1|]. split.
    + intros r s2. unfold s2. simpl. unfold settle.
      rewrite decide_True by done. simpl. rewrite Hs1. simpl.
      split; [apply get_set_eq|]. split; [|split; [|done]].
      * intros k Hk. by rewrite get_set_ne.
      * apply elem_of_app. right. apply list_elem_of_here.
    + intros err s2. unfold s2. simpl. unfold settle.
      rewrite decide_True by done. rewrite Hs1. done.
Qed.

(** Witness for X3: a bot-initiated request to Alice's device D1. *)
Lemma requestVerification_stores_witness :
  let s1 := step (RequestVerification "@alice:example.org" "D1") (init true) in
  let s2 := step (RequestDeviceVerificationSettled "@alice:example.org" "D1"
                    (inr 5%nat)) s1 in
  JsMap.get Scenarios.alice_key (activeVerifications s2)
  = Some (mkActive "@alice:example.org" "D1" None 5 None).
Proof.
  intros s1 s2.
  destruct (requestVerification_stores (init true) "@alice:example.org" "D1")
    as [_ H].
  destruct (H eq_refl) as (_ & _ & Hok & _).
  destruct (Hok 5%nat) as (Hget & _). exact Hget.
Defined.

Lemma prefix_append (a b c : string) :
  String.prefix (a +:+ b) (a +:+ (b +:+ c)) = true.
Proof.
  induction a as [|x a IH]; simpl.
  - induction b as [|y b IHb]; simpl; [by destruct c|].
    by destruct (Ascii.ascii_dec y y).
  - by destruct (Ascii.ascii_dec x x).
Qed.

(** X4. In every reachable state [getVerificationRequests(userId)] returns
    the request of every session of that user, returns only requests of
    entries whose key starts with the user id and a bar, and returns
    nothing after [dispose()]. *)
Theorem getVerificationRequests_sessions (inputs : list Input) (crypto : bool)
    (u : string) :
  let s := run inputs (init crypto) in
  (∀ a, a ∈ JsMap.values (activeVerifications s) → userId a = u →
     request a ∈ getVerificationRequests u s) ∧
  (∀ r, r ∈ getVerificationRequests u s →
     ∃ k a, (k, a) ∈ activeVerifications s ∧ request a = r
            ∧ String.prefix (u +:+ "|") k = true) ∧
  getVerificationRequests u (step Dispose s) = [].
Proof.
  intros s. pose proof (wf_reachable inputs crypto) as [_ Hkey]. fold s in Hkey.
  split; [|split; [|done]].
  - intros a Hin Hu. unfold JsMap.values in Hin.
    apply list_elem_of_fmap in Hin as ([k a'] & -> & Hin). simpl in *.
    unfold getVerificationRequests. apply list_elem_of_fmap.
    exists a'. split; [done|]. apply list_elem_of_fmap. exists (k, a').
    split; [done|]. apply list_elem_of_filter. split; [|done]. simpl.
    rewrite (Hkey _ _ Hin), Hu. apply prefix_append.
  - intros r Hin. unfold getVerificationRequests in Hin.
    apply list_elem_of_fmap in Hin as (a & -> & Hin).
    apply list_elem_of_fmap in Hin as ([k a'] & -> & Hin).
    apply list_elem_of_filter in Hin as [Hp Hin]. by exists k, a'.
Qed.

Lemma format_emoji_nonempty (e : string * string) : format_emoji e ≠ "".
Proof. unfold format_emoji. by destruct e.1. Qed.

(** X5. [formatEmojis]: an argument that is not an array gives the empty
    string; an element that is not an array, or has fewer than two items,
    leaves no trace in the result (no empty segment, no separator); and on
    a list of emoji pairs the result is the listener's own formatting
    [`${e[0]} ${e[1]}`] of each pair, joined by " | ". *)
Theorem formatEmojis_pairs (l l' : list EmojiItem) (bad : EmojiItem)
    (es : list (string * string)) :
  formatEmojis None = "" ∧
  (malformed bad →
     formatEmojis (Some (l ++ bad :: l')) = formatEmojis (Some (l ++ l'))) ∧
  formatEmojis (Some (pair_item <$> es))
  = String.concat " | " (format_emoji <$> es).
Proof.
  split; [done|]. split.
  - intros Hbad. unfold formatEmojis.
    rewrite !fmap_app, fmap_cons, !filter_app, filter_cons.
    assert (formatEmojiItem bad = "") as ->; [|by rewrite decide_False by auto].
    destruct bad as [|[|? [|? ?]]]; done.
  - unfold formatEmojis. f_equal. induction es as [|e es IH]; [done|].
    rewrite !fmap_cons, filter_cons.
    change (formatEmojiItem (pair_item e)) with (format_emoji e).
    rewrite decide_True by apply format_emoji_nonempty. by rewrite IH.
Qed.

(** Witness for X5: a stray element between two pairs. *)
Lemma formatEmojis_pairs_witness :
  formatEmojis (Some ([ItemArray ["D"; "Dog"]] ++ ItemArray ["x"] :: [ItemArray ["C"; "Cat"]]))
  = "D Dog | C Cat".
Proof.
  destruct (formatEmojis_pairs [ItemArray ["D"; "Dog"]] [ItemArray ["C"; "Cat"]]
              (ItemArray ["x"]) []) as (_ & H & _).
  rewrite H; [reflexivity|exact I].
Defined.
End Verification_accessors.

Section Adapter_text_messages.
Import Adapter AdapterSpec AdapterExtraSpec.
Context (cfg : Config) (env : Env).

Lemma only_ret P {A} (a : A) : only P (ret a).
Proof. apply Forall_nil_2. Qed.

Lemma only_throw P {A} err : only P (@throw A err).
Proof. apply Forall_nil_2. Qed.

Lemma only_tell (P : Effect → Prop) e : P e → only P (tell e).
Proof. intros. by apply Forall_cons_2; [|apply Forall_nil_2]. Qed.

Lemma only_bind P {A B} (m : M A) (k : A → M B) :
  only P m → (∀ a, only P (k a)) → only P (m ≫= k).
Proof.
  unfold only. intros Hm Hk. destruct m as [tr [err|a]]; simpl in *; [done|].
  unfold mbind, M_bind, bind. specialize (Hk a). destruct (k a). simpl in *.
  by apply Forall_app.
Qed.

Lemma only_try_catch P {A} (m : M A) h :
  only P m → (∀ err, only P (h err)) → only P (try_catch m h).
Proof.
  unfold only. intros Hm Hh. destruct m as [tr [err|a]]; simpl in *; [|done].
  specialize (Hh err). destruct (h err). simpl in *. by apply Forall_app.
Qed.

Lemma only_delivered {A} (m : M A) : only not_delivery m → delivered m.1 = [].
Proof.
  unfold only. induction 1 as [|e tr He _ IH]; [done|].
  destruct e; simpl in *; done.
Qed.

Ltac only_tac :=
  repeat first
    [ apply only_ret
    | apply only_throw
    | apply only_tell; exact I
    | apply only_bind; [|intros ?]
    | case_match
    | done ].

Lemma sendMessage_no_delivery chatId text :
  only not_delivery (sendMessage env chatId text).
Proof. unfold sendMessage. only_tac. Qed.

Lemma handleCommand_no_delivery cmd : only not_delivery (handleCommand env cmd).
Proof. unfold handleCommand. only_tac. Qed.

Lemma handleTextMessage_no_delivery room e u :
  only not_delivery (handleTextMessage cfg env room e u).
Proof.
  unfold handleTextMessage.
  repeat first
    [ apply sendMessage_no_delivery | apply handleCommand_no_delivery
    | apply only_ret | apply only_throw | apply only_tell; exact I
    | apply only_bind; [|intros ?]
    | case_match | done ].
Qed.

Lemma snd_bind {A B} (m : M A) (k : A → M B) :
  (m ≫= k).2 = match m.2 with inl err => inl err | inr a => (k a).2 end.
Proof.
  destruct m as [tr [err|a]]; [done|]. unfold mbind, M_bind, bind. simpl.
  by destruct (k a).
Qed.

Lemma fst_bind {A B} (m : M A) (k : A → M B) :
  (m ≫= k).1 = m.1 ++ match m.2 with inl err => [] | inr a => (k a).1 end.
Proof.
  destruct m as [tr [err|a]]; simpl; [by rewrite app_nil_r|].
  unfold mbind, M_bind, bind. by destruct (k a).
Qed.

Lemma then_None {A B} (m : M A) (b : B) :
  (m ;; ret (@None B)).2 ≠ inr (Some b).
Proof. rewrite snd_bind. by destruct m.2. Qed.

Lemma handleTextMessage_Some room e u msg :
  (handleTextMessage cfg env room e u).2 = inr (Some msg) →
  ∃ sender text,
    truthy (getSender e) = Some sender ∧
    truthy (body (getContent e)) = Some text ∧
    sender ≠ u ∧
    checkAccess cfg env sender = Allowed ∧
    msg = mkInbound "matrix" (roomId room) sender (extractDisplayName sender)
            sender (truthy (getId e)) text (getTs e)
            (negb (isDirectMessage room))
            (if isDirectMessage room then None else Some (name room)).
Proof.
  unfold handleTextMessage.
  destruct (truthy (getSender e)) as [sender|]; [|done].
  destruct (truthy (body (getContent e))) as [text|]; [|done].
  destruct (decide (sender = u)) as [|Hne]; [done|].
  rewrite (bool_decide_false _ Hne), andb_false_r.
  rewrite snd_bind.
  match goal with |- context [ (?m).2 ] => destruct m as [tr [err|handled]] end;
    simpl; [done|].
  destruct handled; [done|].
  destruct (checkAccess cfg env sender) eqn:Hacc.
  - simpl. intros [= <-]. by exists sender, text.
  - intros H. by apply then_None in H.
  - destruct (upsertPairingRequest env sender) as [code created].
    destruct (truthy code);
      match goal with
      | |- context [ ?m ≫= ?k ] =>
          pose proof (then_None m msg) as Hn; destruct (m ≫= k)
      end; done.
Qed.

Lemma truthy_Some o (x : string) : truthy o = Some x → o = Some x ∧ x ≠ "".
Proof.
  destruct o as [y|]; [|done]. simpl.
  destruct (decide (y = "")); [done|]. by intros [= ->].
Qed.

Lemma content_or_clear (e : MatrixEvent) :
  default (getContent e) (getClearContent e) = getContent e.
Proof. unfold getContent. by destruct (getClearContent e). Qed.

Lemma delivered_app (a b : list Effect) :
  delivered (a ++ b) = delivered a ++ delivered b.
Proof. apply omap_app. Qed.

Lemma delivered_callOnMessage msg m :
  m ∈ delivered (callOnMessage env msg).1 →
  m = msg ∧ delivered (callOnMessage env msg).1 = [msg].
Proof.
  unfold callOnMessage. destruct (onMessage env) as [f|]; simpl.
  - destruct (f msg); simpl; by intros ->%list_elem_of_singleton.
  - by intros ?%elem_of_nil.
Qed.

(** X6. Text reaches the agent only through access control: every message
    that [handleMessageEvent] passes to [onMessage] for an [m.text] or
    [m.notice] event comes from a sender whom [checkAccess] allows and who
    is not the bot itself, carries the event's body unchanged, names the
    room the event was handled in, and is the only message delivered for
    that event. *)
Theorem text_delivery_requires_access s o room c m :
  client s = Some c →
  (msgtype (getContent (events s o)) = Some "m.text"
   ∨ msgtype (getContent (events s o)) = Some "m.notice") →
  m ∈ delivered (handleMessageEvent cfg env s o room).1 →
  checkAccess cfg env (userId m) = Allowed ∧
  getSender (events s o) = Some (userId m) ∧
  Some (userId m) ≠ getUserId c ∧
  body (getContent (events s o)) = Some (text m) ∧
  chatId m = roomId room ∧
  delivered (handleMessageEvent cfg env s o room).1 = [m].
Proof.
  intros Hc Hty. unfold handleMessageEvent. rewrite Hc, content_or_clear.
  destruct (truthy (getUserId c)) as [our|] eqn:Hour;
    [|by intros ?%elem_of_nil].
  apply truthy_Some in Hour as [Hour _].
  assert (bool_decide (msgtype (getContent (events s o)) = Some "m.text")
          || bool_decide (msgtype (getContent (events s o)) = Some "m.notice")
          = true) as ->.
  { destruct Hty as [-> | ->]; done. }
  rewrite fst_bind. cbn [tell fst snd app].
  rewrite fst_bind.
  change (delivered (?e :: ?l)) with (delivered ([e] ++ l)).
  rewrite !delivered_app.
  rewrite (only_delivered _ (handleTextMessage_no_delivery room (events s o) our)).
  cbn [omap app].
  destruct (handleTextMessage cfg env room (events s o) our).2
    as [err|[msg|]] eqn:Hres; try by intros ?%elem_of_nil.
  intros [-> Hd]%delivered_callOnMessage. rewrite Hd.
  apply handleTextMessage_Some in Hres
    as (sender & text & Hs & Hb & Hne & Hacc & ->).
  apply truthy_Some in Hs as [Hs _]. apply truthy_Some in Hb as [Hb _].
  simpl. rewrite Hour. repeat split; try done. congruence.
Qed.

(** X7. Slash commands are answered before access control: for a message
    of another user whose body starts with "/", when the command callback
    returns a non-empty reply, [handleTextMessage] calls the callback with
    the trimmed text after the slash, sends the reply to the room and
    returns no message, whatever the DM policy and the allow list say about
    the sender; nothing else happens (no pairing request, no refusal). *)
Theorem command_answered_before_access room e u sender text reply :
  truthy (getSender e) = Some sender →
  truthy (body (getContent e)) = Some text →
  sender ≠ u →
  starts_with_slash text = true →
  command_reply env text = Some reply →
  handleTextMessage cfg env room e u
  = ([OnCommand (trim (slice1 text)); SendMessage (roomId room) reply],
     match sendFails env (roomId room) reply with
     | Some err => inl err
     | None => inr None
     end).
Proof.
  intros Hs Hb Hne Hslash Hreply. unfold handleTextMessage.
  rewrite Hs, Hb, Hslash. rewrite decide_False by done.
  rewrite (bool_decide_false _ Hne), andb_false_r.
  unfold command_reply in Hreply. unfold handleCommand.
  destruct (onCommand env) as [f|]; [|done].
  destruct (f (trim (slice1 text))) as [err|r]; [done|].
  simpl. rewrite Hreply. unfold sendMessage. simpl.
  by destruct (sendFails env (roomId room) reply).
Qed.

Lemma before_colon_app n srv :
  contains_char ":" n = false → before_colon (n +:+ ":" +:+ srv) = Some n.
Proof.
  induction n as [|c n IH]; [done|]. simpl.
  intros [Hc Hn]%orb_false_elim. apply bool_decide_eq_false in Hc.
  rewrite (IH Hn). simpl.
  destruct c as [[] [] [] [] [] [] [] []]; try done.
Qed.

(** X8. [extractDisplayName]: for a Matrix id "@local:server" with a
    non-empty local part (which holds no colon) the display name is the
    local part; and a non-empty user id never gets an empty display name
    (an id of another shape is returned as it is). *)
Theorem extractDisplayName_localpart (n srv u : string) :
  (n ≠ "" → contains_char ":" n = false →
     extractDisplayName ("@" +:+ n +:+ ":" +:+ srv) = n) ∧
  (u ≠ "" → extractDisplayName u ≠ "").
Proof.
  split.
  - intros Hn Hc. unfold extractDisplayName.
    change ("@" +:+ n +:+ ":" +:+ srv) with (String "@" (n +:+ ":" +:+ srv)).
    cbv beta iota. rewrite (before_colon_app _ _ Hc). by destruct n.
  - intros Hu. unfold extractDisplayName.
    repeat case_match; simplify_eq; done.
Qed.

End Adapter_text_messages.

Section Adapter_text_messages_witnesses.
Import Adapter AdapterSpec AdapterExtraSpec AdapterScenarios AdapterExtraScenarios.

(** Witness for X6: Alice, who is on the allow list, says hello. *)
Lemma text_delivery_requires_access_witness :
  checkAccess cfg_allowlist env_commands "@alice:example.org" = Allowed ∧
  delivered (handleMessageEvent cfg_allowlist env_commands hello_from_alice 4 room1).1
  = [ mkInbound "matrix" "!room:example.org" "@alice:example.org" "alice"
        "@alice:example.org" (Some "$T1") "hello" 0 false None ].
Proof.
  pose proof (text_delivery_requires_access cfg_allowlist env_commands
                hello_from_alice 4 room1 bot
                (mkInbound "matrix" "!room:example.org" "@alice:example.org"
                   "alice" "@alice:example.org" (Some "$T1") "hello" 0 false None)
                eq_refl (or_introl eq_refl) (list_elem_of_here _ _))
    as (Hacc & _ & _ & _ & _ & Hd).
  split; [exact Hacc|exact Hd].
Defined.

(** Witness for X7: Mallory is not on the allow list; her "/status",
    followed by a no-break space, is answered all the same. *)
Lemma command_answered_before_access_witness :
  checkAccess cfg_allowlist env_commands "@mallory:example.org" = Blocked ∧
  handleTextMessage cfg_allowlist env_commands room1
    (text_event "@mallory:example.org" ("/status" +:+ nbsp)) "@bot:example.org"
  = ([OnCommand "status"; SendMessage "!room:example.org" "ran status"], inr None).
Proof.
  split; [reflexivity|].
  exact (command_answered_before_access cfg_allowlist env_commands room1
           (text_event "@mallory:example.org" ("/status" +:+ nbsp))
           "@bot:example.org" "@mallory:example.org" ("/status" +:+ nbsp)
           "ran status"
           eq_refl eq_refl ltac:(discriminate) eq_refl eq_refl).
Defined.

(** Witness for X8. *)
Lemma extractDisplayName_localpart_witness :
  extractDisplayName "@alice:example.org" = "alice".
Proof.
  destruct (extractDisplayName_localpart "alice" "example.org" "") as [H _].
  apply H; [discriminate|reflexivity].
Defined.
End Adapter_text_messages_witnesses.

Section Adapter_runs.
Import Adapter AdapterSpec AdapterExtraSpec.
Context (cfg : Config) (env : Env).

Lemma observers_keep_state o (l : list nat) t :
  state (foldl (λ t _, call_handler (state t, decryptedObserver cfg env o (state t)) t)
           t l) = state t.
Proof.
  revert t. induction l as [|x l IH]; intros t; cbn [foldl]; [done|].
  rewrite IH. unfold call_handler.
  by destruct (decryptedObserver cfg env o (state t)) as [tr res].
Qed.

Lemma refs_step i t x :
  x ∈ refs (state (step cfg env i t)) → x ∈ refs (state t).
Proof.
  destruct i as [o' e| |now o' room toStart|o' ty c|now|now]; unfold step; cbv zeta.
  - done.
  - done.
  - pose proof (timelineHandler_refs cfg env now o' room toStart (state t))
      as [Hp _].
    unfold call_handler.
    destruct (timelineHandler cfg env now o' room toStart (state t))
      as [s' [tr res]]. apply Hp.
  - by rewrite observers_keep_state.
  - pose proof (retryPendingDecryptions_refs cfg env now (state t)) as [Hp _].
    destruct (retryPendingDecryptions cfg env now (state t)) as [s' tr].
    apply Hp.
  - pose proof (restoreKeysFromBackup_refs cfg env now (state t)) as [Hp _].
    destruct (restoreKeysFromBackup cfg env now (state t)) as [s' tr].
    apply Hp.
Qed.

Lemma refs_run inputs t x :
  x ∈ refs (state (foldl (flip (step cfg env)) t inputs)) → x ∈ refs (state t).
Proof.
  revert t. induction inputs as [|i inputs IH]; intros t; cbn [foldl]; [done|].
  intros Hin%IH. by apply refs_step in Hin.
Qed.

(** X9. The adapter never enqueues: no handler adds an entry to the
    pending map (the only [set] calls are the sweep's re-insertions).  So
    from a start with an empty pending map, the map is empty after every
    run, a retry sweep at that point does nothing, and every event handed
    to [handleMessageEvent] during the run was handed over by the timeline
    handler or by the "Event.decrypted" observer of that event, never by a
    sweep. *)
Theorem pending_map_stays_empty (inputs : list Input) (s : State) :
  pendingEncryptedEvents s = JsMap.empty →
  let t := run cfg env inputs s in
  pendingEncryptedEvents (state t) = JsMap.empty ∧
  (∀ now, retryPendingDecryptions cfg env now (state t) = (state t, [])) ∧
  (∀ o, o ∈ dispatched (effects t) → Exists (delivers o) inputs).
Proof.
  intros Hs t.
  assert (pendingEncryptedEvents (state t) = JsMap.empty) as Hempty.
  { destruct (pendingEncryptedEvents (state t)) as [|[k x] l] eqn:Hp; [done|].
    assert (x ∈ refs (state t)) as Hin.
    { unfold refs. rewrite Hp. apply list_elem_of_here. }
    apply refs_run in Hin. unfold refs in Hin. simpl in Hin. rewrite Hs in Hin.
    by apply elem_of_nil in Hin. }
  split; [done|]. split.
  - intros now. unfold retryPendingDecryptions. rewrite Hempty.
    by destruct (client (state t)).
  - intros o Hin. destruct (decide (Exists (delivers o) inputs)) as [|Hno]; [done|].
    apply not_Exists_Forall in Hno; [|apply _].
    exfalso. revert Hin. apply untouched_run.
    + eapply Forall_impl; [exact Hno|]. by intros i Hi.
    + unfold refs. rewrite Hs. by intros ?%elem_of_nil.
Qed.

Lemma filter_eq_ne (o : nat) (l : list nat) :
  filter (λ o', o' = o) (filter (λ o', o' ≠ o) l) = [].
Proof.
  induction l as [|x l IH]; [done|]. rewrite filter_cons.
  destruct (decide (x ≠ o)) as [Hne|]; [|done].
  rewrite filter_cons. by rewrite decide_False.
Qed.

Lemma decryptedObserver_effects o (l : list nat) t :
  let t' := foldl (λ t _, call_handler (state t, decryptedObserver cfg env o (state t)) t)
              t l in
  dispatched (effects t')
  = dispatched (effects t)
    ++ match getClearContent (events (state t) o), observer_room (state t) o with
       | Some _, Some _ => replicate (length l) o
       | _, _ => []
       end.
Proof.
  revert t. induction l as [|x l IH]; intros t; cbn [foldl].
  - simpl. by repeat case_match; rewrite app_nil_r.
  - simpl. simpl in IH. rewrite IH. clear IH.
    destruct (decryptedObserver cfg env o (state t)) as [tr res] eqn:Hobs.
    simpl. rewrite dispatched_app, <- app_assoc. f_equal.
    unfold decryptedObserver, observer_room in *.
    destruct (getClearContent (events (state t) o)).
    + destruct (client (state t) ≫= _) as [room|].
      * pose proof (dispatched_handleMessageEvent cfg env (state t) o room) as Hd.
        rewrite Hobs in Hd. simpl in Hd. by rewrite Hd.
      * unfold ret in Hobs. by simplify_eq.
    + unfold ret in Hobs. by simplify_eq.
Qed.

(** X10. The "Event.decrypted" observer fires once per registration and is
    then gone.  When the SDK decrypts event [o], the event is handed to
    [handleMessageEvent] once for every observer registered on it, provided
    the client knows the event's room (not at all otherwise); afterwards no
    observer is left on [o], the observers on other events are as before,
    and a second "Event.decrypted" for [o] has no effect.  Each delivery of
    an undecryptable event of another user on the timeline registers one
    more observer, so an event delivered twice before its key arrives is
    processed twice. *)
Theorem decrypted_observer_fires_per_registration (t : Run) (o : nat)
    (ty ty' : string) (c c' : Content) :
  let t1 := step cfg env (EventDecrypted o ty c) t in
  decryptedObservers (state t1)
  = filter (λ o', o' ≠ o) (decryptedObservers (state t)) ∧
  registrations o (state t1) = 0%nat ∧
  dispatched (effects t1)
  = dispatched (effects t)
    ++ match observer_room (state t) o with
       | Some _ => replicate (registrations o (state t)) o
       | None => []
       end ∧
  effects (step cfg env (EventDecrypted o ty' c') t1) = effects t1 ∧
  unhandled (step cfg env (EventDecrypted o ty' c') t1) = unhandled t1 ∧
  (∀ now room toStart,
     getType (events (state t) o) = "m.room.encrypted" →
     getClearContent (events (state t) o) = None →
     sender_is_own (state t) (events (state t) o) = false →
     registrations o (timelineHandler cfg env now o (Some room) toStart (state t)).1
     = S (registrations o (state t))).
Proof.
  intros t1.
  assert (decryptedObservers (state t1)
          = filter (λ o', o' ≠ o) (decryptedObservers (state t))) as Hobs.
  { unfold t1, step. cbv zeta. by rewrite observers_keep_state. }
  assert (registrations o (state t1) = 0%nat) as Hreg.
  { unfold registrations. rewrite Hobs.
    by rewrite filter_eq_ne. }
  split; [done|]. split; [done|].
  unfold registrations in Hreg. apply length_zero_iff_nil in Hreg.
  split; [|split; [|split]].
  - unfold t1, step. cbv zeta. rewrite decryptedObserver_effects. simpl.
    rewrite fn_lookup_insert. simpl. unfold observer_room, registrations. simpl.
    rewrite fn_lookup_insert. done.
  - unfold step at 1. cbv zeta. by rewrite Hreg.
  - unfold step at 1. cbv zeta. by rewrite Hreg.
  - intros now room toStart Hty Hclear Hown. unfold timelineHandler.
    rewrite Hty, Hclear, Hown. simpl. unfold registrations. simpl.
    rewrite filter_app, length_app, filter_cons, decide_True by done.
    simpl. lia.
Qed.
Lemma unhandled_step i t :
  ¬ is_decrypted_input i → unhandled (step cfg env i t) = unhandled t.
Proof.
  destruct i as [o' e| |now o' room toStart|o' ty c|now|now]; unfold step; cbv zeta;
    intros Hi; try done.
  - pose proof (timelineHandler_never_rejects cfg env now o' room toStart (state t))
      as Hok.
    unfold call_handler.
    destruct (timelineHandler cfg env now o' room toStart (state t))
      as [s' [tr res]]. simpl in *. rewrite Hok. apply app_nil_r.
  - by destruct (retryPendingDecryptions cfg env now (state t)).
  - by destruct (restoreKeysFromBackup cfg env now (state t)).
Qed.

(** X11. Apart from the "Event.decrypted" observer, no handler of the
    adapter lets a rejection escape: in a run in which the SDK decrypts no
    event late, whatever the timeline delivers, whatever keys arrive and
    whatever the collaborators do (the agent's callback, the transport and
    the crypto calls may all fail), no promise rejection is left
    unhandled. *)
Theorem rejections_only_from_observer (inputs : list Input) (s : State) :
  Forall (λ i, ¬ is_decrypted_input i) inputs →
  unhandled (run cfg env inputs s) = [].
Proof.
  intros Hin. unfold run.
  assert (unhandled (mkRun s [] []) = []) as Ht by done.
  revert Ht. generalize (mkRun s [] []).
  induction Hin as [|i inputs Hi _ IH]; intros t Ht; cbn [foldl]; [done|].
  apply IH. unfold flip. by rewrite unhandled_step.
Qed.

(** X12. What the timeline handler skips.  For an event of another user in
    a known room: an event whose type reads [m.room.message] is handed to
    [handleMessageEvent] only when it is live and the first sync is over
    (back-paginated events and events of the initial sync are skipped);
    this holds for a plain message and for a message that the SDK has
    decrypted by then, whose type reads as the clear type.  An
    [m.room.encrypted] event that is not decrypted yet is never skipped:
    also while the first sync is running and for back-paginated events the
    handler registers an "Event.decrypted" observer on it and requests its
    room key, and hands nothing to message processing in that pass. *)
Theorem timeline_skip_rule now o room toStart s :
  sender_is_own s (events s o) = false →
  let r := timelineHandler cfg env now o (Some room) toStart s in
  (getType (events s o) = "m.room.message" →
     dispatched r.2.1 = if toStart || negb (initialSyncDone s) then [] else [o]) ∧
  (∀ c, clearEvent (events s o) = Some ("m.room.message", c) →
     dispatched r.2.1 = if toStart || negb (initialSyncDone s) then [] else [o]) ∧
  (getType (events s o) = "m.room.encrypted" →
     getClearContent (events s o) = None →
     r = (set_observers (λ l, l ++ [o]) s,
          try_catch (requestRoomKey s (events s o)) logError)
     ∧ dispatched r.2.1 = []).
Proof.
  intros Hown r.
  assert (getType (events s o) = "m.room.message" →
          dispatched r.2.1
          = if toStart || negb (initialSyncDone s) then [] else [o]) as Hmsg.
  { unfold r, timelineHandler. rewrite Hown. intros ->. simpl.
    destruct (toStart || negb (initialSyncDone s)); [done|].
    simpl. destruct (handleMessageEvent cfg env s o room) as [tr' res] eqn:Hh.
    pose proof (dispatched_handleMessageEvent cfg env s o room) as Hd.
    rewrite Hh in Hd. simpl in Hd.
    destruct res as [err|[]]; simpl; [|done].
    rewrite dispatched_app, Hd. done. }
  split; [done|]. split.
  - intros c Hc. apply Hmsg. unfold getType. by rewrite Hc.
  - intros Hty Hclear.
    assert (r = (set_observers (λ l, l ++ [o]) s,
                 try_catch (requestRoomKey s (events s o)) logError)) as Hr.
    { unfold r, timelineHandler. rewrite Hty, Hown, Hclear. done. }
    split; [done|]. rewrite Hr. simpl.
    rewrite dispatched_try_catch_logError. apply quiet_requestRoomKey.
Qed.
End Adapter_runs.

Section Adapter_runs_witnesses.
Import Adapter AdapterSpec AdapterExtraSpec AdapterScenarios AdapterExtraScenarios.

(** Witness for X9: the run in which Alice's message arrives before its
    key. *)
Lemma pending_map_stays_empty_witness :
  pendingEncryptedEvents (state (run cfg0 env0 key_after_message start))
  = JsMap.empty.
Proof.
  exact (proj1 (pending_map_stays_empty cfg0 env0 key_after_message start eq_refl)).
Defined.

(** Witness for X11: the agent is down while a decrypted message and new
    keys arrive. *)
Lemma rejections_only_from_observer_witness :
  unhandled (run cfg0 env_agent_down (key_before_message ++ [RoomKeysUpdated 2000])
               start) = [].
Proof.
  apply rejections_only_from_observer.
  repeat (apply Forall_cons_2; [by intros []|]). apply Forall_nil_2.
Defined.

(** Witness for X12: during the initial sync a decrypted message is
    skipped, and an undecryptable event gets its observer. *)
Lemma timeline_skip_rule_witness :
  let s := set_initialSyncDone false
             (set_event 2 (encrypted "$E2" "!room:example.org" 0)
                (set_event 1
                   (with_clear "m.room.message" hello
                      (encrypted "$E1" "!room:example.org" 0))
                   start)) in
  dispatched (timelineHandler cfg0 env0 1000 1 (Some room1) false s).2.1 = [] ∧
  decryptedObservers (timelineHandler cfg0 env0 1000 2 (Some room1) false s).1
  = [2%nat].
Proof.
  intros s. split.
  - destruct (timeline_skip_rule cfg0 env0 1000 1%nat room1 false s eq_refl)
      as (_ & H & _).
    exact (H hello eq_refl).
  - destruct (timeline_skip_rule cfg0 env0 1000 2%nat room1 false s eq_refl)
      as (_ & _ & H).
    destruct (H eq_refl eq_refl) as [Hr _].
    exact (f_equal (λ r, decryptedObservers r.1) Hr).
Defined.
End Adapter_runs_witnesses.

Section Adapter_proactive_containment.
Import Adapter AdapterSpec AdapterExtraSpec.
Context (cfg : Config) (env : Env).

Ltac only_tac :=
  repeat first
    [ apply only_ret
    | apply only_throw
    | apply only_tell; done
    | apply only_bind; [|intros ?]
    | apply only_try_catch; [|intros ?]
    | case_match
    | done ].

Lemma only_requested own {A} (m : M A) d :
  only (not_own_request own) m → d ∈ requested m.1 → Some d ≠ own.
Proof.
  unfold only. induction 1 as [|e tr He _ IH]; [by intros ?%elem_of_nil|].
  destruct e; simpl in *; try done.
  intros [->|?]%elem_of_cons; [done|by apply IH].
Qed.

Lemma only_fetches {A} (m : M A) : only not_fetch m → fetches m.1 = 0%nat.
Proof.
  unfold only, fetches. induction 1 as [|e tr He _ IH]; [done|].
  destruct e; simpl in *; done.
Qed.

Lemma fetches_app a b : fetches (a ++ b) = (fetches a + fetches b)%nat.
Proof. unfold fetches. by rewrite omap_app, length_app. Qed.

Lemma fetches_bind {A B} (m : M A) (k : A → M B) :
  fetches (m ≫= k).1
  = (fetches m.1 + match m.2 with inr a => fetches (k a).1 | inl _ => 0 end)%nat.
Proof. rewrite fst_bind, fetches_app. by destruct m.2. Qed.

Lemma fetches_try_catch {A} (m : M A) h :
  fetches (try_catch m h).1
  = (fetches m.1 + match m.2 with inl err => fetches (h err).1 | inr _ => 0 end)%nat.
Proof.
  destruct m as [tr [err|a]]; simpl; [|lia].
  destruct (h err). simpl. apply fetches_app.
Qed.

Lemma logError_only P err : P (LogError err) → only P (logError err).
Proof. intros. by apply only_tell. Qed.

Lemma fetchDeviceList_own own n k :
  only (not_own_request own) (fetchDeviceList env n k).
Proof.
  revert k. induction n as [|n IH]; intros k; cbn [fetchDeviceList];
    [apply only_ret|].
  apply only_bind; [by apply only_tell|]. intros _.
  destruct (getUserDeviceInfo env k) as [err|[[|d ds]|]];
    try apply only_throw; try apply only_ret;
    (apply only_bind; [by apply only_tell|intros _; apply IH]).
Qed.

Lemma fetchDeviceList_fetches n k : (fetches (fetchDeviceList env n k).1 ≤ n)%nat.
Proof.
  revert k. induction n as [|n IH]; intros k; cbn [fetchDeviceList]; [done|].
  rewrite fetches_bind. change (fetches (tell FetchUserDeviceInfo).1) with 1%nat.
  cbn [tell snd]. specialize (IH (S k)).
  destruct (getUserDeviceInfo env k) as [err|[[|d ds]|]];
    try (change (1 + 0 ≤ S n)%nat; lia).
  all: rewrite fetches_bind; change (fetches (tell (Sleep 3000)).1) with 0%nat;
    cbn [tell snd]; lia.
Qed.

Lemma requestDeviceVerification_own own u d :
  Some d ≠ own → only (not_own_request own) (requestDeviceVerification env u d).
Proof. intros. unfold requestDeviceVerification. only_tac. Qed.

Lemma requestDeviceVerification_no_fetch u d :
  only not_fetch (requestDeviceVerification env u d).
Proof. unfold requestDeviceVerification. only_tac. Qed.

Lemma verifyDevices_own own u devices :
  only (not_own_request own) (verifyDevices env u own devices).
Proof.
  induction devices as [|d devices IH]; cbn [verifyDevices]; [apply only_ret|].
  apply only_bind; [|by intros _]. unfold verifyDevice.
  case_bool_decide as Hd; [apply only_ret|].
  apply only_bind; [by apply only_tell|]. intros _.
  destruct (getDeviceVerificationStatus env d) as [err|[[]|]];
    try apply only_throw; try apply only_ret;
    (apply only_try_catch;
     [by apply requestDeviceVerification_own|intros ?; by apply logError_only]).
Qed.

Lemma verifyDevices_no_fetch own u devices :
  only not_fetch (verifyDevices env u own devices).
Proof.
  induction devices as [|d devices IH]; cbn [verifyDevices]; [apply only_ret|].
  apply only_bind; [|by intros _]. unfold verifyDevice.
  case_bool_decide as Hd; [apply only_ret|].
  apply only_bind; [by apply only_tell|]. intros _.
  destruct (getDeviceVerificationStatus env d) as [err|[[]|]];
    try apply only_throw; try apply only_ret;
    (apply only_try_catch;
     [by apply requestDeviceVerification_no_fetch|intros ?; by apply logError_only]).
Qed.

(** X13. [initiateProactiveVerification] is contained and bounded: it
    never rejects, whatever the SDK calls do (every failure ends in the
    log); it never sends a verification request to the bot's own device,
    neither on the configured-device path nor during discovery; and it
    fetches the device list at most 5 times. *)
Theorem proactive_verification_contained (s : State) :
  let m := initiateProactiveVerification cfg env s in
  m.2 = inr tt ∧
  (∀ c d, client s = Some c → d ∈ requested m.1 → Some d ≠ getDeviceId c) ∧
  (fetches m.1 ≤ 5)%nat.
Proof.
  intros m. unfold m, initiateProactiveVerification.
  destruct (client s) as [c|]; [|split; [done|split; [by intros ?? [=]|cbn; lia]]].
  destruct (negb (verificationHandler s) || negb (getCrypto c)).
  { split; [done|]. split; [|cbn; lia].
    intros ?? _ Hin. by apply elem_of_nil in Hin. }
  destruct (truthy (getUserId c)) as [u|].
  2:{ split; [done|]. split; [|cbn; lia].
      intros ?? _ Hin. by apply elem_of_nil in Hin. }
  split; [apply try_catch_logError_ok|]. split.
  - intros ? d [= <-]. apply only_requested.
    apply only_try_catch; [|intros ?; by apply logError_only].
    apply only_bind.
    + destruct (configuredDevice cfg) as [target|]; [|apply only_ret].
      case_bool_decide as Hown; [apply only_ret|].
      apply only_try_catch.
      * apply only_bind; [by apply requestDeviceVerification_own|].
        intros _. apply only_ret.
      * intros err. apply only_bind; [by apply logError_only|].
        intros _. apply only_ret.
    + intros [|]; [apply only_ret|]. unfold discoverAndVerify.
      apply only_bind; [apply fetchDeviceList_own|].
      intros [devices|]; [apply verifyDevices_own|apply only_ret].
  - rewrite fetches_try_catch.
    match goal with |- context [ (?x ≫= ?k) ] => set (body := x ≫= k) end.
    assert (fetches body.1 ≤ 5)%nat as Hb.
    { unfold body. rewrite fetches_bind.
      match goal with |- (fetches (?x).1 + _ ≤ _)%nat =>
        assert (fetches x.1 = 0%nat) as ->
      end.
      { apply only_fetches.
        destruct (configuredDevice cfg) as [target|]; [|apply only_ret].
        case_bool_decide as Hown; [apply only_ret|].
        apply only_try_catch.
        - apply only_bind; [by apply requestDeviceVerification_no_fetch|].
          intros _. apply only_ret.
        - intros err. apply only_bind; [by apply logError_only|].
          intros _. apply only_ret. }
      cbn [plus].
      match goal with
      | |- context [ match ?x with inl _ => _ | inr _ => _ end ] =>
          destruct x as [err|[|]]
      end; [lia|change (0 ≤ 5)%nat; lia|].
      unfold discoverAndVerify. rewrite fetches_bind.
      pose proof (fetchDeviceList_fetches maxRetries 0) as Hf.
      unfold maxRetries in *.
      destruct (fetchDeviceList env 5 0).2 as [err|[devices|]]; cbv beta iota;
        [lia| |change (fetches (ret ()).1) with 0%nat; lia].
      rewrite (only_fetches _ (verifyDevices_no_fetch _ _ _)). lia. }
    destruct body.2 as [err|]; [change (fetches (logError err).1) with 0%nat|];
      lia.
Qed.
End Adapter_proactive_containment.

(** ** Invitations *)
Section Invite_policy.
Import Adapter Async Invite HandlersSpec.
Context (joinRoomFails : string → option string).

(** X14. Which invitations the bot accepts.  The membership listener never
    rejects.  It joins the room of the event, and only that room, exactly
    when the first sync is over, auto-join is on, the member event is an
    invitation with a sender and, under the "allowlist" policy, the sender
    is on the allow list by exact match; under the "open" and the "pairing"
    policy every sender's invitation is accepted.  In every other case the
    listener does nothing. *)
Theorem invite_policy (cfg : Config) (autoJoinRooms : bool) (s : State)
    (membership : string) (sender : option string) (roomId : string) :
  let m := membershipListener joinRoomFails cfg autoJoinRooms s membership
             sender roomId in
  m.2 = inr tt ∧
  (accepts cfg autoJoinRooms s membership sender → joined m.1 = [roomId]) ∧
  (¬ accepts cfg autoJoinRooms s membership sender → m.1 = []).
Proof.
  intros m. unfold m, membershipListener, accepts.
  destruct (initialSyncDone s); simpl.
  2:{ split; [done|]. split; [by intros [[=] _]|done]. }
  destruct autoJoinRooms.
  2:{ split; [done|]. split; [by intros (_ & [=] & _)|done]. }
  unfold handleMembershipEvent.
  destruct (truthy sender) as [u|] eqn:Hu.
  2:{ split; [done|]. split; [by intros (_ & _ & _ & ? & [=] & _)|done]. }
  case_bool_decide as Hm.
  2:{ split; [done|]. split; [by intros (_ & _ & ? & _)|done]. }
  unfold handleInvite. simpl.
  destruct (dmPolicy cfg) eqn:Hp.
  - split; [by destruct (joinRoomFails roomId)|]. split.
    + intros _. by destruct (joinRoomFails roomId).
    + intros []. repeat split; try done. by exists u.
  - case_bool_decide as Hin; simpl.
    + split; [by destruct (joinRoomFails roomId)|]. split.
      * intros _. by destruct (joinRoomFails roomId).
      * intros []. repeat split; try done. by exists u.
    + split; [done|]. split; [|done].
      intros (_ & _ & _ & u' & [= <-] & Hal). by destruct Hin; apply Hal.
  - split; [by destruct (joinRoomFails roomId)|]. split.
    + intros _. by destruct (joinRoomFails roomId).
    + intros []. repeat split; try done. by exists u.
Qed.
End Invite_policy.

(** ** Auto-trust of the user's devices *)
Section Trust_devices.
Import Adapter Async Trust HandlersSpec.
Context (userDeviceInfo : string + option (list string))
        (status : string → string + option bool)
        (setFails : string → option string).

Lemma async_snd_bind {E A B} (m : @Async.T E A) (k : A → Async.T B) :
  (m ≫= k).2 = match m.2 with inl err => inl err | inr a => (k a).2 end.
Proof.
  destruct m as [tr [err|a]]; [done|].
  unfold mbind, Async.T_bind, Async.bind. simpl. by destruct (k a).
Qed.

Lemma async_fst_bind {E A B} (m : @Async.T E A) (k : A → Async.T B) :
  (m ≫= k).1 = m.1 ++ match m.2 with inl err => [] | inr a => (k a).1 end.
Proof.
  destruct m as [tr [err|a]]; simpl; [by rewrite app_nil_r|].
  unfold mbind, Async.T_bind, Async.bind. by destruct (k a).
Qed.

Lemma marked_app a b : marked (a ++ b) = marked a ++ marked b.
Proof. apply omap_app. Qed.

(** One device: what is marked, whatever fails. *)
Lemma trustDevice_marked u own d :
  ∀ x, x ∈ marked (trustDevice status setFails u own d).1 →
       x = d ∧ Some d ≠ own ∧ status d ≠ inr (Some true).
Proof.
  intros x. unfold trustDevice. case_bool_decide as Hown;
    [by intros ?%elem_of_nil|].
  simpl. destruct (status d) as [err|[[]|]] eqn:Hst; simpl;
    try by intros ?%elem_of_nil.
  all: destruct (setFails d); simpl; by intros ->%list_elem_of_singleton.
Qed.

Lemma trustDevices_marked u own devices :
  ∀ x, x ∈ marked (trustDevices status setFails u own devices).1 →
       x ∈ devices ∧ Some x ≠ own ∧ status x ≠ inr (Some true).
Proof.
  induction devices as [|d devices IH]; intros x; cbn [trustDevices].
  - by intros ?%elem_of_nil.
  - rewrite async_fst_bind, marked_app, elem_of_app. intros [Hin|Hin].
    + apply trustDevice_marked in Hin as (-> & ? & ?).
      split; [apply list_elem_of_here|done].
    + destruct (trustDevice status setFails u own d).2;
        [by apply elem_of_nil in Hin|].
      apply IH in Hin as (? & ? & ?). split; [by apply list_elem_of_further|done].
Qed.

(** The loop when no call fails. *)
Lemma trustDevices_ok u own devices :
  (∀ d, d ∈ devices → ∃ st, status d = inr st) →
  (∀ d, setFails d = None) →
  let m := trustDevices status setFails u own devices in
  m.2 = inr tt ∧ marked m.1 = to_mark status own devices ∧ Forall no_error m.1.
Proof.
  intros Hst Hset. induction devices as [|d devices IH]; cbn [trustDevices].
  - done.
  - destruct IH as (IH2 & IHm & IHe).
    { intros d' Hd'. apply Hst. by apply list_elem_of_further. }
    rewrite async_snd_bind, async_fst_bind, marked_app.
    unfold to_mark. rewrite filter_cons. fold (to_mark status own devices).
    destruct (Hst d) as [st Hd]; [apply list_elem_of_here|].
    unfold trustDevice. case_bool_decide as Hown.
    + simpl. rewrite decide_False by (intros [? _]; done). done.
    + simpl. rewrite Hd. destruct st as [[]|]; simpl.
      * rewrite decide_False by (intros [_ ?]; done).
        split; [done|]. split; [done|]. by apply Forall_cons_2.
      * rewrite Hset. simpl. rewrite decide_True by done.
        split; [done|]. split; [by rewrite IHm|].
        repeat (apply Forall_cons_2; [done|]). done.
      * rewrite Hset. simpl. rewrite decide_True by done.
        split; [done|]. split; [by rewrite IHm|].
        repeat (apply Forall_cons_2; [done|]). done.
Qed.

(** X15. [autoTrustDevices] never rejects; every device it marks as
    verified is one of the user's devices in the SDK's answer, is not the
    bot's own device and was not reported verified before, whatever fails
    on the way; and when no SDK call fails it marks exactly the listed
    devices that are neither the bot's own nor already verified, in list
    order, and logs no error. *)
Theorem autoTrustDevices_marks (s : State) :
  let m := autoTrustDevices userDeviceInfo status setFails s in
  m.2 = inr tt ∧
  (∀ c d, client s = Some c → d ∈ marked m.1 →
     (∃ devices, userDeviceInfo = inr (Some devices) ∧ d ∈ devices) ∧
     Some d ≠ getDeviceId c ∧ status d ≠ inr (Some true)) ∧
  (∀ c u devices,
     client s = Some c → getCrypto c = true → truthy (getUserId c) = Some u →
     userDeviceInfo = inr (Some devices) →
     (∀ d, d ∈ devices → ∃ st, status d = inr st) →
     (∀ d, setFails d = None) →
     marked m.1 = to_mark status (getDeviceId c) devices ∧ Forall no_error m.1).
Proof.
  intros m. unfold m, autoTrustDevices. split; [|split].
  - repeat case_match; try done.
    match goal with |- (Async.try_catch ?x _).2 = _ => by destruct x as [? [|[]]] end.
  - intros c d ->. destruct (getCrypto c); simpl; [|by intros ?%elem_of_nil].
    destruct (truthy (getUserId c)) as [u|]; [|by intros ?%elem_of_nil].
    destruct userDeviceInfo as [err|[devices|]]; simpl;
      try by intros ?%elem_of_nil.
    pose proof (trustDevices_marked u (getDeviceId c) devices d) as Hm.
    destruct (trustDevices status setFails u (getDeviceId c) devices)
      as [tr [err|[]]]; simpl in *.
    + rewrite marked_app, elem_of_app. intros [Hin|Hin].
      * apply Hm in Hin as (? & ? & ?). split; [by exists devices|done].
      * by apply elem_of_nil in Hin.
    + intros Hin. apply Hm in Hin as (? & ? & ?). split; [by exists devices|done].
  - intros c u devices -> -> -> Hinfo Hst Hset. rewrite Hinfo. simpl.
    destruct (trustDevices_ok u (getDeviceId c) devices Hst Hset)
      as (H2 & Hm & He).
    destruct (trustDevices status setFails u (getDeviceId c) devices)
      as [tr [err|[]]]; simpl in *; [done|].
    split; [done|]. by apply Forall_cons_2.
Qed.
End Trust_devices.

(** ** Pending images and image formats *)
Section Images_facts.
Import Images HandlersSpec.

Lemma find_none_room chatId (l : JsMap.t PendingImage) :
  (∀ kv, kv ∈ l → roomId kv.2 ≠ chatId) → first_of_room chatId l = None.
Proof.
  unfold first_of_room. induction l as [|kv l IH]; intros Hl; [done|].
  simpl. rewrite bool_decide_false by (apply Hl, list_elem_of_here).
  apply IH. intros kv' Hin. by apply Hl, list_elem_of_further.
Qed.

Lemma find_first_room chatId (l1 l2 : JsMap.t PendingImage) kv :
  (∀ kv', kv' ∈ l1 → roomId kv'.2 ≠ chatId) → roomId kv.2 = chatId →
  first_of_room chatId (l1 ++ kv :: l2) = Some kv.
Proof.
  unfold first_of_room. induction l1 as [|kv' l1 IH]; intros Hl Hkv; simpl.
  - by rewrite bool_decide_true.
  - rewrite bool_decide_false by (apply Hl, list_elem_of_here).
    apply IH; [|done]. intros ? Hin. by apply Hl, list_elem_of_further.
Qed.

Lemma delete_not_key {V} k (l : JsMap.t V) :
  k ∉ JsMap.keys l → JsMap.delete k l = l.
Proof.
  induction l as [|[k' v] l IH]; [done|]. simpl.
  intros [Hne Hl]%not_elem_of_cons. rewrite decide_False by done.
  by rewrite IH.
Qed.

Lemma delete_middle {V} k (v : V) (l1 l2 : JsMap.t V) :
  NoDup (JsMap.keys (l1 ++ (k, v) :: l2)) →
  JsMap.delete k (l1 ++ (k, v) :: l2) = l1 ++ l2.
Proof.
  unfold JsMap.keys. rewrite fmap_app, fmap_cons. simpl.
  intros (Hl1 & Hdisj & Hl2)%NoDup_app. apply list.NoDup_cons in Hl2 as [Hk2 _].
  induction l1 as [|[k' v'] l1 IH]; simpl.
  - rewrite decide_True by done. by apply delete_not_key.
  - simpl in *. apply list.NoDup_cons in Hl1 as [_ Hl1].
    rewrite decide_False.
    + rewrite IH; [done|done|]. intros x Hx. apply Hdisj. by apply list_elem_of_further.
    + intros ->. eapply Hdisj; apply list_elem_of_here.
Qed.

Lemma set_fresh_app {V} k (v : V) (l : JsMap.t V) :
  k ∉ JsMap.keys l → JsMap.set k v l = l ++ [(k, v)].
Proof.
  induction l as [|[k' v'] l IH]; [done|]. simpl.
  intros [Hne Hl]%not_elem_of_cons. rewrite decide_False by done.
  by rewrite IH.
Qed.

(** X16. [getPendingImage(chatId)] consumes the oldest pending image of
    the room: in a map with distinct keys it returns the data and format of
    the first entry, in insertion order, whose room is [chatId], and removes
    exactly that entry, leaving every other entry in place (entries of other
    rooms and later entries of the same room stay, however old they are:
    the stored timestamp is never read); without an entry for the room it
    returns null and leaves the map alone; and an image stored under a new
    event id in a map without an image of its room is returned by the next
    call, which restores the map. *)
Theorem getPendingImage_consumes_first (chatId : string)
    (l1 l2 m : JsMap.t PendingImage) (k : string) (img : PendingImage)
    (now : Z) (data : list Z) (fmt : string) :
  (NoDup (JsMap.keys (l1 ++ (k, img) :: l2)) →
   (∀ kv, kv ∈ l1 → roomId kv.2 ≠ chatId) → roomId img = chatId →
   getPendingImage chatId (l1 ++ (k, img) :: l2)
   = (Some (imageData img, format img), l1 ++ l2)) ∧
  ((∀ kv, kv ∈ m → roomId kv.2 ≠ chatId) →
   getPendingImage chatId m = (None, m) ∧
   (NoDup (JsMap.keys m) → k ∉ JsMap.keys m →
    getPendingImage chatId (storePendingImage now k chatId data fmt m)
    = (Some (data, fmt), m))).
Proof.
  split.
  - intros Hnd Hl1 Himg. unfold getPendingImage.
    rewrite (find_first_room chatId l1 l2 (k, img)) by done.
    by rewrite delete_middle.
  - intros Hm. split.
    + unfold getPendingImage. by rewrite find_none_room.
    + intros Hnd Hk. unfold getPendingImage, storePendingImage.
      rewrite set_fresh_app by done.
      rewrite (find_first_room chatId m [] (k, _)) by done.
      rewrite delete_middle, app_nil_r; [done|].
      unfold JsMap.keys. rewrite fmap_app. simpl.
      apply NoDup_app. split; [done|]. split.
      * intros x Hx ->%list_elem_of_singleton. done.
      * apply list.NoDup_cons. split; [apply not_elem_of_nil|apply NoDup_nil_2].
Qed.

(** X17. [detectImageFormat] looks at the first four bytes only: a buffer
    of fewer than four bytes is "unknown" (also a three-byte JPEG magic),
    the answer for a longer buffer does not change with what follows its
    first four bytes, so every RIFF container is reported as "webp" (the
    "WEBP" tag at offset 8 is not checked), and the answer is always one of
    the five format names. *)
Theorem detectImageFormat_header (data rest : list Z) :
  ((length data < 4)%nat → detectImageFormat data = "unknown") ∧
  ((4 ≤ length data)%nat →
     detectImageFormat (data ++ rest) = detectImageFormat data) ∧
  detectImageFormat (riff ++ rest) = "webp" ∧
  detectImageFormat data ∈ formats.
Proof.
  split; [|split; [|split]].
  - intros Hlen. unfold detectImageFormat.
    by rewrite (proj2 (Nat.ltb_lt _ _) Hlen).
  - intros Hlen.
    destruct data as [|a [|b [|c [|d tl]]]]; simpl in Hlen; try lia.
    reflexivity.
  - reflexivity.
  - unfold detectImageFormat, formats.
    repeat case_match; repeat first [apply list_elem_of_here | apply list_elem_of_further].
Qed.
End Images_facts.

(** ** Media handlers *)
Section Media_facts.
Import Adapter Async Media HandlersSpec.

Lemma app_inv_prefix (h a b : string) : h +:+ a = h +:+ b → a = b.
Proof. induction h as [|c h IH]; simpl; [done|]. intros [= ?]. by apply IH. Qed.

Lemma prefix_app_self (p s : string) : String.prefix p (p +:+ s) = true.
Proof.
  induction p as [|c p IH]; simpl; [by destruct s|].
  by destruct (Ascii.ascii_dec c c).
Qed.

Lemma auth_ne_fallback h srv mid : authUrl h srv mid ≠ fallbackUrl h srv mid.
Proof. unfold authUrl, fallbackUrl. by intros ?%app_inv_prefix. Qed.

Lemma split_slash_app srv mid :
  AdapterExtraSpec.contains_char "/" srv = false →
  split_slash (srv +:+ "/" +:+ mid) = Some (srv, mid).
Proof.
  induction srv as [|c srv IH]; [done|]. simpl.
  intros [Hc Hn]%orb_false_elim. apply bool_decide_eq_false in Hc.
  rewrite (IH Hn). simpl.
  destruct c as [[] [] [] [] [] [] [] []]; try done.
Qed.

(** X18. [downloadMatrixMedia] tries the authenticated v1 endpoint and then
    the v3 endpoint, in that order and at most once each.  A URL that does
    not start with "mxc://", or has no slash after the server name, is
    refused without any request.  For "mxc://server/mediaId": if v1 answers
    with a body that body is returned and v3 is not contacted; if v1 fails
    in any way (rejection or a status that is not ok) v3 is tried, and then
    its body is returned, its rejection is passed on, or, for a status that
    is not ok, the error "Failed to download media from both endpoints" is
    thrown. *)
Theorem download_tries_v1_then_v3 (fetch : string → FetchResult)
    (h srv mid other : string) :
  (String.prefix "mxc://" other = false →
     downloadMatrixMedia fetch h other = ([], inl ("Invalid MXC URL: " +:+ other))) ∧
  (AdapterExtraSpec.contains_char "/" srv = false →
     let v1 := authUrl h srv mid in
     let v3 := fallbackUrl h srv mid in
     downloadMatrixMedia fetch h ("mxc://" +:+ srv +:+ "/" +:+ mid)
     = match fetch v1 with
       | Ok data => ([Fetch v1], inr data)
       | _ =>
           ([Fetch v1; Fetch v3],
            match fetch v3 with
            | Ok data => inr data
            | Rejects err => inl err
            | NotOk _ => inl "Failed to download media from both endpoints"
            end)
       end).
Proof.
  split.
  - intros Hp. unfold downloadMatrixMedia. by rewrite Hp.
  - intros Hsrv v1 v3. unfold downloadMatrixMedia.
    rewrite prefix_app_self.
    change (string_drop 6 ("mxc://" +:+ srv +:+ "/" +:+ mid))
      with (srv +:+ "/" +:+ mid).
    rewrite split_slash_app by done. fold v1 v3. cbn [negb tryUrls].
    pose proof (auth_ne_fallback h srv mid) as Hne. fold v1 v3 in Hne.
    destruct (decide (v1 = v3)); [done|]. destruct (decide (v3 = v3)); [|done].
    destruct (fetch v1) as [err1|st1|data1]; [| |done];
      by destruct (fetch v3) as [err3|st3|data3].
Qed.
Lemma truthy_roomId (room : Room) :
  roomId room ≠ "" → truthy (Some (roomId room)) = Some (roomId room).
Proof. intros. simpl. by rewrite decide_False. Qed.

(** The audio handler on a message that is transcribed. *)
Lemma handleAudioMessage_transcribed menv room e content sender mxc data :
  truthy (getSender e) = Some sender → roomId room ≠ "" →
  typing_ok menv → mxcUrl content = Some mxc → download menv mxc = inr data →
  transcribeAudio menv data ≠ "" →
  isTranscriptionFailed (transcribeAudio menv data) = false →
  Media.handleAudioMessage menv room e content true
  = ([SendTyping (roomId room) true; DownloadMedia mxc; Transcribe;
      SendTyping (roomId room) false],
     inr (Some (voiceMessage menv room e sender (transcribeAudio menv data)))).
Proof.
  intros Hs Hr Hty Hmxc Hd Ht Hf. unfold Media.handleAudioMessage.
  rewrite Hs, truthy_roomId, Hmxc by done.
  unfold sendTyping, downloadAndDecryptMedia. rewrite !Hty, Hd.
  cbn [mbind Async.T_bind Async.bind Async.tell Async.ret Async.try_catch negb app].
  rewrite (bool_decide_false _ Ht), Hf. reflexivity.
Qed.

(** X19. Voice messages are not subject to access control.  When the audio
    of an [m.audio] event is downloaded and transcribed to a non-empty text
    that does not look like an error, the audio handler returns the voice
    message (text [VOICE] and the transcription in quotes, flagged as voice
    input) after switching the typing indicator on and off, and
    [handleMessageEvent] passes it to [onMessage]: neither the handler nor
    the adapter consults the DM policy, the allow list or the pairing store
    on this path, so the message of a sender whom [checkAccess] blocks is
    delivered as well. *)
Theorem voice_message_skips_access (cfg : Config) (env : Env) (menv : MediaEnv)
    (media : MatrixEvent → MediaContent) (s : State) (o : nat) (room : Room)
    (c : Client) (our sender mxc : string) (data : list Z)
    (f : InboundMessage → option string) :
  let e := events s o in
  let t := transcribeAudio menv data in
  client s = Some c → truthy (getUserId c) = Some our →
  msgtype (getContent e) = Some "m.audio" →
  truthy (getSender e) = Some sender → roomId room ≠ "" →
  typing_ok menv → mxcUrl (media e) = Some mxc → download menv mxc = inr data →
  t ≠ "" → isTranscriptionFailed t = false →
  onMessage env = Some f →
  Media.handleAudioMessage menv room e (media e) true
  = ([SendTyping (roomId room) true; DownloadMedia mxc; Transcribe;
      SendTyping (roomId room) false],
     inr (Some (voiceMessage menv room e sender t))) ∧
  isVoiceInput (voiceMessage menv room e sender t) = true ∧
  text (message (voiceMessage menv room e sender t))
  = "[VOICE] " +:+ dquote +:+ t +:+ dquote ∧
  delivered (handleMessageEvent cfg (with_audio env menv media true) s o room).1
  = [message (voiceMessage menv room e sender t)].
Proof.
  intros e t Hc Hour Hty Hs Hr Htyp Hmxc Hd Ht Hf Hon.
  pose proof (handleAudioMessage_transcribed menv room e (media e) sender mxc
                data Hs Hr Htyp Hmxc Hd Ht Hf) as Haudio.
  split; [exact Haudio|]. split; [done|]. split; [done|].
  unfold handleMessageEvent. rewrite Hc, content_or_clear, Hour. fold e.
  rewrite Hty. cbn [bool_decide decide_rel orb].
  rewrite !bool_decide_false by done. rewrite bool_decide_true by done.
  cbn [orb]. unfold Adapter.handleAudioMessage. rewrite Hc, Hour.
  unfold with_audio at 1. cbn [audioHandler]. fold e. rewrite Haudio.
  unfold callOnMessage. cbn [onMessage with_audio]. rewrite Hon.
  simpl. by destruct (f _).
Qed.

(** X20. A failure of the speech-to-text service is reported to the room
    as "No speech detected in audio": [transcribeAudio] catches the failure
    and returns "[STT Error] ..." as if it were the transcription, which
    [isTranscriptionFailed] recognises (as it does any transcription that
    starts with a bracket and holds the word Error); the handler then clears
    the typing indicator, sends that notice and returns no message, and the
    error handler of the audio handler is not involved. *)
Theorem stt_failure_reported_as_no_speech menv room e content sender mxc data err :
  isTranscriptionFailed ("[STT Error] " +:+ err) = true ∧
  (truthy (getSender e) = Some sender → roomId room ≠ "" →
   typing_ok menv → mxcUrl content = Some mxc → download menv mxc = inr data →
   stt menv data = inl err →
   Media.sendFails menv (roomId room) "No speech detected in audio" = None →
   Media.handleAudioMessage menv room e content true
   = ([SendTyping (roomId room) true; DownloadMedia mxc; Transcribe;
       SendTyping (roomId room) false;
       SendMessage (roomId room) "No speech detected in audio"],
      inr None)).
Proof.
  split; [reflexivity|].
  intros Hs Hr Hty Hmxc Hd Hstt Hsend. unfold Media.handleAudioMessage.
  rewrite Hs, truthy_roomId, Hmxc by done.
  unfold sendTyping, downloadAndDecryptMedia, sendMessage, transcribeAudio.
  rewrite !Hty, Hd, Hsend.
  cbn [mbind Async.T_bind Async.bind Async.tell Async.ret Async.try_catch negb app].
  rewrite Hstt.
  change (isTranscriptionFailed ("[STT Error] " +:+ err)) with true.
  rewrite orb_true_r. reflexivity.
Qed.
Ltac run_async :=
  cbn [mbind Async.T_bind Async.bind Async.tell Async.ret Async.throw
       Async.try_catch negb app fst snd].

(** X21. The typing indicator does not stay on: as long as the typing
    notification itself does not fail, on every path of the audio handler
    and of the image handler (missing URL, failed download, transcription
    off, no speech, image too large, a failing reply, success) the last
    typing notification sent, if any was sent, switches the indicator
    off. *)
Theorem typing_indicator_cleared menv room e content enabled :
  typing_ok menv →
  typing_cleared (Media.handleAudioMessage menv room e content enabled).1 ∧
  typing_cleared (Media.handleImageMessage menv room e content).1.
Proof.
  intros Hty. unfold typing_cleared. split.
  - unfold Media.handleAudioMessage, sendTyping, sendMessage,
      downloadAndDecryptMedia.
    destruct (truthy (getSender e)); [|by left].
    destruct (truthy (Some (roomId room))) as [r|]; [|by left].
    rewrite !Hty. right.
    destruct (mxcUrl content) as [mxc|]; run_async;
      [|by destruct (Media.sendFails menv r _)].
    destruct (download menv mxc) as [err|data]; run_async;
      [by destruct (Media.sendFails menv r _)|].
    destruct enabled; run_async.
    + destruct (bool_decide _ || _); run_async; [|done].
      destruct (Media.sendFails menv r "No speech detected in audio");
        run_async; [|done].
      by destruct (Media.sendFails menv r _).
    + destruct (Media.sendFails menv r "Audio received (transcription disabled)");
        run_async; [|done].
      by destruct (Media.sendFails menv r _).
  - unfold Media.handleImageMessage, sendTyping, sendMessage,
      downloadAndDecryptMedia, addReaction.
    destruct (truthy (getSender e)); [|by left].
    destruct (truthy (Some (roomId room))) as [r|]; [|by left].
    destruct (truthy (getId e)) as [eid|]; [|by left].
    rewrite !Hty. right.
    destruct (mxcUrl content) as [mxc|]; run_async;
      [|by destruct (Media.sendFails menv r _)].
    destruct (reactionFails menv eid); run_async;
      [by destruct (Media.sendFails menv r _)|].
    destruct (download menv mxc) as [err|data]; run_async;
      [by destruct (Media.sendFails menv r _)|].
    destruct (maxImageBytes <? _)%Z; run_async; [|done].
    by destruct (Media.sendFails menv r _).
Qed.
Lemma never_some_bind {E A B} (m : @Async.T E A) (k : A → Async.T (option B)) :
  (∀ a b, (k a).2 ≠ inr (Some b)) → ∀ b, (m ≫= k).2 ≠ inr (Some b).
Proof.
  intros Hk b. rewrite async_snd_bind. destruct m.2; [done|apply Hk].
Qed.

Lemma never_some_try {E B} (m : @Async.T E (option B)) h :
  (∀ b, m.2 ≠ inr (Some b)) → (∀ err b, (h err).2 ≠ inr (Some b)) →
  ∀ b, (Async.try_catch m h).2 ≠ inr (Some b).
Proof.
  intros Hm Hh b. destruct m as [tr [err|a]]; simpl in *; [|apply Hm].
  specialize (Hh err b). by destruct (h err).
Qed.

Ltac catch_path menv :=
  repeat (run_async;
    match goal with
    | |- context [ typingFails menv ?r ?b ] => destruct (typingFails menv r b)
    | |- context [ Media.sendFails menv ?r ?t ] =>
        destruct (Media.sendFails menv r t)
    end);
  run_async; simpl; by intros ?%elem_of_nil.

(** The image handler when every step succeeds. *)
Lemma handleImageMessage_stored menv room e content sender eid mxc data :
  truthy (getSender e) = Some sender → roomId room ≠ "" →
  truthy (getId e) = Some eid → mxcUrl content = Some mxc →
  typing_ok menv → reactionFails menv eid = None →
  download menv mxc = inr data →
  (Z.of_nat (length data) ≤ maxImageBytes)%Z →
  Media.handleImageMessage menv room e content
  = ([SendTyping (roomId room) true; AddReaction (roomId room) eid check_mark;
      DownloadMedia mxc; SendTyping (roomId room) false;
      StorePendingImage eid (roomId room) data (Images.detectImageFormat data)],
     inr None).
Proof.
  intros Hs Hr He Hmxc Hty Hreact Hd Hlen. unfold Media.handleImageMessage.
  rewrite Hs, truthy_roomId, He, Hmxc by done.
  unfold sendTyping, addReaction, downloadAndDecryptMedia.
  rewrite !Hty, Hreact, Hd. run_async.
  by rewrite (proj2 (Z.ltb_ge _ _) Hlen).
Qed.

(** X22. The image handler queues, it never delivers: it returns no
    message on any path, so an image alone never reaches [onMessage].  It
    stores a pending image only after the check-mark reaction was sent, the
    download succeeded, the data turned out to be at most 10 MiB and the
    typing indicator was switched off, and then it stores the downloaded
    data under the event's id and room with the format that
    [detectImageFormat] reports; in an environment where these steps succeed
    it does exactly that. *)
Theorem image_handler_queues menv room e content :
  let m := Media.handleImageMessage menv room e content in
  (∀ msg, m.2 ≠ inr (Some msg)) ∧
  (∀ img, img ∈ stored m.1 →
     ∃ eid mxc,
       truthy (getId e) = Some eid ∧ mxcUrl content = Some mxc ∧
       download menv mxc = inr img.1 ∧
       (Z.of_nat (length img.1) ≤ maxImageBytes)%Z ∧
       img.2 = Images.detectImageFormat img.1 ∧
       m = ([SendTyping (roomId room) true;
             AddReaction (roomId room) eid check_mark;
             DownloadMedia mxc; SendTyping (roomId room) false;
             StorePendingImage eid (roomId room) img.1 img.2],
            inr None)) ∧
  (∀ sender eid mxc data,
     truthy (getSender e) = Some sender → roomId room ≠ "" →
     truthy (getId e) = Some eid → mxcUrl content = Some mxc →
     typing_ok menv → reactionFails menv eid = None →
     download menv mxc = inr data →
     (Z.of_nat (length data) ≤ maxImageBytes)%Z →
     stored m.1 = [(data, Images.detectImageFormat data)]).
Proof.
  intros m. split; [|split].
  - unfold m, Media.handleImageMessage.
    repeat first
      [ apply never_some_try; [|intros ?]
      | apply never_some_bind; intros ?
      | case_match
      | done ].
  - intros img. unfold m, Media.handleImageMessage.
    destruct (truthy (getSender e)) as [sender|]; [|by intros ?%elem_of_nil].
    destruct (truthy (Some (roomId room))) as [r|] eqn:Hr;
      [|by intros ?%elem_of_nil].
    assert (r = roomId room) as ->.
    { simpl in Hr. by destruct (decide (roomId room = "")); simplify_eq. }
    destruct (truthy (getId e)) as [eid|]; [|by intros ?%elem_of_nil].
    unfold sendTyping, sendMessage, downloadAndDecryptMedia, addReaction.
    destruct (typingFails menv (roomId room) true); run_async;
      [by intros ?%elem_of_nil|].
    destruct (mxcUrl content) as [mxc|]; run_async.
    2:{ catch_path menv. }
    destruct (reactionFails menv eid); run_async.
    { catch_path menv. }
    destruct (download menv mxc) as [err|data] eqn:Hd; run_async.
    { catch_path menv. }
    destruct (maxImageBytes <? Z.of_nat (length data))%Z eqn:Hlen; run_async.
    { catch_path menv. }
    apply Z.ltb_ge in Hlen.
    destruct (typingFails menv (roomId room) false); run_async.
    { catch_path menv. }
    simpl. intros ->%list_elem_of_singleton. by exists eid, mxc.
  - intros sender eid mxc data Hs Hr He Hmxc Hty Hreact Hd Hlen. unfold m.
    by rewrite (handleImageMessage_stored menv room e content sender eid mxc data).
Qed.
End Media_facts.

(** ** The message queue *)
Section Queue_facts.
Import Queue.
Context {Item : Type}.
Implicit Types (s : State Item) (i : Input Item).

Lemma queue_bounded_step i s :
  (Z.of_nat (length (queue s)) ≤ Z.max 0 (maxSize s))%Z →
  maxSize (step i s) = maxSize s ∧
  (Z.of_nat (length (queue (step i s))) ≤ Z.max 0 (maxSize s))%Z.
Proof.
  intros Hs. destruct i as [item|p| | |err|]; simpl.
  - unfold enqueue. destruct (Z.leb_spec (maxSize s) (Z.of_nat (length (queue s))));
      simpl; [done|]. split; [done|]. rewrite length_app. simpl. lia.
  - unfold startProcessing. by destruct (intervalId s).
  - done.
  - destruct (intervalId s); [|done]. unfold processNext.
    destruct (processing s), (queue s) as [|item rest] eqn:Hq, (processor s);
      simpl in *; rewrite ?Hq; simpl; split; try done; lia.
  - by destruct (processing s).
  - split; [done|]. simpl. lia.
Qed.

(** X23. The queue is bounded: whatever is enqueued and however slowly the
    processor works, the queue never holds more than [maxSize] items (none
    at all for a [maxSize] of zero or less); an [enqueue] on a full queue
    returns false and leaves the queue as it is, any other [enqueue] returns
    true and appends the item. *)
Theorem queue_bounded (inputs : list (Input Item)) (maxSize0 : Z) (item : Item) :
  let s := run inputs (init maxSize0) in
  (Z.of_nat (getSize s) ≤ Z.max 0 maxSize0)%Z ∧
  (isFull s = true →
     (enqueue item s).1 = false ∧ queue (enqueue item s).2 = queue s) ∧
  (isFull s = false →
     (enqueue item s).1 = true ∧ queue (enqueue item s).2 = queue s ++ [item]).
Proof.
  intros s. split; [|split].
  - unfold s, run, getSize.
    assert (maxSize (@init Item maxSize0) = maxSize0 ∧
            (Z.of_nat (length (queue (@init Item maxSize0))) ≤ Z.max 0 maxSize0)%Z)
      as Hinit by (simpl; lia).
    revert Hinit. generalize (@init Item maxSize0).
    induction inputs as [|i inputs IH]; intros s0 [Hm Hq]; cbn [foldl]; [done|].
    apply IH. unfold flip. rewrite <- Hm in *.
    destruct (queue_bounded_step i s0 Hq) as [-> ?]. done.
  - unfold isFull, enqueue. by intros ->.
  - unfold isFull, enqueue. by intros ->.
Qed.

Lemma enqueued_app (a b : list (Effect Item)) :
  enqueued (a ++ b) = enqueued a ++ enqueued b.
Proof. apply omap_app. Qed.

Lemma processed_app (a b : list (Effect Item)) :
  processed (a ++ b) = processed a ++ processed b.
Proof. apply omap_app. Qed.

Lemma queue_inv_step i s n :
  ¬ is_clear i → queue_inv n s →
  queue_inv (n + if processing s
                 then match i with ProcessorSettled _ => 1 | _ => 0 end
                 else 0) (step i s).
Proof.
  intros Hi [Hq Hn]. unfold queue_inv.
  destruct i as [item|p| | |err|]; simpl in *.
  - unfold enqueue. destruct (_ <=? _)%Z; simpl;
      rewrite enqueued_app, processed_app; simpl; rewrite ?app_nil_r.
    + split; [done|]. destruct (processing s); lia.
    + split; [by rewrite app_assoc, Hq|]. destruct (processing s); lia.
  - unfold startProcessing. destruct (intervalId s); simpl;
      (split; [done|]); destruct (processing s); lia.
  - split; [done|]. destruct (processing s); lia.
  - destruct (intervalId s); [|split; [done|destruct (processing s); lia]].
    unfold processNext.
    destruct (processing s) eqn:Hp; [split; [done|simpl; rewrite Hp; lia]|].
    destruct (queue s) as [|item rest] eqn:Hqs;
      [split; [by rewrite Hqs|rewrite Hp; lia]|].
    destruct (processor s); simpl.
    + rewrite enqueued_app, processed_app. simpl. rewrite app_nil_r.
      split; [by rewrite <- app_assoc|]. rewrite length_app. simpl. lia.
    + rewrite Hqs, Hp. split; [done|lia].
  - destruct (processing s) eqn:Hp; simpl.
    + rewrite enqueued_app, processed_app.
      assert (enqueued (match err with Some e => [LogError e] | None => [] end)
              = ([] : list Item)) as -> by by destruct err.
      assert (processed (match err with Some e => [LogError e] | None => [] end)
              = ([] : list Item)) as -> by by destruct err.
      rewrite !app_nil_r. split; [done|lia].
    + rewrite Hp. split; [done|lia].
  - done.
Qed.

Lemma settlements_cons i (inputs : list (Input Item)) :
  settlements (i :: inputs)
  = ((match i with ProcessorSettled _ => 1 | _ => 0 end) + settlements inputs)%nat.
Proof. by destruct i. Qed.

(** X24. The queue is first-in first-out, loses nothing and works on one
    item at a time.  In every run without [clear()], the items handed to
    the processor so far, followed by the items still queued, are exactly
    the items [enqueue] accepted, in the order of their acceptance, each
    once (so an item whose processing failed is not queued again); and the
    processor is never called while an earlier call is unsettled: the
    number of calls is at most one more than the number of settlements. *)
Theorem queue_fifo (inputs : list (Input Item)) (maxSize0 : Z) :
  Forall (λ i, ¬ is_clear i) inputs →
  let s := run inputs (init maxSize0) in
  processed (log s) ++ queue s = enqueued (log s) ∧
  (length (processed (log s)) ≤ settlements inputs + 1)%nat.
Proof.
  intros Hin s.
  assert (∃ n, (n ≤ settlements inputs)%nat ∧ queue_inv n s) as (n & Hn & Hq & Hl).
  { unfold s, run.
    assert (∀ n s0, queue_inv n s0 →
              ∃ n', (n' ≤ n + settlements inputs)%nat
                    ∧ queue_inv n' (foldl (flip step) s0 inputs)) as Hrun.
    { induction Hin as [|i inputs Hi _ IH]; intros n s0 Hs0; cbn [foldl].
      - exists n. split; [lia|done].
      - apply (queue_inv_step i s0 n Hi) in Hs0.
        destruct (IH _ _ Hs0) as (n' & Hn' & Hinv). unfold flip.
        exists n'. split; [|done]. rewrite settlements_cons.
        destruct i, (processing s0); lia. }
    destruct (Hrun 0%nat (@init Item maxSize0)) as (n & Hn & Hinv); [done|].
    exists n. split; [lia|done]. }
  split; [done|]. destruct (processing s); lia.
Qed.
End Queue_facts.

(** ** The verification handler: device keys before SAS *)
Section Verification_fetch.
Import Verification VerificationSpec VerificationFetchSpec.
Implicit Types (s : State).

Lemma fetched_before_mono s s' b b' :
  (∀ x, x ∈ log s → x ∈ log s') → (b ≤ b')%Z →
  fetched_before s b → fetched_before s' b'.
Proof.
  intros Hl Hb (t & u & Hin & Hle). exists t, u. split; [by apply Hl|lia].
Qed.

(** Updates that leave the log, the timers, the pending promises, the
    clock, the crypto module and the request objects alone. *)
Lemma fetch_inv_same s s' :
  log s' = log s → timers s' = timers s → awaits s' = awaits s →
  now s' = now s → crypto s' = crypto s → requests s' = requests s →
  fetch_inv s → fetch_inv s'.
Proof.
  intros Hl Ht Ha Hn Hc Hr (H1 & H2 & H3 & H4 & H5 & H6).
  unfold fetch_inv, fetched_before. rewrite Hl, Ht, Ha, Hn, Hc, Hr. done.
Qed.

Lemma fetch_inv_set_active f s : fetch_inv s → fetch_inv (set_active f s).
Proof. by apply fetch_inv_same. Qed.

Lemma fetch_inv_set_changeListeners f s :
  fetch_inv s → fetch_inv (set_changeListeners f s).
Proof. by apply fetch_inv_same. Qed.

Lemma fetch_inv_attach v r key s :
  fetch_inv s → fetch_inv (attachVerifierListeners v r key s).
Proof. by apply fetch_inv_same. Qed.

Lemma fetch_inv_emit e s :
  (∀ r, e ≠ CallStartVerification r) → fetch_inv s → fetch_inv (emit e s).
Proof.
  intros He (H1 & H2 & H3 & H4 & H5 & H6).
  assert (∀ x, x ∈ log s → x ∈ log (emit e s)) as Hsub.
  { intros x Hx. simpl. apply elem_of_app. by left. }
  split; [done|]. split; [done|]. split; [|split; [|split]].
  - intros t e'. simpl. rewrite elem_of_app, list_elem_of_singleton.
    intros [Hin|[= -> ->]]; [by eapply H3|lia].
  - intros r key Hin. eapply fetched_before_mono; [done| |by eapply H4]. done.
  - intros due r key Hin. eapply fetched_before_mono; [done| |by eapply H5]. done.
  - intros t r. simpl. rewrite elem_of_app, list_elem_of_singleton.
    intros [Hin|[= -> <-]]; [|by destruct (He r)].
    eapply fetched_before_mono; [done| |by eapply H6]. done.
Qed.

Lemma fetch_inv_suspend a s :
  (∀ r key, a ≠ AwaitDeviceInfo r key) → fetch_inv s → fetch_inv (suspend a s).
Proof.
  intros Ha (H1 & H2 & H3 & H4 & H5 & H6).
  split; [done|]. split; [done|]. split; [done|]. split; [|done].
  intros r key. simpl. rewrite elem_of_app, list_elem_of_singleton.
  intros [Hin|<-]; [by eapply H4|by destruct (Ha r key)].
Qed.

Lemma fetch_inv_setTimeout a d s :
  (∀ r key, a ≠ SettleDelay r key) → fetch_inv s → fetch_inv (setTimeout a d s).
Proof.
  intros Ha (H1 & H2 & H3 & H4 & H5 & H6).
  split; [done|]. split; [done|]. split; [done|]. split; [done|]. split; [|done].
  intros due r key. simpl. rewrite elem_of_app, list_elem_of_singleton.
  intros [Hin|[= -> <-]]; [by eapply H5|by destruct (Ha r key)].
Qed.

Lemma fetch_inv_remove_await a s :
  fetch_inv s → fetch_inv (set_awaits (remove_first a) s).
Proof.
  intros (H1 & H2 & H3 & H4 & H5 & H6).
  split; [done|]. split; [done|]. split; [done|]. split; [|done].
  intros r key Hin. apply elem_of_remove_first in Hin. by eapply H4.
Qed.

Lemma fetch_inv_remove_timer x s :
  fetch_inv s → fetch_inv (set_timers (remove_first x) s).
Proof.
  intros (H1 & H2 & H3 & H4 & H5 & H6).
  split; [done|]. split; [done|]. split; [done|]. split; [done|]. split; [|done].
  intros due r key Hin. apply elem_of_remove_first in Hin. by eapply H5.
Qed.

(** [startSASVerification] on a ready request fetches the device keys
    first. *)
Lemma fetch_inv_startSAS r key s :
  phase (requests s r) = Ready → fetch_inv s →
  fetch_inv (startSASVerification r key s).
Proof.
  intros Hready Hinv. pose proof Hinv as (H1 & H2 & H3 & H4 & H5 & H6).
  unfold startSASVerification. rewrite H1.
  rewrite bool_decide_true by by apply H2. simpl.
  set (u := otherUserId (requests s r)).
  assert (fetch_inv (emit (CallGetUserDeviceInfo u) s)) as Hinv'.
  { by apply fetch_inv_emit. }
  destruct Hinv' as (H1' & H2' & H3' & H4' & H5' & H6').
  split; [done|]. split; [done|]. split; [done|]. split; [|done].
  intros r' key'. simpl. rewrite elem_of_app, list_elem_of_singleton.
  intros [Hin|_].
  - by eapply H4'.
  - exists (now s), u. split; [|lia]. simpl.
    rewrite elem_of_app, list_elem_of_singleton. by right.
Qed.

(** The second half of [startSASVerification], at least 500 ms after a
    fetch. *)
Lemma fetch_inv_start_start r key s :
  fetched_before s (now s) → fetch_inv s →
  fetch_inv (startSASVerification_start r key s).
Proof.
  intros Hf Hinv. unfold startSASVerification_start.
  destruct (verifier (requests s r)) as [v|]; [by apply fetch_inv_attach|].
  apply fetch_inv_suspend; [done|].
  destruct Hinv as (H1 & H2 & H3 & H4 & H5 & H6).
  assert (∀ x, x ∈ log s → x ∈ log (emit (CallStartVerification r) s)) as Hsub.
  { intros x Hx. simpl. apply elem_of_app. by left. }
  split; [done|]. split; [done|]. split; [|split; [|split]].
  - intros t e'. simpl. rewrite elem_of_app, list_elem_of_singleton.
    intros [Hin|[= -> ->]]; [by eapply H3|lia].
  - intros r' key' Hin. eapply fetched_before_mono; [done| |by eapply H4]. done.
  - intros due r' key' Hin. eapply fetched_before_mono; [done| |by eapply H5]. done.
  - intros t r'. simpl. rewrite elem_of_app, list_elem_of_singleton.
    intros [Hin|[= -> ->]].
    + eapply fetched_before_mono; [done| |by eapply H6]. done.
    + eapply fetched_before_mono; [done| |exact Hf]. done.
Qed.

Lemma fetch_inv_store r key s :
  fetch_inv s → fetch_inv (handleVerificationRequest_store r key s).
Proof.
  intros Hinv. unfold handleVerificationRequest_store.
  apply (fetch_inv_set_active (JsMap.set key (new_entry r (requests s r))))
    in Hinv.
  destruct (phase (requests s r)) eqn:Hp; try done.
  - unfold acceptAndStartSAS. apply fetch_inv_suspend; [done|].
    by apply fetch_inv_emit.
  - by apply fetch_inv_startSAS.
  - destruct (verifier (requests s r)); [|done]. by apply fetch_inv_attach.
Qed.

Lemma fetch_inv_handleVerificationRequest r s :
  fetch_inv s → fetch_inv (handleVerificationRequest r s).
Proof.
  intros Hinv. unfold handleVerificationRequest.
  repeat case_match; try done;
    apply fetch_inv_store; first [done | by apply fetch_inv_set_active].
Qed.

Lemma fetch_inv_change_listener r l s :
  fetch_inv s → fetch_inv (change_listener r l s).
Proof.
  intros Hinv. unfold change_listener.
  destruct l as [key|key|key]; destruct (phase (requests s r)) eqn:Hp;
    try done; try (destruct (verifier (requests s r)); [|done]);
    repeat first
      [ done
      | apply fetch_inv_startSAS; [done|]
      | apply fetch_inv_emit; [done|]
      | apply fetch_inv_set_changeListeners
      | apply fetch_inv_set_active
      | apply fetch_inv_attach ].
Qed.

Lemma fetch_inv_foldl {A} (f : State → A → State) (l : list A) s :
  (∀ s a, fetch_inv s → fetch_inv (f s a)) →
  fetch_inv s → fetch_inv (foldl f s l).
Proof. intros Hf. revert s. induction l; simpl; auto. Qed.

Lemma fetch_inv_show_sas payload emoji v key s :
  fetch_inv s → fetch_inv (show_sas_listener payload emoji v key s).
Proof.
  intros Hinv. unfold show_sas_listener.
  destruct payload; [|done]. destruct emoji as [es|]; [|done]. simpl.
  apply fetch_inv_setTimeout; [done|]. apply fetch_inv_emit; [done|].
  case_match; [by apply fetch_inv_set_active|done].
Qed.

Lemma fetch_inv_confirm key s :
  fetch_inv s → fetch_inv (confirmVerification key s).
Proof.
  intros Hinv. unfold confirmVerification. repeat case_match; try done.
  apply fetch_inv_suspend; [done|]. by apply fetch_inv_emit.
Qed.

Lemma fetch_inv_settle a k s :
  (∀ s', a ∈ awaits s → fetch_inv s' → now s' = now s → log s' = log s →
         fetch_inv (k s')) →
  fetch_inv s → fetch_inv (settle a k s).
Proof.
  intros Hk Hinv. unfold settle. case_match; [|done].
  apply Hk; try done. by apply fetch_inv_remove_await.
Qed.

Lemma fetch_inv_step i s :
  named_request i → fetch_inv s → fetch_inv (step i s).
Proof.
  intros Hi Hinv. destruct i; simpl in *.
  - case_match; [|done]. destruct Hinv as (H1 & H2 & H3 & H4 & H5 & H6).
    split; [done|]. split; [done|]. split; [|split; [|done]].
    + intros t e Hin. simpl. apply H3 in Hin. lia.
    + intros r key Hin. simpl.
      eapply fetched_before_mono; [done| |by eapply H4]. lia.
  - assert (fetch_inv (set_request r req s)) as Hinv'.
    { destruct Hinv as (H1 & H2 & H3 & H4 & H5 & H6).
      split; [done|]. split; [|done]. intros r'. simpl.
      destruct (decide (r' = r)) as [->|Hne].
      - by rewrite fn_lookup_insert.
      - rewrite fn_lookup_insert_ne by done. apply H2. }
    case_match; [|done]. apply fetch_inv_foldl; [|done].
    intros s0 [r0 l0] Hs0. case_match; [|done].
    by apply fetch_inv_change_listener.
  - by apply fetch_inv_handleVerificationRequest.
  - apply fetch_inv_settle; [|done]. intros s' _ Hs' _ _.
    destruct err; simpl; [by apply fetch_inv_emit|].
    unfold acceptAndStartSAS_accepted. case_match.
    + by apply fetch_inv_startSAS.
    + apply fetch_inv_setTimeout; [done|]. by apply fetch_inv_set_changeListeners.
  - apply fetch_inv_settle; [|done]. intros s' Hin Hs' Hn Hl.
    destruct err; simpl; [by apply fetch_inv_emit|].
    destruct Hinv as (_ & _ & _ & H4 & _).
    pose proof (H4 _ _ Hin) as Hf.
    destruct Hs' as (H1 & H2 & H3 & H4' & H5 & H6).
    split; [done|]. split; [done|]. split; [done|]. split; [done|].
    split; [|done].
    intros due r' key'. simpl. rewrite elem_of_app, list_elem_of_singleton.
    intros [Hd|[= -> _ _]]; [by eapply H5|].
    destruct Hf as (t & u & Ht & Hle). exists t, u. simpl. rewrite Hl, Hn. done.
  - apply fetch_inv_settle; [|done]. intros s' _ Hs' _ _.
    destruct res as [e|[v|]]; try by apply fetch_inv_emit.
    unfold startSASVerification_started.
    apply fetch_inv_suspend; [done|]. apply fetch_inv_emit; [done|].
    apply fetch_inv_attach. case_match; [by apply fetch_inv_set_active|done].
  - apply fetch_inv_settle; [|done]. intros s' _ Hs' _ _.
    destruct err; simpl; [by apply fetch_inv_emit|done].
  - apply fetch_inv_settle; [|done]. intros s' _ Hs' _ _.
    destruct err; simpl; [by apply fetch_inv_emit|done].
  - apply fetch_inv_settle; [|done]. intros s' _ Hs' _ _.
    destruct res; [by apply fetch_inv_emit|].
    unfold requestVerification_requested.
    by apply fetch_inv_set_changeListeners, fetch_inv_set_active.
  - destruct (decide _) as [[Hin Hdue]|]; [|done].
    pose proof (fetch_inv_remove_timer (due, a) s Hinv) as Hinv'.
    destruct a as [r key|r key|key]; simpl.
    + case_match; [|done]. apply fetch_inv_startSAS; [done|].
      by apply fetch_inv_set_changeListeners.
    + apply fetch_inv_start_start; [|done].
      destruct Hinv as (_ & _ & _ & _ & H5 & _).
      eapply fetched_before_mono; [| |by eapply H5]; done.
    + by apply fetch_inv_confirm.
  - apply fetch_inv_foldl; [|done].
    intros s0 [v0 k0] Hs0. case_match; [|done]. by apply fetch_inv_show_sas.
  - apply fetch_inv_foldl; [|done].
    intros s0 [v0 k0] Hs0. case_match; [|done].
    unfold cancel_listener. apply fetch_inv_emit; [done|].
    by apply fetch_inv_set_active.
  - unfold requestVerification. destruct Hinv as (H1 & Hrest). rewrite H1.
    apply fetch_inv_suspend; [done|]. by apply fetch_inv_emit.
  - by apply fetch_inv_set_active.
Qed.

(** X25. Device keys before SAS.  For a client with crypto whose request
    objects name the other user, in every run of the handler each call of
    [request.startVerification] comes at least 500 ms after a call of
    [getUserDeviceInfo]: however a request gets to the Ready phase (on
    arrival, after accept, through the change event or the poll, or for a
    request the bot itself sent), SAS is started only by the timer that
    [startSASVerification] sets once the device keys were fetched. *)
Theorem device_keys_fetched_before_sas (inputs : list Input) :
  Forall named_request inputs →
  let s := run inputs (init true) in
  ∀ t r, (t, CallStartVerification r) ∈ log s →
    ∃ t' u, (t', CallGetUserDeviceInfo u) ∈ log s ∧ (t' + 500 ≤ t)%Z.
Proof.
  intros Hin s.
  assert (fetch_inv s) as (_ & _ & _ & _ & _ & H6); [|exact H6].
  unfold s, run.
  assert (fetch_inv (init true)) as Hinit.
  { repeat split; simpl; try done; intros; by apply elem_of_nil in H. }
  revert Hinit. generalize (init true).
  induction Hin as [|i inputs Hi _ IH]; intros s0 Hs0; cbn [foldl]; [done|].
  apply IH. by apply fetch_inv_step.
Qed.
End Verification_fetch.

(** ** Witnesses of the further properties *)
Section Further_witnesses.
Import Adapter AdapterSpec AdapterExtraSpec AdapterScenarios AdapterExtraScenarios.
Import HandlersSpec HandlersScenarios.

(** Witness for X10: the event is delivered twice before its key
    arrives. *)
Lemma decrypted_observer_fires_per_registration_witness :
  let t := run cfg0 env0
             [ SdkSetEvent 1 (encrypted "$E1" "!room:example.org" 0);
               TimelineEvent 1000 1 (Some room1) false;
               TimelineEvent 1001 1 (Some room1) false ] start in
  dispatched
    (effects (step cfg0 env0 (EventDecrypted 1 "m.room.message" hello) t))
  = [1; 1]%nat.
Proof.
  intros t.
  destruct (decrypted_observer_fires_per_registration cfg0 env0 t 1%nat
              "m.room.message" "m.room.message" hello hello)
    as (_ & _ & H & _).
  exact H.
Defined.

(** Witness for X13: the device list arrives on the fifth attempt. *)
Lemma proactive_verification_contained_witness :
  let m := initiateProactiveVerification cfg0 env_fifth_attempt start in
  m.2 = inr tt ∧ ("BOTDEVICE" ∉ requested m.1) ∧ (fetches m.1 ≤ 5)%nat.
Proof.
  intros m.
  destruct (proactive_verification_contained cfg0 env_fifth_attempt start)
    as (Hok & Hown & Hfetch).
  split; [exact Hok|]. split; [|exact Hfetch].
  intros Hin. by apply (Hown bot "BOTDEVICE" eq_refl Hin).
Defined.

(** Witness for X14: under the pairing policy a stranger's invitation is
    accepted. *)
Lemma invite_policy_witness :
  Invite.joined
    (Invite.membershipListener (λ _, None) cfg_pairing true start "invite"
       (Some "@mallory:example.org") "!new:example.org").1
  = ["!new:example.org"].
Proof.
  destruct (invite_policy (λ _, None) cfg_pairing true start "invite"
              (Some "@mallory:example.org") "!new:example.org") as (_ & H & _).
  apply H. repeat split. exists "@mallory:example.org". split; [done|].
  intros [=].
Defined.

(** Witness for X15: only the laptop is marked. *)
Lemma autoTrustDevices_marks_witness :
  Trust.marked
    (Trust.autoTrustDevices three_devices phone_verified (λ _, None) start).1
  = ["LAPTOP"].
Proof.
  destruct (autoTrustDevices_marks three_devices phone_verified (λ _, None) start)
    as (_ & _ & H).
  destruct (H bot "@bot:example.org" ["PHONE"; "BOTDEVICE"; "LAPTOP"]
              eq_refl eq_refl eq_refl eq_refl) as [Hm _].
  - intros d _. unfold phone_verified. case_match; by eexists.
  - done.
  - exact Hm.
Defined.

(** Witness for X16: the image of room b is taken, the one of room a
    stays. *)
Lemma getPendingImage_consumes_first_witness :
  Images.getPendingImage "!b:example.org" [("$I1", cat); ("$I2", dog)]
  = (Some ([0x89; 0x50; 0x4e; 0x47], "png"), [("$I1", cat)]).
Proof.
  destruct (getPendingImage_consumes_first "!b:example.org" [("$I1", cat)] [] []
              "$I2" dog 0 [] "") as [H _].
  apply H; [|by intros kv ->%list_elem_of_singleton|done].
  apply list.NoDup_cons. split; [by intros ?%list_elem_of_singleton|].
  apply list.NoDup_cons. split; [apply not_elem_of_nil|apply NoDup_nil_2].
Defined.

(** Witness for X17: a WAV file is reported as WebP. *)
Lemma detectImageFormat_header_witness :
  Images.detectImageFormat wav_header = "webp".
Proof.
  destruct (detectImageFormat_header [] [0x24; 0x08; 0x00; 0x00; 0x57; 0x41; 0x56; 0x45])
    as (_ & _ & H & _).
  exact H.
Defined.

(** Witness for X18: the v1 endpoint answers 404. *)
Lemma download_tries_v1_then_v3_witness :
  Media.downloadMatrixMedia fetch_v3_only "https://hs" "mxc://example.org/abc"
  = ([Media.Fetch "https://hs/_matrix/client/v1/media/download/example.org/abc";
      Media.Fetch "https://hs/_matrix/media/v3/download/example.org/abc"],
     inr [1; 2; 3]).
Proof.
  destruct (download_tries_v1_then_v3 fetch_v3_only "https://hs" "example.org"
              "abc" "") as [_ H].
  exact (H eq_refl).
Defined.

(** Witness for X19: Mallory is blocked for text, her voice message is
    delivered. *)
Lemma voice_message_skips_access_witness :
  checkAccess cfg_allowlist env_commands "@mallory:example.org" = Blocked ∧
  (λ m, (userId m, text m)) <$>
    delivered (handleMessageEvent cfg_allowlist
                 (with_audio env_commands menv0 voice_media true)
                 voice_state 5 room1).1
  = [("@mallory:example.org",
      "[VOICE] " +:+ Media.dquote +:+ "open the door" +:+ Media.dquote)].
Proof.
  split; [reflexivity|].
  assert (typing_ok menv0) as Hty by (intros ??; reflexivity).
  destruct (voice_message_skips_access cfg_allowlist env_commands menv0
              voice_media voice_state 5 room1 bot "@bot:example.org"
              "@mallory:example.org" "mxc://example.org/abc" [1; 2; 3]
              (λ _, None) eq_refl eq_refl eq_refl eq_refl ltac:(discriminate)
              Hty eq_refl eq_refl ltac:(discriminate) eq_refl eq_refl)
    as (_ & _ & _ & H).
  rewrite H. reflexivity.
Defined.

(** Witness for X20: the service answers 500. *)
Lemma stt_failure_reported_as_no_speech_witness :
  Media.handleAudioMessage menv_stt_down room1 voice_event
    (voice_media voice_event) true
  = ([Media.SendTyping "!room:example.org" true;
      Media.DownloadMedia "mxc://example.org/abc"; Media.Transcribe;
      Media.SendTyping "!room:example.org" false;
      Media.SendMessage "!room:example.org" "No speech detected in audio"],
     inr None).
Proof.
  destruct (stt_failure_reported_as_no_speech menv_stt_down room1 voice_event
              (voice_media voice_event) "@mallory:example.org"
              "mxc://example.org/abc" [1; 2; 3] "STT API error: 500") as [_ H].
  assert (typing_ok menv_stt_down) as Hty by (intros ??; reflexivity).
  exact (H eq_refl ltac:(discriminate) Hty eq_refl eq_refl eq_refl eq_refl).
Defined.

(** Witness for X21: an audio event without a URL. *)
Lemma typing_indicator_cleared_witness :
  typing_cleared
    (Media.handleAudioMessage menv0 room1 voice_event (Media.mkMedia None None)
       true).1.
Proof.
  apply (typing_indicator_cleared menv0 room1 voice_event
           (Media.mkMedia None None) true).
  intros ??. reflexivity.
Defined.

(** Witness for X22: a JPEG is stored as such. *)
Lemma image_handler_queues_witness :
  Media.stored
    (Media.handleImageMessage menv_jpeg room1 image_event
       (voice_media image_event)).1
  = [([0xff; 0xd8; 0xff; 0xe0], "jpeg")].
Proof.
  destruct (image_handler_queues menv_jpeg room1 image_event
              (voice_media image_event)) as (_ & _ & H).
  assert (typing_ok menv_jpeg) as Hty by (intros ??; reflexivity).
  apply (H "@alice:example.org" "$I1" "mxc://example.org/abc" _ eq_refl
           ltac:(discriminate) eq_refl eq_refl Hty eq_refl eq_refl).
  vm_compute. discriminate.
Defined.

(** Witness for X23: the third item of the burst is dropped. *)
Lemma queue_bounded_witness :
  Queue.getSize
    (Queue.run [Queue.Enqueue "a"; Queue.Enqueue "b"; Queue.Enqueue "c"]
       (Queue.init 2)) = 2%nat ∧
  (Queue.enqueue "d"
     (Queue.run [Queue.Enqueue "a"; Queue.Enqueue "b"; Queue.Enqueue "c"]
        (Queue.init 2))).1 = false.
Proof.
  destruct (queue_bounded [Queue.Enqueue "a"; Queue.Enqueue "b"; Queue.Enqueue "c"]
              2 "d") as (_ & H & _).
  split; [reflexivity|]. apply H. reflexivity.
Defined.

(** Witness for X24: "a" fails and is not queued again, "b" follows. *)
Lemma queue_fifo_witness :
  let s := Queue.run burst (Queue.init 2) in
  Queue.processed (Queue.log s) ++ Queue.queue s = ["a"; "b"] ∧
  (length (Queue.processed (Queue.log s)) ≤ 2)%nat.
Proof.
  intros s.
  destruct (queue_fifo burst 2) as [H1 H2].
  - repeat (apply Forall_cons_2; [by intros []|]). apply Forall_nil_2.
  - split; [exact H1|exact H2].
Defined.
End Further_witnesses.

Section Verification_fetch_witness.
Import Verification VerificationSpec VerificationFetchSpec Scenarios.

(** Witness for X25: the SAS start of [ready_poll_first] at 1500 ms. *)
Lemma device_keys_fetched_before_sas_witness :
  ∃ t' u,
    (t', CallGetUserDeviceInfo u) ∈ log (run ready_poll_first (init true))
    ∧ (t' + 500 ≤ 1500)%Z.
Proof.
  apply (device_keys_fetched_before_sas ready_poll_first) with (r := 0%nat).
  - repeat (apply Forall_cons_2; [by simpl|]). apply Forall_nil_2.
  - vm_compute.
    repeat first [ apply list_elem_of_here | apply list_elem_of_further ].
Defined.
End Verification_fetch_witness.

(** ** The session manager *)
Section Session_facts.
Import Session.
Implicit Types (fs : FS) (n : Z).

Lemma existsSync_false p fs : fs p = None → existsSync p fs = false.
Proof.
  intros H. unfold existsSync. rewrite H. apply bool_decide_eq_false.
  by intros [? [=]].
Qed.

Lemma existsSync_true p fs c : fs p = Some c → existsSync p fs = true.
Proof. intros H. unfold existsSync. rewrite H. by apply bool_decide_eq_true. Qed.

Lemma existsSync_spec p fs :
  (existsSync p fs = true ∧ fs p ≠ None) ∨ (existsSync p fs = false ∧ fs p = None).
Proof.
  destruct (fs p) as [c|] eqn:H.
  - left. by rewrite (existsSync_true p fs c).
  - right. by rewrite existsSync_false.
Qed.

(** The shifting loop: every backup from 1 to [m] moves up by one, the
    other files stay. *)
Lemma shiftBackups_spec (m : nat) fs :
  fs (Backup (Z.of_nat m + 1)) = None →
  let fs' := shiftBackups m fs in
  (∀ i, (1 ≤ i ≤ Z.of_nat m)%Z → fs' (Backup (i + 1)) = fs (Backup i)) ∧
  fs' (Backup 1) = None ∧
  (∀ p, (∀ i, (1 ≤ i ≤ Z.of_nat m + 1)%Z → p ≠ Backup i) → fs' p = fs p).
Proof.
  revert fs. induction m as [|m IH]; intros fs Htop; cbn [shiftBackups].
  - split; [intros i Hi; lia|]. split; [exact Htop|done].
  - set (i := Z.of_nat (S m)) in *.
    set (fs1 := if existsSync (Backup i) fs
                then renameSync (Backup i) (Backup (i + 1)) fs else fs).
    assert (fs1 (Backup (i + 1)) = fs (Backup i) ∧ fs1 (Backup i) = None ∧
            (∀ p, p ≠ Backup i → p ≠ Backup (i + 1) → fs1 p = fs p))
      as (Hup & Hgone & Hrest).
    { unfold fs1. destruct (existsSync_spec (Backup i) fs) as [[-> He]|[-> He]].
      - unfold renameSync. split; [|split].
        + rewrite fn_lookup_insert_ne by (intros [=]; lia).
          by rewrite fn_lookup_insert.
        + by rewrite fn_lookup_insert.
        + intros p H1 H2. by rewrite !fn_lookup_insert_ne.
      - split; [by rewrite He|]. split; [done|done]. }
    destruct (IH fs1) as (IH1 & IH2 & IH3).
    { replace (Z.of_nat m + 1)%Z with i by lia. exact Hgone. }
    split; [|split].
    + intros j Hj. destruct (decide (j = i)) as [->|Hne].
      * rewrite IH3; [done|]. intros k Hk [=]. lia.
      * rewrite IH1 by lia. apply Hrest; intros [=]; lia.
    + exact IH2.
    + intros p Hp. rewrite IH3.
      * apply Hrest; apply Hp; lia.
      * intros k Hk. apply Hp. lia.
Qed.

(** [rotateBackups] for a backup count of at least 1. *)
Lemma rotateBackups_spec n fs :
  (1 ≤ n)%Z →
  let fs' := rotateBackups n fs in
  fs' (Backup 1) = fs SessionFile ∧
  fs' SessionFile = None ∧
  fs' TempFile = fs TempFile ∧
  (∀ i, (1 ≤ i < n)%Z → fs' (Backup (i + 1)) = fs (Backup i)) ∧
  (∀ i, (i < 1 ∨ n < i)%Z → fs' (Backup i) = fs (Backup i)).
Proof.
  intros Hn. unfold rotateBackups.
  set (fs0 := if existsSync (Backup n) fs then unlinkSync (Backup n) fs else fs).
  assert (fs0 (Backup n) = None ∧ (∀ p, p ≠ Backup n → fs0 p = fs p))
    as [Hgone Hrest].
  { unfold fs0. destruct (existsSync_spec (Backup n) fs) as [[-> He]|[-> He]].
    - unfold unlinkSync. split; [by rewrite fn_lookup_insert|].
      intros p Hp. by rewrite fn_lookup_insert_ne.
    - done. }
  destruct (shiftBackups_spec (Z.to_nat (n - 1)) fs0) as (H1 & H2 & H3).
  { replace (Z.of_nat (Z.to_nat (n - 1)) + 1)%Z with n by lia. exact Hgone. }
  replace (Z.of_nat (Z.to_nat (n - 1))) with (n - 1)%Z in * by lia.
  set (fs1 := shiftBackups (Z.to_nat (n - 1)) fs0) in *.
  cbv zeta. unfold renameSync. split; [|split; [|split; [|split]]].
  - rewrite fn_lookup_insert_ne by done. rewrite fn_lookup_insert.
    rewrite H3 by done. by apply Hrest.
  - by rewrite fn_lookup_insert.
  - rewrite !fn_lookup_insert_ne by done. rewrite H3 by done. by apply Hrest.
  - intros i Hi. rewrite !fn_lookup_insert_ne by (intros [=]; lia).
    rewrite H1 by lia. apply Hrest. intros [=]. lia.
  - intros i Hi. rewrite !fn_lookup_insert_ne by (intros [=]; lia).
    rewrite H3 by (intros k Hk [=]; lia). apply Hrest. intros [=]. lia.
Qed.

(** X26. Saving and loading.  After [saveSession(session)] the session
    file exists and holds the session, the temporary file is gone, and
    [loadSession()] returns the session if its user id and access token are
    not empty and null otherwise; and when a session file existed before the
    save, [restoreFromBackup()] afterwards returns the session that was
    replaced (whatever the backup count, also zero), without validating it
    and without touching any file. *)
Theorem save_load_restore n (session : MatrixSession) fs :
  let fs' := saveSession n session fs in
  fs' SessionFile = Some (Json session) ∧
  fs' TempFile = None ∧
  hasSession fs' = true ∧
  (valid session → loadSession fs' = Some session) ∧
  (¬ valid session → loadSession fs' = None) ∧
  (∀ old, fs SessionFile = Some (Json old) → restoreFromBackup fs' = Some old).
Proof.
  intros fs'.
  assert (fs' SessionFile = Some (Json session)) as Hs.
  { unfold fs', saveSession, renameSync, writeFileSync.
    rewrite fn_lookup_insert_ne by done. by rewrite !fn_lookup_insert. }
  split; [done|]. split; [|split; [|split; [|split]]].
  - unfold fs', saveSession, renameSync. by rewrite fn_lookup_insert.
  - unfold hasSession. by rewrite (existsSync_true _ _ _ Hs).
  - intros [Hu Ht]. unfold loadSession. rewrite Hs.
    by rewrite !bool_decide_false.
  - intros Hv. unfold loadSession. rewrite Hs.
    case_bool_decide as Hu; [done|]. case_bool_decide as Ht; [done|].
    by destruct Hv.
  - intros old Hold. unfold restoreFromBackup, fs', saveSession.
    rewrite (existsSync_true _ _ _ Hold).
    unfold renameSync at 1, writeFileSync.
    rewrite !fn_lookup_insert_ne by done.
    unfold rotateBackups, renameSync.
    rewrite fn_lookup_insert_ne by done. rewrite fn_lookup_insert.
    match goal with |- context [ shiftBackups ?m ?g ] =>
      assert (shiftBackups m g SessionFile = fs SessionFile) as ->
    end; [|by rewrite Hold].
    assert (∀ m g, shiftBackups m g SessionFile = g SessionFile) as Hshift.
    { clear. induction m as [|m IH]; intros g; cbn [shiftBackups]; [done|].
      rewrite IH. case_match; [|done]. unfold renameSync.
      by rewrite !fn_lookup_insert_ne. }
    rewrite Hshift. case_match; [|done]. unfold unlinkSync.
    by rewrite fn_lookup_insert_ne.
Qed.

(** X27. Backup rotation.  For a backup count of at least 1, a save over
    an existing session file moves the old session file to backup 1 and
    every backup i below the count to backup i+1; the backup that was at the
    count is dropped, and no file is created beyond the count. *)
Theorem save_rotates_backups n (session : MatrixSession) fs (c : Content) :
  (1 ≤ n)%Z → fs SessionFile = Some c →
  let fs' := saveSession n session fs in
  fs' (Backup 1) = Some c ∧
  (∀ i, (1 ≤ i < n)%Z → fs' (Backup (i + 1)) = fs (Backup i)) ∧
  (∀ i, (i < 1 ∨ n < i)%Z → fs' (Backup i) = fs (Backup i)).
Proof.
  intros Hn Hc fs'. unfold fs', saveSession.
  rewrite (existsSync_true _ _ _ Hc).
  destruct (rotateBackups_spec n fs Hn) as (H1 & _ & _ & H4 & H5).
  unfold renameSync, writeFileSync.
  split; [|split].
  - rewrite !fn_lookup_insert_ne by done. by rewrite H1.
  - intros i Hi. rewrite !fn_lookup_insert_ne by done. by apply H4.
  - intros i Hi. rewrite !fn_lookup_insert_ne by done. by apply H5.
Qed.

Lemma clearBackups_spec (m : nat) (i : Z) fs :
  let fs' := clearBackups m i fs in
  (∀ j, (i ≤ j < i + Z.of_nat m)%Z → fs' (Backup j) = None) ∧
  (∀ p, (∀ j, (i ≤ j < i + Z.of_nat m)%Z → p ≠ Backup j) → fs' p = fs p).
Proof.
  revert i fs. induction m as [|m IH]; intros i fs; cbn [clearBackups].
  - split; [intros j Hj; lia|done].
  - set (fs1 := if existsSync (Backup i) fs then unlinkSync (Backup i) fs else fs).
    assert (fs1 (Backup i) = None ∧ (∀ p, p ≠ Backup i → fs1 p = fs p))
      as [Hgone Hrest].
    { unfold fs1. destruct (existsSync_spec (Backup i) fs) as [[-> He]|[-> He]].
      - unfold unlinkSync. split; [by rewrite fn_lookup_insert|].
        intros p Hp. by rewrite fn_lookup_insert_ne.
      - done. }
    destruct (IH (i + 1)%Z fs1) as [IH1 IH2]. split.
    + intros j Hj. destruct (decide (j = i)) as [->|Hne].
      * rewrite IH2; [done|]. intros k Hk [=]. lia.
      * apply IH1. lia.
    + intros p Hp. rewrite IH2.
      * apply Hrest. apply Hp. lia.
      * intros k Hk. apply Hp. lia.
Qed.

Lemma tidy_step n i fs : (1 ≤ n)%Z → tidy n fs → tidy n (step n i fs).
Proof.
  intros Hn [Htmp Hb]. destruct i as [session|]; simpl.
  - unfold saveSession. split.
    + unfold renameSync. by rewrite fn_lookup_insert.
    + intros i. unfold renameSync at 1, writeFileSync.
      rewrite !fn_lookup_insert_ne by done.
      destruct (existsSync SessionFile fs); [|apply Hb].
      destruct (rotateBackups_spec n fs Hn) as (H1 & _ & _ & H4 & H5).
      intros Hi. destruct (decide (1 ≤ i ≤ n)%Z) as [|Hout]; [done|].
      rewrite H5 in Hi by lia. by apply Hb.
  - unfold clearSession.
    set (fs1 := if existsSync SessionFile fs then unlinkSync SessionFile fs else fs).
    assert (∀ p, p ≠ SessionFile → fs1 p = fs p) as Hrest.
    { intros p Hp. unfold fs1. case_match; [|done]. unfold unlinkSync.
      by rewrite fn_lookup_insert_ne. }
    destruct (clearBackups_spec (Z.to_nat n) 1 fs1) as [H1 H2]. split.
    + rewrite H2 by done. by rewrite Hrest.
    + intros i Hi. destruct (decide (1 ≤ i ≤ n)%Z) as [|Hout]; [done|].
      rewrite H2 in Hi by (intros j Hj [=]; lia). rewrite Hrest in Hi by done.
      by apply Hb.
Qed.

(** X28. The manager keeps its files tidy and [clearSession()] removes
    them all.  For a backup count of at least 1, after any sequence of
    saves and clears starting without files, the temporary file does not
    exist and backups exist only at numbers 1 to the count; and a
    [clearSession()] at that point leaves no file at all, so that
    [hasSession()] is false and [loadSession()] and [restoreFromBackup()]
    return null.  With a backup count of 0 or less a save over an existing
    session still writes backup 1, and [clearSession()] does not remove
    it. *)
Theorem clear_removes_all n (inputs : list Input) (session : MatrixSession)
    fs (c : Content) :
  ((1 ≤ n)%Z →
     let fs1 := run n inputs no_files in
     tidy n fs1 ∧
     (∀ p, clearSession n fs1 p = None) ∧
     hasSession (clearSession n fs1) = false ∧
     loadSession (clearSession n fs1) = None ∧
     restoreFromBackup (clearSession n fs1) = None) ∧
  ((n ≤ 0)%Z → fs SessionFile = Some c →
     clearSession n (saveSession n session fs) (Backup 1) = Some c).
Proof.
  split.
  - intros Hn fs1.
    assert (tidy n fs1) as Htidy.
    { unfold fs1, run. assert (tidy n no_files) as Hinit by (split; done).
      revert Hinit. generalize no_files.
      induction inputs as [|i inputs IH]; intros fs0 Hfs0; cbn [foldl]; [done|].
      apply IH. by apply tidy_step. }
    assert (∀ p, clearSession n fs1 p = None) as Hnone.
    { intros p. unfold clearSession.
      set (fs2 := if existsSync SessionFile fs1
                  then unlinkSync SessionFile fs1 else fs1).
      assert (fs2 SessionFile = None ∧ (∀ p, p ≠ SessionFile → fs2 p = fs1 p))
        as [Hgone Hrest].
      { unfold fs2.
        destruct (existsSync_spec SessionFile fs1) as [[-> He]|[-> He]].
        - unfold unlinkSync. split; [by rewrite fn_lookup_insert|].
          intros q Hq. by rewrite fn_lookup_insert_ne.
        - done. }
      destruct (clearBackups_spec (Z.to_nat n) 1 fs2) as [H1 H2].
      destruct Htidy as [Htmp Hb].
      destruct p as [| |i].
      - by rewrite H2.
      - rewrite H2 by done. by rewrite Hrest.
      - destruct (decide (1 ≤ i ≤ n)%Z) as [Hin|Hout].
        + apply H1. lia.
        + rewrite H2 by (intros j Hj [=]; lia). rewrite Hrest by done.
          destruct (fs1 (Backup i)) eqn:Hfs; [|done].
          destruct Hout. apply Hb. by rewrite Hfs. }
    split; [done|]. split; [done|]. split; [|split].
    + unfold hasSession. by apply existsSync_false.
    + unfold loadSession. by rewrite Hnone.
    + unfold restoreFromBackup. by rewrite Hnone.
  - intros Hn Hc. unfold clearSession.
    replace (Z.to_nat n) with 0%nat by lia. cbn [clearBackups].
    assert (saveSession n session fs (Backup 1) = Some c) as Hb.
    { unfold saveSession. rewrite (existsSync_true _ _ _ Hc).
      unfold renameSync at 1, writeFileSync.
      rewrite !fn_lookup_insert_ne by done.
      unfold rotateBackups, renameSync.
      rewrite fn_lookup_insert_ne by done. rewrite fn_lookup_insert.
      replace (Z.to_nat (n - 1)) with 0%nat by lia. cbn [shiftBackups].
      case_match; [|done]. unfold unlinkSync. by rewrite fn_lookup_insert_ne. }
    case_match; [|done]. unfold unlinkSync. by rewrite fn_lookup_insert_ne.
Qed.
End Session_facts.

Section Session_witnesses.
Import Session HandlersScenarios.

(** Witness for X26: the token is renewed. *)
Lemma save_load_restore_witness :
  let fs := saveSession 3 session2 (saveSession 3 session1 no_files) in
  loadSession fs = Some session2 ∧ restoreFromBackup fs = Some session1.
Proof.
  intros fs.
  destruct (save_load_restore 3 session2 (saveSession 3 session1 no_files))
    as (_ & _ & _ & Hload & _ & Hrestore).
  split.
  - apply Hload. by split.
  - apply Hrestore. reflexivity.
Defined.

(** Witness for X27: the third save moves the first session to backup 2. *)
Lemma save_rotates_backups_witness :
  let fs := run 3 [SaveSession session1; SaveSession session2] no_files in
  saveSession 3 session1 fs (Backup 2) = Some (Json session1).
Proof.
  intros fs.
  destruct (save_rotates_backups 3 session1 fs (Json session2)) as (_ & H & _);
    [lia|reflexivity|].
  apply (H 1%Z). lia.
Defined.

(** Witness for X28: three saves and a clear. *)
Lemma clear_removes_all_witness :
  let fs := run 3 [SaveSession session1; SaveSession session2; SaveSession session1]
              no_files in
  fs (Backup 2) = Some (Json session1) ∧ clearSession 3 fs (Backup 2) = None.
Proof.
  intros fs. split; [reflexivity|].
  destruct (clear_removes_all 3
              [SaveSession session1; SaveSession session2; SaveSession session1]
              session1 no_files Garbage) as [H _].
  destruct (H ltac:(lia)) as (_ & Hnone & _). apply Hnone.
Defined.
End Session_witnesses.
